(** * Live language conversation: playback scheduling, transcript turns,
      session stop and API error classification

    A shallow embedding of [components/LiveVoiceTranslator.tsx] (the live
    session's [onmessage] handler, [stopSession], [startSession] and
    [saveCurrentSessionToHistory]) and of [utils/errorUtils.ts]
    ([parseApiError]); then of the rest of the live component (the history
    panel, the level display) and of [components/TextTranslator.tsx] (the
    translation in one request and in a batch of sentences, speech, the
    history).

    Conventions of the embedding:
    - a JavaScript string is the list of its UTF-16 code units;
    - a JavaScript number that carries a time in seconds is an exact
      rational ([Q]); the rounding of IEEE doubles is not modelled;
    - a React [useState] cell and a [useRef] cell are fields of one [State]
      record; a value that a callback reads from the closure of the render
      that created it (the [isActive] flag read by [stopSession], the
      [speechRate] read by [onmessage]) is an explicit argument;
    - calls into the browser (Web Audio, media tracks, the live session) are
      recorded, in order, in the [trace] field of the state. *)

From Stdlib Require Import String Ascii.
From Stdlib Require Import List Bool Arith NArith ZArith QArith Qminmax Lia.
From Stdlib Require Import Qabs.
Import ListNotations.

Local Close Scope Q_scope.
Local Open Scope nat_scope.
Local Open Scope list_scope.

(** ** JavaScript strings *)

Module JS.

Definition jsstring : Type := list N.

(** The code units of an ASCII literal. *)
Definition js (s : string) : jsstring :=
  List.map N_of_ascii (list_ascii_of_string s).

(** Truthiness of a string: every string but the empty one. *)
Definition truthy (s : jsstring) : bool :=
  match s with
  | [] => false
  | _ :: _ => true
  end.

Fixpoint startsWith (needle s : jsstring) : bool :=
  match needle, s with
  | [], _ => true
  | _ :: _, [] => false
  | n :: needle', c :: s' => N.eqb n c && startsWith needle' s'
  end.

(** [s.includes(needle)] *)
Fixpoint includes (s needle : jsstring) : bool :=
  startsWith needle s ||
  match s with
  | [] => false
  | _ :: s' => includes s' needle
  end.

(** ECMAScript WhiteSpace and LineTerminator code points, the ones
    [String.prototype.trim] strips. *)
Definition isWhiteSpace (c : N) : bool :=
  ((9 <=? c) && (c <=? 13) || (c =? 32) || (c =? 160) || (c =? 5760)
   || (8192 <=? c) && (c <=? 8202) || (c =? 8232) || (c =? 8233)
   || (c =? 8239) || (c =? 8287) || (c =? 12288) || (c =? 65279))%N.

Fixpoint trimStart (s : jsstring) : jsstring :=
  match s with
  | [] => []
  | c :: s' => if isWhiteSpace c then trimStart s' else s
  end.

Definition trimEnd (s : jsstring) : jsstring := rev (trimStart (rev s)).

Definition trim (s : jsstring) : jsstring := trimEnd (trimStart s).

(** [s.substring(0, n)] *)
Definition substring0 (n : nat) (s : jsstring) : jsstring := firstn n s.

(** [arr.slice(-n)]: the last [n] elements. *)
Definition slice_last {A : Type} (n : nat) (l : list A) : list A :=
  skipn (length l - n) l.

(** [arr.slice(0, n)]: the first [n] elements. *)
Definition slice_first {A : Type} (n : nat) (l : list A) : list A :=
  firstn n l.

(** *** Facts about the string primitives *)

Lemma startsWith_spec (needle s : jsstring) :
  startsWith needle s = true <-> exists post, s = needle ++ post.
Proof.
  revert s; induction needle as [|n needle IH]; intros s; simpl.
  - split; [intros _; now exists s | reflexivity].
  - destruct s as [|c s].
    + split; [discriminate | intros [post H]; discriminate].
    + rewrite andb_true_iff, N.eqb_eq, IH. split.
      * intros [-> [post ->]]. now exists post.
      * intros [post H]. injection H as -> ->. split; [reflexivity | now exists post].
Qed.

Lemma includes_spec (s needle : jsstring) :
  includes s needle = true <-> exists pre post, s = pre ++ needle ++ post.
Proof.
  induction s as [|c s IH].
  - simpl. rewrite orb_false_r, startsWith_spec. split.
    + intros [post H]. now exists [], post.
    + intros [pre [post H]]. destruct pre as [|p pre]; [now exists post | discriminate].
  - cbn [includes]. rewrite orb_true_iff, startsWith_spec, IH. split.
    + intros [[post H] | [pre [post H]]].
      * now exists [], post.
      * exists (c :: pre), post. now rewrite H.
    + intros [pre [post H]]. destruct pre as [|p pre].
      * left. now exists post.
      * right. injection H as _ H. now exists pre, post.
Qed.

Lemma trimStart_head (s : jsstring) :
  match trimStart s with
  | [] => True
  | c :: _ => isWhiteSpace c = false
  end.
Proof.
  induction s as [|c s IH]; simpl; [exact I|].
  destruct (isWhiteSpace c) eqn:E; [exact IH | exact E].
Qed.

Lemma slice_last_length {A : Type} (n : nat) (l : list A) :
  length (slice_last n l) <= n.
Proof. unfold slice_last. rewrite length_skipn. lia. Qed.

Lemma slice_last_short {A : Type} (n : nat) (l : list A) :
  length l <= n -> slice_last n l = l.
Proof.
  intros H. unfold slice_last. replace (length l - n) with 0 by lia. reflexivity.
Qed.

Lemma slice_last_app_suffix {A : Type} (n : nat) (l new : list A) :
  length new <= n ->
  exists kept, slice_last n (l ++ new) = kept ++ new.
Proof.
  intros H. unfold slice_last. rewrite length_app, skipn_app.
  replace (length l + length new - n - length l) with 0 by lia.
  now exists (skipn (length l + length new - n) l).
Qed.

End JS.

(** ** utils/errorUtils.ts *)

Module ErrorUtils.
Import JS.

(** What [parseApiError] reads of its argument: the [message] property,
    when the value has one, and the string [String(error)]. A [null] or
    [undefined] argument has no [message]. *)
Record ErrorValue : Type := mkErrorValue {
  message : option jsstring;
  toStr : jsstring
}.

(** The classes of the specification's error taxonomy, and the order in
    which they are tried. *)
Inductive ErrorClass : Type :=
| RateLimited
| InvalidKey
| PermissionDenied
| ServiceBusy
| SafetyBlocked
| NetworkError
| QuotaExceeded
| UnknownError.

Definition rank (c : ErrorClass) : nat :=
  match c with
  | RateLimited => 0
  | InvalidKey => 1
  | PermissionDenied => 2
  | ServiceBusy => 3
  | SafetyBlocked => 4
  | NetworkError => 5
  | QuotaExceeded => 6
  | UnknownError => 7
  end.

(** The lower-casing of the ASCII letters, for running [parseApiError] on
    ASCII texts. *)
Definition asciiLower (s : jsstring) : jsstring :=
  List.map (fun c => if ((65 <=? c) && (c <=? 90))%N then (c + 32)%N else c) s.

Section ParseApiError.

(** [String.prototype.toLowerCase], whose Unicode case table is not part of
    the program: the development holds for every such function. *)
Variable toLowerCase : jsstring -> jsstring.

(** [error?.message || String(error)] *)
Definition error_text (error : ErrorValue) : jsstring :=
  match message error with
  | Some m => if truthy m then m else toStr error
  | None => toStr error
  end.

Definition parseApiError (error : ErrorValue) : jsstring :=
  let message := error_text error in
  if includes message (js "429")
     || includes (toLowerCase message) (js "too many requests")
  then js "Rate limit exceeded. Please wait a moment before trying again."
  else if includes message (js "401")
          || includes (toLowerCase message) (js "api key")
  then js "Invalid API key. Please check your configuration."
  else if includes message (js "403")
  then js "Permission denied. Your API key may not have access to this model or region."
  else if includes message (js "500") || includes message (js "503")
  then js "The translation service is currently busy or unavailable. Please try again later."
  else if includes (toLowerCase message) (js "safety")
          || includes (toLowerCase message) (js "blocked")
  then js "The content was flagged by safety filters and could not be processed."
  else if includes (toLowerCase message) (js "network")
          || includes (toLowerCase message) (js "fetch")
  then js "Network error. Please check your internet connection."
  else if includes (toLowerCase message) (js "quota")
  then js "Account quota exceeded. Please check your Google AI Studio billing status."
  else js "An unexpected error occurred: " ++ message.

(** *** The classification as the specification words it *)

(** The text contains the needle as written. *)
Definition contains (text : jsstring) (needle : string) : bool :=
  includes text (js needle).

(** The text contains the needle in any letter case. *)
Definition contains_ci (text : jsstring) (needle : string) : bool :=
  includes (toLowerCase text) (js needle).

(** When a class applies to an error text. *)
Definition applies (c : ErrorClass) (text : jsstring) : bool :=
  match c with
  | RateLimited => contains text "429" || contains_ci text "too many requests"
  | InvalidKey => contains text "401" || contains_ci text "api key"
  | PermissionDenied => contains text "403"
  | ServiceBusy => contains text "500" || contains text "503"
  | SafetyBlocked => contains_ci text "safety" || contains_ci text "blocked"
  | NetworkError => contains_ci text "network" || contains_ci text "fetch"
  | QuotaExceeded => contains_ci text "quota"
  | UnknownError => true
  end.

(** The user-readable message of a class. *)
Definition user_message (c : ErrorClass) (text : jsstring) : jsstring :=
  match c with
  | RateLimited =>
      js "Rate limit exceeded. Please wait a moment before trying again."
  | InvalidKey => js "Invalid API key. Please check your configuration."
  | PermissionDenied =>
      js "Permission denied. Your API key may not have access to this model or region."
  | ServiceBusy =>
      js "The translation service is currently busy or unavailable. Please try again later."
  | SafetyBlocked =>
      js "The content was flagged by safety filters and could not be processed."
  | NetworkError => js "Network error. Please check your internet connection."
  | QuotaExceeded =>
      js "Account quota exceeded. Please check your Google AI Studio billing status."
  | UnknownError => js "An unexpected error occurred: " ++ text
  end.

(** [c] is the class selected for [text]: it applies, and no class tried
    before it does. *)
Definition selected (c : ErrorClass) (text : jsstring) : Prop :=
  applies c text = true /\
  forall c', rank c' < rank c -> applies c' text = false.

Lemma rank_inj (c c' : ErrorClass) : rank c = rank c' -> c = c'.
Proof. destruct c, c'; simpl; intros H; try reflexivity; discriminate H. Qed.

Lemma selected_unique (c c' : ErrorClass) (text : jsstring) :
  selected c text -> selected c' text -> c = c'.
Proof.
  intros [Hc Hlt] [Hc' Hlt'].
  apply rank_inj.
  destruct (Nat.lt_trichotomy (rank c) (rank c')) as [H | [H | H]].
  - rewrite (Hlt' c H) in Hc. discriminate Hc.
  - exact H.
  - rewrite (Hlt c' H) in Hc'. discriminate Hc'.
Qed.

(** Two classes never share a message, so the message returned names its
    class. *)
Lemma user_message_inj (c c' : ErrorClass) (text : jsstring) :
  user_message c text = user_message c' text -> c = c'.
Proof.
  destruct c, c'; intros H; try reflexivity; exfalso;
    apply (f_equal (firstn 5)) in H; vm_compute in H; discriminate H.
Qed.

(** The text that is tested: the [message] property of the error when it
    is a string that is not empty, else [String(error)]. *)
Lemma error_text_message (error : ErrorValue) (m : jsstring) :
  message error = Some m -> m <> [] -> error_text error = m.
Proof.
  unfold error_text. intros -> Hm. destruct m; [now elim Hm | reflexivity].
Qed.

Lemma error_text_toStr (error : ErrorValue) :
  message error = None \/ message error = Some [] ->
  error_text error = toStr error.
Proof. unfold error_text. now intros [-> | ->]. Qed.

(** C9. [parseApiError] maps every error value to the message of exactly
    one class. The text it tests is the [message] property of the error
    when that is a string that is not empty, and [String(error)] when the
    property is missing or empty. The class is the first, in the order rate
    limit, invalid key, permission denied, service busy, safety filter,
    network, quota, whose test that text passes ('429' or 'too many
    requests'; '401' or 'api key'; '403'; '500' or '503'; 'safety' or
    'blocked'; 'network' or 'fetch'; 'quota', the worded needles in any
    letter case), and the fallback 'An unexpected error occurred: '
    followed by the text when none does. *)
Theorem parseApiError_classifies (error : ErrorValue) :
  exists (text : jsstring) (c : ErrorClass),
    (forall m, message error = Some m -> m <> [] -> text = m) /\
    (message error = None \/ message error = Some [] -> text = toStr error) /\
    selected c text /\
    parseApiError error = user_message c text /\
    (forall c', selected c' text -> c' = c) /\
    (forall c', parseApiError error = user_message c' text -> c' = c).
Proof.
  set (text := error_text error).
  assert (Hsel : exists c, selected c text /\ parseApiError error = user_message c text).
  { unfold parseApiError. fold text. cbv zeta.
    destruct (applies RateLimited text) eqn:H0;
      [exists RateLimited|
    destruct (applies InvalidKey text) eqn:H1;
      [exists InvalidKey|
    destruct (applies PermissionDenied text) eqn:H2;
      [exists PermissionDenied|
    destruct (applies ServiceBusy text) eqn:H3;
      [exists ServiceBusy|
    destruct (applies SafetyBlocked text) eqn:H4;
      [exists SafetyBlocked|
    destruct (applies NetworkError text) eqn:H5;
      [exists NetworkError|
    destruct (applies QuotaExceeded text) eqn:H6;
      [exists QuotaExceeded|exists UnknownError]]]]]]];
    (split;
     [ split; [first [assumption | reflexivity]|];
       intros c' Hlt; destruct c'; simpl in Hlt; try lia; assumption
     | unfold applies, contains, contains_ci in *;
       repeat match goal with H : _ = _ |- _ => rewrite H end; reflexivity ]). }
  destruct Hsel as [c [Hc Heq]].
  exists text, c.
  split; [intros m Hm Hne; exact (error_text_message error m Hm Hne)|].
  split; [exact (error_text_toStr error)|].
  repeat split; try assumption; try apply Hc.
  - intros c' Hc'. exact (selected_unique c' c text Hc' Hc).
  - intros c' Heq'. apply (user_message_inj c' c text). congruence.
Qed.

End ParseApiError.

Example parseApiError_rate_limit :
  parseApiError asciiLower (mkErrorValue (Some (js "HTTP 401: Too Many Requests")) (js "Error"))
  = js "Rate limit exceeded. Please wait a moment before trying again.".
Proof. vm_compute. reflexivity. Qed.

Example parseApiError_null :
  parseApiError asciiLower (mkErrorValue None (js "null"))
  = js "An unexpected error occurred: null".
Proof. vm_compute. reflexivity. Qed.

End ErrorUtils.

(** ** components/LiveVoiceTranslator.tsx *)

Module Live.
Import JS.

(** *** Data *)

Inductive Role : Type := user | model.

(** An element of [transcriptions]: [{ role, text }]. *)
Record Turn : Type := mkTurn {
  role : Role;
  text : jsstring
}.

(** [VoiceHistoryItem] of types.ts. *)
Record VoiceHistoryItem : Type := mkVoiceHistoryItem {
  id : jsstring;
  timestamp : Z;
  messages : list Turn;
  summary : option jsstring
}.

(** Browser objects are known by their identity. A media stream is the list
    of its tracks. *)
Definition MediaStream : Type := list nat.
Definition AudioContext : Type := nat.
Definition LiveSession : Type := nat.
Definition AudioBufferSourceNode : Type := nat.

(** A Web Audio buffer: [duration] is its length in sample frames over its
    sample rate. *)
Record AudioBuffer : Type := mkAudioBuffer {
  frames : N;
  sampleRate : positive
}.

Definition duration (b : AudioBuffer) : Q := Z.of_N (frames b) # sampleRate b.

(** [outCtx.currentTime]: the output context is created with
    [sampleRate: 24000], and its clock is the number of sample frames it has
    rendered over that rate. *)
Definition currentTime (renderedFrames : N) : Q := Z.of_N renderedFrames # 24000.

(** One call of [source.start]: the node, the clock value the handler read
    from [outCtx.currentTime], the start time passed to [start], the
    duration of the node's buffer and the node's playback rate. *)
Record PlaybackClip : Type := mkPlaybackClip {
  node : AudioBufferSourceNode;
  clockRead : Q;
  startAt : Q;
  bufferDuration : Q;
  playbackRate : Q
}.

(** What the component does to its environment, and the turns it commits to
    the transcript. *)
Inductive Effect : Type :=
| SourceStart (clip : PlaybackClip)
| SourceStop (source : AudioBufferSourceNode)
| TrackStop (track : nat)
| ContextClose (ctx : AudioContext)
| SessionClose (session : LiveSession)
| ConsoleError (label : string)
| TurnCommitted (turn : Turn).

(** [currentTranscriptionRef.current]: [{ user, model }]. *)
Record CurrentTranscription : Type := mkCurrentTranscription {
  cur_user : jsstring;
  cur_model : jsstring
}.

(** The component's state cells and refs. [nodesCreated] numbers the nodes
    made by [createBufferSource], so that each has its own identity;
    [trace] lists the effects so far, oldest first. *)
Record State : Type := mkState {
  isActive : bool;
  isConnecting : bool;
  transcriptions : list Turn;
  history : list VoiceHistoryItem;
  audioCtxRef : option AudioContext;
  outputAudioCtxRef : option AudioContext;
  sessionPromiseRef : option LiveSession;
  nextStartTimeRef : Q;
  sourcesRef : list AudioBufferSourceNode;
  streamRef : option MediaStream;
  currentTranscriptionRef : CurrentTranscription;
  nodesCreated : nat;
  trace : list Effect
}.

Definition set_isActive (v : bool) (s : State) : State :=
  mkState v (isConnecting s) (transcriptions s) (history s) (audioCtxRef s)
    (outputAudioCtxRef s) (sessionPromiseRef s) (nextStartTimeRef s)
    (sourcesRef s) (streamRef s) (currentTranscriptionRef s) (nodesCreated s)
    (trace s).

Definition set_isConnecting (v : bool) (s : State) : State :=
  mkState (isActive s) v (transcriptions s) (history s) (audioCtxRef s)
    (outputAudioCtxRef s) (sessionPromiseRef s) (nextStartTimeRef s)
    (sourcesRef s) (streamRef s) (currentTranscriptionRef s) (nodesCreated s)
    (trace s).

Definition set_transcriptions (v : list Turn) (s : State) : State :=
  mkState (isActive s) (isConnecting s) v (history s) (audioCtxRef s)
    (outputAudioCtxRef s) (sessionPromiseRef s) (nextStartTimeRef s)
    (sourcesRef s) (streamRef s) (currentTranscriptionRef s) (nodesCreated s)
    (trace s).

Definition set_history (v : list VoiceHistoryItem) (s : State) : State :=
  mkState (isActive s) (isConnecting s) (transcriptions s) v (audioCtxRef s)
    (outputAudioCtxRef s) (sessionPromiseRef s) (nextStartTimeRef s)
    (sourcesRef s) (streamRef s) (currentTranscriptionRef s) (nodesCreated s)
    (trace s).

Definition set_audioCtxRef (v : option AudioContext) (s : State) : State :=
  mkState (isActive s) (isConnecting s) (transcriptions s) (history s) v
    (outputAudioCtxRef s) (sessionPromiseRef s) (nextStartTimeRef s)
    (sourcesRef s) (streamRef s) (currentTranscriptionRef s) (nodesCreated s)
    (trace s).

Definition set_outputAudioCtxRef (v : option AudioContext) (s : State) : State :=
  mkState (isActive s) (isConnecting s) (transcriptions s) (history s)
    (audioCtxRef s) v (sessionPromiseRef s) (nextStartTimeRef s)
    (sourcesRef s) (streamRef s) (currentTranscriptionRef s) (nodesCreated s)
    (trace s).

Definition set_sessionPromiseRef (v : option LiveSession) (s : State) : State :=
  mkState (isActive s) (isConnecting s) (transcriptions s) (history s)
    (audioCtxRef s) (outputAudioCtxRef s) v (nextStartTimeRef s)
    (sourcesRef s) (streamRef s) (currentTranscriptionRef s) (nodesCreated s)
    (trace s).

Definition set_nextStartTimeRef (v : Q) (s : State) : State :=
  mkState (isActive s) (isConnecting s) (transcriptions s) (history s)
    (audioCtxRef s) (outputAudioCtxRef s) (sessionPromiseRef s) v
    (sourcesRef s) (streamRef s) (currentTranscriptionRef s) (nodesCreated s)
    (trace s).

Definition set_sourcesRef (v : list AudioBufferSourceNode) (s : State) : State :=
  mkState (isActive s) (isConnecting s) (transcriptions s) (history s)
    (audioCtxRef s) (outputAudioCtxRef s) (sessionPromiseRef s)
    (nextStartTimeRef s) v (streamRef s) (currentTranscriptionRef s)
    (nodesCreated s) (trace s).

Definition set_streamRef (v : option MediaStream) (s : State) : State :=
  mkState (isActive s) (isConnecting s) (transcriptions s) (history s)
    (audioCtxRef s) (outputAudioCtxRef s) (sessionPromiseRef s)
    (nextStartTimeRef s) (sourcesRef s) v (currentTranscriptionRef s)
    (nodesCreated s) (trace s).

Definition set_currentTranscriptionRef (v : CurrentTranscription) (s : State) : State :=
  mkState (isActive s) (isConnecting s) (transcriptions s) (history s)
    (audioCtxRef s) (outputAudioCtxRef s) (sessionPromiseRef s)
    (nextStartTimeRef s) (sourcesRef s) (streamRef s) v (nodesCreated s)
    (trace s).

Definition set_nodesCreated (v : nat) (s : State) : State :=
  mkState (isActive s) (isConnecting s) (transcriptions s) (history s)
    (audioCtxRef s) (outputAudioCtxRef s) (sessionPromiseRef s)
    (nextStartTimeRef s) (sourcesRef s) (streamRef s)
    (currentTranscriptionRef s) v (trace s).

(** Record effects at the end of the trace. *)
Definition emit (es : list Effect) (s : State) : State :=
  mkState (isActive s) (isConnecting s) (transcriptions s) (history s)
    (audioCtxRef s) (outputAudioCtxRef s) (sessionPromiseRef s)
    (nextStartTimeRef s) (sourcesRef s) (streamRef s)
    (currentTranscriptionRef s) (nodesCreated s) (trace s ++ es).

(** [Set.prototype.add] and [Set.prototype.delete] on a set kept in
    insertion order. *)
Definition set_add (x : nat) (l : list nat) : list nat :=
  if existsb (Nat.eqb x) l then l else l ++ [x].

Definition set_delete (x : nat) (l : list nat) : list nat :=
  filter (fun y => negb (Nat.eqb x y)) l.

(** What [onmessage] reads of a [LiveServerMessage]:
    [serverContent?.modelTurn?.parts[0]?.inlineData?.data], and the
    [interrupted], [inputTranscription], [outputTranscription] and
    [turnComplete] members of [serverContent]. A transcription object is
    [Some t], with [t] its [text] member, which the type leaves optional. *)
Record LiveServerMessage : Type := mkLiveServerMessage {
  audioData : option jsstring;
  interrupted : bool;
  inputTranscription : option (option jsstring);
  outputTranscription : option (option jsstring);
  turnComplete : bool
}.

(** The string that [+=] appends for a possibly missing [text]. *)
Definition appended (t : option jsstring) : jsstring :=
  match t with
  | Some s => s
  | None => js "undefined"
  end.

(** The values [saveCurrentSessionToHistory] takes from the browser:
    [crypto.randomUUID()] and [Date.now()]. *)
Record Browser : Type := mkBrowser {
  randomUUID : jsstring;
  dateNow : Z
}.

(** What [startSession] obtains: the stream that [getUserMedia] resolves to
    ([None] when it rejects), the two audio contexts it constructs and the
    session that [ai.live.connect] promises. *)
Record Acquired : Type := mkAcquired {
  getUserMedia : option MediaStream;
  inputContext : AudioContext;
  outputContext : AudioContext;
  liveConnect : LiveSession
}.

(** An event delivered to the running session: a server message, handled
    when the output clock has rendered the given number of frames, or the
    end of playback of a source node. *)
Inductive Event : Type :=
| Message (renderedFrames : N) (message : LiveServerMessage)
| Ended (source : AudioBufferSourceNode).

(** *** Operations *)

(** What the handlers of a session take from outside the component's
    state. [speechRate] is the value of the render that called
    [startSession], which the callbacks read from their closure; the
    settings slider keeps it within 0.5 and 2.0, and the division of [Q] is
    JavaScript's for a divisor other than zero. [decodeAudioData] stands for
    [decodeAudioData(decode(audioData), outCtx, 24000, 1)] of
    utils/audioUtils, which is not among the sources at hand: the buffer
    decoded from a payload, or [None] when decoding throws. *)
Class SessionEnv : Type := mkSessionEnv {
  speechRate : Q;
  decodeAudioData : jsstring -> option AudioBuffer
}.

Section Session.

Context {env : SessionEnv}.

(** The body of [if (audioData) { ... }], given the output context. *)
Definition handleAudio (renderedFrames : N) (data : jsstring) (s : State) : State :=
  let s := set_nextStartTimeRef
             (Qmax (nextStartTimeRef s) (currentTime renderedFrames)) s in
  match decodeAudioData data with
  | Some audioBuffer =>
      let source := nodesCreated s in
      let s := set_nodesCreated (S source) s in
      let s := emit [SourceStart
                       (mkPlaybackClip source (currentTime renderedFrames)
                          (nextStartTimeRef s) (duration audioBuffer) speechRate)] s in
      let s := set_nextStartTimeRef
                 (nextStartTimeRef s + duration audioBuffer / speechRate)%Q s in
      set_sourcesRef (set_add source (sourcesRef s)) s
  | None => emit [ConsoleError "Audio decoding error:"] s
  end.

(** The body of [if (message.serverContent?.interrupted) { ... }]. *)
Definition handleInterrupted (s : State) : State :=
  let s := emit (List.map SourceStop (sourcesRef s)) s in
  let s := set_sourcesRef [] s in
  set_nextStartTimeRef 0%Q s.

(** The two transcription tests. *)
Definition handleTranscription (message : LiveServerMessage) (s : State) : State :=
  let s :=
    match inputTranscription message with
    | Some t =>
        let cur := currentTranscriptionRef s in
        set_currentTranscriptionRef
          (mkCurrentTranscription (cur_user cur ++ appended t) (cur_model cur)) s
    | None => s
    end in
  match outputTranscription message with
  | Some t =>
      let cur := currentTranscriptionRef s in
      set_currentTranscriptionRef
        (mkCurrentTranscription (cur_user cur) (cur_model cur ++ appended t)) s
  | None => s
  end.

(** The body of [if (message.serverContent?.turnComplete) { ... }]. *)
Definition handleTurnComplete (s : State) : State :=
  let u := trim (cur_user (currentTranscriptionRef s)) in
  let m := trim (cur_model (currentTranscriptionRef s)) in
  let s :=
    if truthy u || truthy m then
      let added := (if truthy u then [mkTurn user u] else [])
                   ++ (if truthy m then [mkTurn model m] else []) in
      let updated := transcriptions s ++ added in
      emit (List.map TurnCommitted added)
        (set_transcriptions (slice_last 20 updated) s)
    else s in
  set_currentTranscriptionRef (mkCurrentTranscription [] []) s.

(** The tests of [onmessage] that follow the audio: [interrupted], the two
    transcriptions, [turnComplete]. *)
Definition afterAudio (message : LiveServerMessage) (s : State) : State :=
  let s := if interrupted message then handleInterrupted s else s in
  let s := handleTranscription message s in
  if turnComplete message then handleTurnComplete s else s.

(** [onmessage]. The result is [None] when the handler throws: a message
    with audio reads [outputAudioCtxRef.current!.currentTime], which is a
    TypeError on a null context, before it changes anything. The handler
    is taken to run to its end before the next event is delivered: its one
    [await], on the decoded buffer, is taken to settle within the task that
    delivered the message. *)
Definition onmessage (renderedFrames : N) (message : LiveServerMessage)
    (s : State) : option State :=
  match audioData message with
  | Some data =>
      if truthy data then
        match outputAudioCtxRef s with
        | Some _ =>
            Some (afterAudio message (handleAudio renderedFrames data s))
        | None => None
        end
      else Some (afterAudio message s)
  | None => Some (afterAudio message s)
  end.

(** [source.onended]. *)
Definition onended (source : AudioBufferSourceNode) (s : State) : State :=
  set_sourcesRef (set_delete source (sourcesRef s)) s.

Definition summarize (firstMsg : jsstring) : jsstring :=
  if 60 <? length firstMsg then substring0 60 firstMsg ++ js "..." else firstMsg.

Definition saveCurrentSessionToHistory (browser : Browser) (msgs : list Turn)
    (s : State) : State :=
  match msgs with
  | [] => s
  | first :: _ =>
      let newItem :=
        mkVoiceHistoryItem (randomUUID browser) (dateNow browser) msgs
          (Some (summarize (text first))) in
      set_history (slice_first 30 (newItem :: history s)) s
  end.

(** [stopSession], as called from a closure in which [isActive] has the
    value [active]. *)
Definition stopSession (active : bool) (browser : Browser) (s : State) : State :=
  let s :=
    if active then saveCurrentSessionToHistory browser (transcriptions s) s
    else s in
  let s := set_isActive false s in
  let s := set_isConnecting false s in
  let s :=
    match streamRef s with
    | Some stream => set_streamRef None (emit (List.map TrackStop stream) s)
    | None => s
    end in
  let s :=
    match audioCtxRef s with
    | Some ctx => set_audioCtxRef None (emit [ContextClose ctx] s)
    | None => s
    end in
  let s :=
    match outputAudioCtxRef s with
    | Some ctx => set_outputAudioCtxRef None (emit [ContextClose ctx] s)
    | None => s
    end in
  let s := emit (List.map SourceStop (sourcesRef s)) s in
  let s := set_sourcesRef [] s in
  match sessionPromiseRef s with
  | Some session => set_sessionPromiseRef None (emit [SessionClose session] s)
  | None => s
  end.

(** [startSession], as called from a closure in which [isActive] has the
    value [active]. The [stopSession] of its [catch] block, like the one of
    the [onerror] and [onclose] callbacks it installs, belongs to the same
    render, whose [isActive] was false for [startSession] to go on. *)
Definition startSession (active : bool) (acquired : Acquired) (browser : Browser)
    (s : State) : State :=
  if active then s
  else
    let s := set_isConnecting true s in
    let s := set_transcriptions [] s in
    match getUserMedia acquired with
    | Some stream =>
        let s := set_streamRef (Some stream) s in
        let s := set_audioCtxRef (Some (inputContext acquired)) s in
        let s := set_outputAudioCtxRef (Some (outputContext acquired)) s in
        set_sessionPromiseRef (Some (liveConnect acquired)) s
    | None =>
        let s := emit [ConsoleError "Failed to start session:"] s in
        let s := set_isConnecting false s in
        stopSession false browser s
    end.

(** The state changes of the [onopen] callback. *)
Definition onopen (s : State) : State :=
  set_isConnecting false (set_isActive true s).

(** The [onclose] callback. *)
Definition onclose (browser : Browser) (s : State) : State :=
  stopSession false browser s.

(** The [onerror] callback. *)
Definition onerror (browser : Browser) (s : State) : State :=
  stopSession false browser (emit [ConsoleError "Live session error:"] s).

(** The End Session button of the current render. *)
Definition endSessionClick (browser : Browser) (s : State) : State :=
  stopSession (isActive s) browser s.

(** One event of a session; a handler that throws leaves the state as it
    was. *)
Definition handle (ev : Event) (s : State) : State :=
  match ev with
  | Message renderedFrames message =>
      match onmessage renderedFrames message s with
      | Some s' => s'
      | None => s
      end
  | Ended source => onended source s
  end.

Definition run (evs : list Event) (s : State) : State :=
  fold_left (fun s ev => handle ev s) evs s.

(** *** Observations *)

(** The effects recorded between two states of one run. *)
Definition emitted (s s' : State) : list Effect :=
  skipn (length (trace s)) (trace s').

(** The calls of [source.start] among some effects, in order. *)
Fixpoint clips (es : list Effect) : list PlaybackClip :=
  match es with
  | [] => []
  | SourceStart clip :: es' => clip :: clips es'
  | _ :: es' => clips es'
  end.

(** The turns committed among some effects, in order. *)
Fixpoint committed (es : list Effect) : list Turn :=
  match es with
  | [] => []
  | TurnCommitted t :: es' => t :: committed es'
  | _ :: es' => committed es'
  end.

(** The playback time a clip occupies: its duration over its rate. *)
Definition occupancy (c : PlaybackClip) : Q := (bufferDuration c / playbackRate c)%Q.

(** No clip starts before the one scheduled before it has played, nor
    before the clock read when it was scheduled. *)
Definition back_to_back (cl : list PlaybackClip) : Prop :=
  forall i a b,
    nth_error cl i = Some a -> nth_error cl (S i) = Some b ->
    (startAt a + occupancy a <= startAt b)%Q /\ (clockRead b <= startAt b)%Q.

(** The same, with a bound for the first clip. *)
Fixpoint scheduled_from (bound : Q) (cl : list PlaybackClip) : Prop :=
  match cl with
  | [] => True
  | c :: rest =>
      (bound <= startAt c)%Q /\ (clockRead c <= startAt c)%Q /\
      scheduled_from (startAt c + occupancy c)%Q rest
  end.

Definition hasAudio (message : LiveServerMessage) : bool :=
  match audioData message with
  | Some data => truthy data
  | None => false
  end.

(** An event that is not an interruption. *)
Definition uninterrupted (ev : Event) : bool :=
  match ev with
  | Message _ message => negb (interrupted message)
  | Ended _ => true
  end.

(** An event that carries no audio. *)
Definition silent (ev : Event) : bool :=
  match ev with
  | Message _ message => negb (hasAudio message)
  | Ended _ => true
  end.

(** The output context is open, as it is from [startSession] to
    [stopSession]. *)
Definition live (s : State) : Prop := outputAudioCtxRef s <> None.

(** The turns a flush adds for the accumulated texts: the user's, then the
    model's, each trimmed, and neither when it is empty. *)
Definition flushedTurns (cur : CurrentTranscription) : list Turn :=
  filter (fun t => truthy (text t))
    [mkTurn user (trim (cur_user cur)); mkTurn model (trim (cur_model cur))].

(** The accumulators after the deltas of a message. *)
Definition accumulated (message : LiveServerMessage) (cur : CurrentTranscription)
  : CurrentTranscription :=
  mkCurrentTranscription
    (match inputTranscription message with
     | Some t => cur_user cur ++ appended t
     | None => cur_user cur
     end)
    (match outputTranscription message with
     | Some t => cur_model cur ++ appended t
     | None => cur_model cur
     end).

(** The clip that [handleAudio] schedules for a decoded buffer. *)
Definition scheduledClip (renderedFrames : N) (audioBuffer : AudioBuffer)
    (s : State) : PlaybackClip :=
  mkPlaybackClip (nodesCreated s) (currentTime renderedFrames)
    (Qmax (nextStartTimeRef s) (currentTime renderedFrames))
    (duration audioBuffer) speechRate.

(** How an event is handled: the end of a source, a message whose handler
    throws, a message without audio, or a message whose audio is handled in
    a live session. *)
Inductive Handled (s : State) : Event -> State -> Prop :=
| HandledEnded source :
    Handled s (Ended source) (onended source s)
| HandledThrown renderedFrames message :
    hasAudio message = true -> outputAudioCtxRef s = None ->
    Handled s (Message renderedFrames message) s
| HandledSilent renderedFrames message :
    hasAudio message = false ->
    Handled s (Message renderedFrames message) (afterAudio message s)
| HandledAudio renderedFrames message data :
    audioData message = Some data -> truthy data = true -> live s ->
    Handled s (Message renderedFrames message)
      (afterAudio message (handleAudio renderedFrames data s)).

End Session.

(** *** Scenarios *)

(** The component before any session. *)
Definition idle : State :=
  mkState false false [] [] None None None 0%Q [] None
    (mkCurrentTranscription [] []) 0 [].

Definition demoAcquired : Acquired := mkAcquired (Some [7]) 1 2 3.

Definition demoBrowser : Browser :=
  mkBrowser (js "3e1c8f0a-5b7d-4c2e-9a41-6d0f2b7c9e11") 1767225600000.

(** A decoder for the scenarios: a payload with a '!' in it does not
    decode, any other decodes to one second of audio (24000 frames at
    24000 Hz) for each of its code units. *)
Definition demoDecode (data : jsstring) : option AudioBuffer :=
  if includes data (js "!") then None
  else Some (mkAudioBuffer (24000 * N.of_nat (length data)) 24000).

(** The environment of the scenarios: rate 2 and the decoder above. *)
Definition demo : SessionEnv := mkSessionEnv 2 demoDecode.

Definition audioMessage (data : string) : LiveServerMessage :=
  mkLiveServerMessage (Some (js data)) false None None false.

Definition interruptionMessage : LiveServerMessage :=
  mkLiveServerMessage None true None None false.

Definition userDelta (t : string) : LiveServerMessage :=
  mkLiveServerMessage None false (Some (Some (js t))) None false.

Definition modelDelta (t : string) : LiveServerMessage :=
  mkLiveServerMessage None false None (Some (Some (js t))) false.

Definition turnCompleteMessage : LiveServerMessage :=
  mkLiveServerMessage None false None None true.

(** A session that has just opened. *)
Definition opened : State := onopen (startSession false demoAcquired demoBrowser idle).

(** Three clips at rate 2, the third after a pause: 2 seconds of audio
    handled at clock 0, 1 second handled at clock 0.5, 3 seconds handled at
    clock 10. *)
Definition threeClips : list Event :=
  [Message 0 (audioMessage "ab"); Message 12000 (audioMessage "c");
   Message 12000 (userDelta "hi"); Message 240000 (audioMessage "abc")].

(** The opened session after one clip of 2 seconds handled at clock 1, at
    rate 2: the clip is in flight and the cursor at 2. *)
Definition afterOneClip : State :=
  @run demo [Message 24000 (audioMessage "ab")] opened.

(** A message that carries a delta of the user and completes the turn. *)
Definition turnOf (t : string) : Event :=
  Message 0 (mkLiveServerMessage None false (Some (Some (js t))) None true).

(** Twenty-one turns: "first", then twenty times "later". *)
Definition twentyOneTurns : list Event := turnOf "first" :: repeat (turnOf "later") 20.

(** The opened session after the deltas "Hello" of the user and "Bonjour"
    of the model. *)
Definition afterHelloBonjour : State :=
  @run demo
    [Message 0 (userDelta "Hello"); Message 0 (modelDelta "Bonjour")] opened.

(** *** Facts *)

Section SessionFacts.

Context {env : SessionEnv}.

(** *** What each part of the handler changes *)

Lemma emitted_app (s s' : State) (es : list Effect) :
  trace s' = trace s ++ es -> emitted s s' = es.
Proof.
  intros H. unfold emitted. rewrite H, skipn_app, Nat.sub_diag, skipn_all.
  reflexivity.
Qed.

Lemma clips_app (es es' : list Effect) : clips (es ++ es') = clips es ++ clips es'.
Proof.
  induction es as [|e es IH]; [reflexivity|].
  destruct e; simpl; rewrite IH; reflexivity.
Qed.

Lemma committed_app (es es' : list Effect) :
  committed (es ++ es') = committed es ++ committed es'.
Proof.
  induction es as [|e es IH]; [reflexivity|].
  destruct e; simpl; rewrite IH; reflexivity.
Qed.

Lemma clips_stops (l : list AudioBufferSourceNode) : clips (List.map SourceStop l) = [].
Proof. induction l as [|x l IH]; [reflexivity | exact IH]. Qed.

Lemma committed_stops (l : list AudioBufferSourceNode) :
  committed (List.map SourceStop l) = [].
Proof. induction l as [|x l IH]; [reflexivity | exact IH]. Qed.

Lemma clips_turns (l : list Turn) : clips (List.map TurnCommitted l) = [].
Proof. induction l as [|x l IH]; [reflexivity | exact IH]. Qed.

Lemma committed_turns (l : list Turn) : committed (List.map TurnCommitted l) = l.
Proof. induction l as [|x l IH]; [reflexivity | simpl; now rewrite IH]. Qed.

Lemma handleTranscription_eq (message : LiveServerMessage) (s : State) :
  handleTranscription message s
  = match inputTranscription message, outputTranscription message with
    | None, None => s
    | _, _ =>
        set_currentTranscriptionRef (accumulated message (currentTranscriptionRef s)) s
    end.
Proof.
  unfold handleTranscription, accumulated.
  destruct (inputTranscription message), (outputTranscription message); reflexivity.
Qed.

Lemma handleTranscription_cur (message : LiveServerMessage) (s : State) :
  currentTranscriptionRef (handleTranscription message s)
  = accumulated message (currentTranscriptionRef s).
Proof.
  rewrite handleTranscription_eq. unfold accumulated.
  destruct (inputTranscription message), (outputTranscription message);
    try reflexivity.
  destruct (currentTranscriptionRef s); reflexivity.
Qed.

Lemma handleTurnComplete_eq (s : State) :
  handleTurnComplete s
  = set_currentTranscriptionRef (mkCurrentTranscription [] [])
      (match flushedTurns (currentTranscriptionRef s) with
       | [] => s
       | added =>
           emit (List.map TurnCommitted added)
             (set_transcriptions (slice_last 20 (transcriptions s ++ added)) s)
       end).
Proof.
  unfold handleTurnComplete, flushedTurns. cbn [filter text].
  destruct (truthy (trim (cur_user (currentTranscriptionRef s))));
    destruct (truthy (trim (cur_model (currentTranscriptionRef s))));
    reflexivity.
Qed.

Lemma flushedTurns_length (cur : CurrentTranscription) : length (flushedTurns cur) <= 2.
Proof.
  unfold flushedTurns. cbn [filter text].
  destruct (truthy (trim (cur_user cur))), (truthy (trim (cur_model cur)));
    simpl; lia.
Qed.

Ltac by_cases_transcription message :=
  unfold handleTranscription;
  destruct (inputTranscription message), (outputTranscription message);
  reflexivity.

Lemma handleTranscription_trace (message : LiveServerMessage) (s : State) :
  trace (handleTranscription message s) = trace s.
Proof. by_cases_transcription message. Qed.

Lemma handleTranscription_cursor (message : LiveServerMessage) (s : State) :
  nextStartTimeRef (handleTranscription message s) = nextStartTimeRef s.
Proof. by_cases_transcription message. Qed.

Lemma handleTranscription_sources (message : LiveServerMessage) (s : State) :
  sourcesRef (handleTranscription message s) = sourcesRef s.
Proof. by_cases_transcription message. Qed.

Lemma handleTranscription_transcriptions (message : LiveServerMessage) (s : State) :
  transcriptions (handleTranscription message s) = transcriptions s.
Proof. by_cases_transcription message. Qed.

Lemma handleTranscription_outputCtx (message : LiveServerMessage) (s : State) :
  outputAudioCtxRef (handleTranscription message s) = outputAudioCtxRef s.
Proof. by_cases_transcription message. Qed.

Lemma handleTranscription_history (message : LiveServerMessage) (s : State) :
  history (handleTranscription message s) = history s.
Proof. by_cases_transcription message. Qed.

Ltac by_cases_flush s :=
  rewrite handleTurnComplete_eq;
  destruct (flushedTurns (currentTranscriptionRef s)); reflexivity.

Lemma handleTurnComplete_trace (s : State) :
  trace (handleTurnComplete s)
  = trace s ++ List.map TurnCommitted (flushedTurns (currentTranscriptionRef s)).
Proof.
  rewrite handleTurnComplete_eq.
  destruct (flushedTurns (currentTranscriptionRef s));
    [simpl; now rewrite app_nil_r | reflexivity].
Qed.

Lemma handleTurnComplete_transcriptions (s : State) :
  transcriptions (handleTurnComplete s)
  = match flushedTurns (currentTranscriptionRef s) with
    | [] => transcriptions s
    | added => slice_last 20 (transcriptions s ++ added)
    end.
Proof. by_cases_flush s. Qed.

Lemma handleTurnComplete_cur (s : State) :
  currentTranscriptionRef (handleTurnComplete s) = mkCurrentTranscription [] [].
Proof. by_cases_flush s. Qed.

Lemma handleTurnComplete_cursor (s : State) :
  nextStartTimeRef (handleTurnComplete s) = nextStartTimeRef s.
Proof. by_cases_flush s. Qed.

Lemma handleTurnComplete_sources (s : State) :
  sourcesRef (handleTurnComplete s) = sourcesRef s.
Proof. by_cases_flush s. Qed.

Lemma handleTurnComplete_outputCtx (s : State) :
  outputAudioCtxRef (handleTurnComplete s) = outputAudioCtxRef s.
Proof. by_cases_flush s. Qed.

Lemma handleTurnComplete_history (s : State) :
  history (handleTurnComplete s) = history s.
Proof. by_cases_flush s. Qed.

Lemma onmessage_silent (renderedFrames : N) (message : LiveServerMessage) (s : State) :
  hasAudio message = false ->
  onmessage renderedFrames message s = Some (afterAudio message s).
Proof.
  unfold hasAudio, onmessage, afterAudio. intros H.
  destruct (audioData message) as [data|]; [rewrite H|]; reflexivity.
Qed.

Lemma onmessage_audio (renderedFrames : N) (message : LiveServerMessage)
    (data : jsstring) (s : State) :
  audioData message = Some data -> truthy data = true -> live s ->
  onmessage renderedFrames message s
  = Some (afterAudio message (handleAudio renderedFrames data s)).
Proof.
  unfold onmessage, afterAudio, live. intros -> -> Hlive.
  destruct (outputAudioCtxRef s); [reflexivity | now elim Hlive].
Qed.

Lemma onmessage_throws (renderedFrames : N) (message : LiveServerMessage) (s : State) :
  hasAudio message = true -> outputAudioCtxRef s = None ->
  onmessage renderedFrames message s = None.
Proof.
  unfold hasAudio, onmessage. intros H ->.
  destruct (audioData message) as [data|]; [rewrite H; reflexivity | discriminate H].
Qed.

(** In a live session the handler returns. *)
Lemma onmessage_returns (renderedFrames : N) (message : LiveServerMessage) (s : State) :
  live s -> exists s', onmessage renderedFrames message s = Some s'.
Proof.
  intros Hlive. destruct (hasAudio message) eqn:Ha.
  - unfold hasAudio in Ha. destruct (audioData message) as [data|] eqn:Hd;
      [|discriminate Ha].
    eexists. now apply onmessage_audio with (data := data).
  - eexists. now apply onmessage_silent.
Qed.

Lemma afterAudio_trace (message : LiveServerMessage) (s : State) :
  trace (afterAudio message s)
  = trace s
    ++ (if interrupted message then List.map SourceStop (sourcesRef s) else [])
    ++ (if turnComplete message
        then List.map TurnCommitted
               (flushedTurns (accumulated message (currentTranscriptionRef s)))
        else []).
Proof.
  unfold afterAudio.
  destruct (turnComplete message).
  - rewrite handleTurnComplete_trace, handleTranscription_trace,
      handleTranscription_cur.
    destruct (interrupted message); simpl; now rewrite <- ?app_assoc.
  - rewrite handleTranscription_trace.
    destruct (interrupted message); simpl; now rewrite ?app_nil_r.
Qed.

Lemma afterAudio_cursor (message : LiveServerMessage) (s : State) :
  nextStartTimeRef (afterAudio message s)
  = if interrupted message then 0%Q else nextStartTimeRef s.
Proof.
  unfold afterAudio.
  destruct (turnComplete message);
    rewrite ?handleTurnComplete_cursor, handleTranscription_cursor;
    destruct (interrupted message); reflexivity.
Qed.

Lemma afterAudio_sources (message : LiveServerMessage) (s : State) :
  sourcesRef (afterAudio message s)
  = if interrupted message then [] else sourcesRef s.
Proof.
  unfold afterAudio.
  destruct (turnComplete message);
    rewrite ?handleTurnComplete_sources, handleTranscription_sources;
    destruct (interrupted message); reflexivity.
Qed.

Lemma afterAudio_outputCtx (message : LiveServerMessage) (s : State) :
  outputAudioCtxRef (afterAudio message s) = outputAudioCtxRef s.
Proof.
  unfold afterAudio.
  destruct (turnComplete message);
    rewrite ?handleTurnComplete_outputCtx, handleTranscription_outputCtx;
    destruct (interrupted message); reflexivity.
Qed.

Lemma afterAudio_history (message : LiveServerMessage) (s : State) :
  history (afterAudio message s) = history s.
Proof.
  unfold afterAudio.
  destruct (turnComplete message);
    rewrite ?handleTurnComplete_history, handleTranscription_history;
    destruct (interrupted message); reflexivity.
Qed.

Lemma afterAudio_transcriptions (message : LiveServerMessage) (s : State) :
  transcriptions (afterAudio message s)
  = if turnComplete message then
      match flushedTurns (accumulated message (currentTranscriptionRef s)) with
      | [] => transcriptions s
      | added => slice_last 20 (transcriptions s ++ added)
      end
    else transcriptions s.
Proof.
  unfold afterAudio.
  destruct (turnComplete message).
  - rewrite handleTurnComplete_transcriptions, handleTranscription_cur,
      handleTranscription_transcriptions.
    destruct (interrupted message); reflexivity.
  - rewrite handleTranscription_transcriptions.
    destruct (interrupted message); reflexivity.
Qed.

Lemma afterAudio_cur (message : LiveServerMessage) (s : State) :
  currentTranscriptionRef (afterAudio message s)
  = if turnComplete message then mkCurrentTranscription [] []
    else accumulated message (currentTranscriptionRef s).
Proof.
  unfold afterAudio.
  destruct (turnComplete message).
  - now rewrite handleTurnComplete_cur.
  - rewrite handleTranscription_cur. destruct (interrupted message); reflexivity.
Qed.

Lemma handleAudio_decoded (renderedFrames : N) (data : jsstring)
    (audioBuffer : AudioBuffer) (s : State) :
  decodeAudioData data = Some audioBuffer ->
  let clip := scheduledClip renderedFrames audioBuffer s in
  let s' := handleAudio renderedFrames data s in
  trace s' = trace s ++ [SourceStart clip] /\
  nextStartTimeRef s' = (startAt clip + occupancy clip)%Q /\
  sourcesRef s' = set_add (nodesCreated s) (sourcesRef s) /\
  currentTranscriptionRef s' = currentTranscriptionRef s /\
  transcriptions s' = transcriptions s /\
  outputAudioCtxRef s' = outputAudioCtxRef s /\
  history s' = history s.
Proof.
  intros H. unfold handleAudio. rewrite H. simpl. repeat split.
Qed.

Lemma handleAudio_failed (renderedFrames : N) (data : jsstring) (s : State) :
  decodeAudioData data = None ->
  let s' := handleAudio renderedFrames data s in
  trace s' = trace s ++ [ConsoleError "Audio decoding error:"] /\
  nextStartTimeRef s' = Qmax (nextStartTimeRef s) (currentTime renderedFrames) /\
  sourcesRef s' = sourcesRef s /\
  currentTranscriptionRef s' = currentTranscriptionRef s /\
  transcriptions s' = transcriptions s /\
  outputAudioCtxRef s' = outputAudioCtxRef s /\
  history s' = history s.
Proof.
  intros H. unfold handleAudio. rewrite H. simpl. repeat split.
Qed.

(** *** One event *)

Lemma duration_nonneg (b : AudioBuffer) : (0 <= duration b)%Q.
Proof. unfold duration, Qle. simpl. lia. Qed.

Lemma currentTime_nonneg (renderedFrames : N) : (0 <= currentTime renderedFrames)%Q.
Proof. unfold currentTime, Qle. simpl. lia. Qed.

Lemma occupancy_nonneg (clip : PlaybackClip) :
  (0 <= bufferDuration clip)%Q -> (0 < playbackRate clip)%Q ->
  (0 <= occupancy clip)%Q.
Proof.
  intros Hd Hr. unfold occupancy. apply Qle_shift_div_l; [exact Hr|].
  now rewrite Qmult_0_l.
Qed.

Lemma handle_cases (ev : Event) (s : State) : Handled s ev (handle ev s).
Proof.
  destruct ev as [renderedFrames message | source]; [|constructor].
  unfold handle.
  destruct (hasAudio message) eqn:Ha.
  - destruct (outputAudioCtxRef s) as [ctx|] eqn:Hctx.
    + unfold hasAudio in Ha.
      destruct (audioData message) as [data|] eqn:Hd; [|discriminate Ha].
      assert (Hlive : live s) by (unfold live; congruence).
      rewrite (onmessage_audio renderedFrames message data s Hd Ha Hlive).
      now apply HandledAudio.
    + rewrite (onmessage_throws renderedFrames message s Ha Hctx).
      now apply HandledThrown.
  - rewrite (onmessage_silent renderedFrames message s Ha).
    now apply HandledSilent.
Qed.

Lemma handle_outputCtx (ev : Event) (s : State) :
  outputAudioCtxRef (handle ev s) = outputAudioCtxRef s.
Proof.
  destruct (handle_cases ev s) as [source | f m Ha Hctx | f m Ha | f m data Hd Ht Hl];
    try reflexivity.
  - apply afterAudio_outputCtx.
  - rewrite afterAudio_outputCtx. unfold handleAudio.
    destruct (decodeAudioData data); reflexivity.
Qed.

Lemma handle_history (ev : Event) (s : State) : history (handle ev s) = history s.
Proof.
  destruct (handle_cases ev s) as [source | f m Ha Hctx | f m Ha | f m data Hd Ht Hl];
    try reflexivity.
  - apply afterAudio_history.
  - rewrite afterAudio_history. unfold handleAudio.
    destruct (decodeAudioData data); reflexivity.
Qed.

Lemma handle_live (ev : Event) (s : State) : live s -> live (handle ev s).
Proof. unfold live. now rewrite handle_outputCtx. Qed.

(** The effects of one event, with what they say of the clips, of the
    cursor and of the transcript. *)
Lemma handle_trace (ev : Event) (s : State) :
  exists es, trace (handle ev s) = trace s ++ es.
Proof.
  destruct (handle_cases ev s) as [source | f m Ha Hctx | f m Ha | f m data Hd Ht Hl].
  - exists []. simpl. now rewrite app_nil_r.
  - exists []. now rewrite app_nil_r.
  - rewrite afterAudio_trace. eexists. reflexivity.
  - rewrite afterAudio_trace. unfold handleAudio.
    destruct (decodeAudioData data); simpl; rewrite <- app_assoc;
      eexists; reflexivity.
Qed.

Lemma handle_emitted (ev : Event) (s : State) :
  trace (handle ev s) = trace s ++ emitted s (handle ev s).
Proof.
  destruct (handle_trace ev s) as [es H].
  now rewrite (emitted_app _ _ _ H).
Qed.

Lemma clips_afterAudio (message : LiveServerMessage) (s : State) :
  clips (emitted s (afterAudio message s)) = [].
Proof.
  rewrite (emitted_app _ _ _ (afterAudio_trace message s)).
  rewrite clips_app.
  destruct (interrupted message), (turnComplete message);
    now rewrite ?clips_stops, ?clips_turns.
Qed.

Lemma emitted_trans (s s' s'' : State) (es es' : list Effect) :
  trace s' = trace s ++ es -> trace s'' = trace s' ++ es' ->
  emitted s s'' = es ++ es'.
Proof.
  intros H H'. apply emitted_app. now rewrite H', H, app_assoc.
Qed.

Lemma handle_schedules (ev : Event) (s : State) :
  let s' := handle ev s in
  (clips (emitted s s') = [] /\
   (uninterrupted ev = true -> (nextStartTimeRef s <= nextStartTimeRef s')%Q))
  \/
  (exists clip,
     clips (emitted s s') = [clip] /\
     playbackRate clip = speechRate /\
     (0 <= bufferDuration clip)%Q /\
     (nextStartTimeRef s <= startAt clip)%Q /\
     (clockRead clip <= startAt clip)%Q /\
     (uninterrupted ev = true ->
      nextStartTimeRef s' = (startAt clip + occupancy clip)%Q)).
Proof.
  cbv zeta.
  destruct (handle_cases ev s) as [source | f m Ha Hctx | f m Ha | f m data Hd Ht Hl].
  - left. split; [|intros _; apply Qle_refl].
    unfold emitted. simpl. now rewrite skipn_all.
  - left. split; [|intros _; apply Qle_refl].
    unfold emitted. now rewrite skipn_all.
  - left. split; [apply clips_afterAudio|].
    simpl. intros Hi. rewrite afterAudio_cursor.
    destruct (interrupted m); [discriminate Hi | apply Qle_refl].
  - destruct (decodeAudioData data) as [audioBuffer|] eqn:Hdec.
    + right. exists (scheduledClip f audioBuffer s).
      destruct (handleAudio_decoded f data audioBuffer s Hdec)
        as (Htr & Hcur & _).
      repeat split.
      * rewrite (emitted_trans _ _ _ _ _ Htr (afterAudio_trace m _)).
        rewrite !clips_app. simpl.
        destruct (interrupted m), (turnComplete m);
          now rewrite ?clips_stops, ?clips_turns.
      * apply duration_nonneg.
      * apply Q.le_max_l.
      * apply Q.le_max_r.
      * simpl. intros Hi. rewrite afterAudio_cursor.
        destruct (interrupted m); [discriminate Hi | exact Hcur].
    + left.
      destruct (handleAudio_failed f data s Hdec) as (Htr & Hcur & _).
      split.
      * rewrite (emitted_trans _ _ _ _ _ Htr (afterAudio_trace m _)).
        rewrite !clips_app. simpl.
        destruct (interrupted m), (turnComplete m);
          now rewrite ?clips_stops, ?clips_turns.
      * simpl. intros Hi. rewrite afterAudio_cursor.
        destruct (interrupted m); [discriminate Hi|].
        rewrite Hcur. apply Q.le_max_l.
Qed.

(** *** Runs of events *)

Lemma run_cons (ev : Event) (evs : list Event) (s : State) :
  run (ev :: evs) s = run evs (handle ev s).
Proof. reflexivity. Qed.

Lemma run_app (evs evs' : list Event) (s : State) :
  run (evs ++ evs') s = run evs' (run evs s).
Proof. unfold run. apply fold_left_app. Qed.

Lemma emitted_refl (s : State) : emitted s s = [].
Proof. unfold emitted. apply skipn_all. Qed.

Lemma run_emitted (evs : list Event) (s : State) :
  trace (run evs s) = trace s ++ emitted s (run evs s).
Proof.
  revert s. induction evs as [|ev evs IH]; intros s.
  - simpl. now rewrite emitted_refl, app_nil_r.
  - rewrite run_cons.
    rewrite (emitted_trans _ _ _ _ _ (handle_emitted ev s) (IH (handle ev s))).
    now rewrite IH, (handle_emitted ev s) at 1; rewrite <- app_assoc.
Qed.

Lemma emitted_run_cons (ev : Event) (evs : list Event) (s : State) :
  emitted s (run (ev :: evs) s)
  = emitted s (handle ev s) ++ emitted (handle ev s) (run evs (handle ev s)).
Proof.
  rewrite run_cons.
  exact (emitted_trans _ _ _ _ _ (handle_emitted ev s) (run_emitted evs (handle ev s))).
Qed.

Lemma run_outputCtx (evs : list Event) (s : State) :
  outputAudioCtxRef (run evs s) = outputAudioCtxRef s.
Proof.
  revert s. induction evs as [|ev evs IH]; intros s; [reflexivity|].
  rewrite run_cons, IH. apply handle_outputCtx.
Qed.

Lemma run_history (evs : list Event) (s : State) : history (run evs s) = history s.
Proof.
  revert s. induction evs as [|ev evs IH]; intros s; [reflexivity|].
  rewrite run_cons, IH. apply handle_history.
Qed.

Lemma run_live (evs : list Event) (s : State) : live s -> live (run evs s).
Proof. unfold live. now rewrite run_outputCtx. Qed.

Lemma scheduled_from_weaken (bound bound' : Q) (cl : list PlaybackClip) :
  (bound' <= bound)%Q -> scheduled_from bound cl -> scheduled_from bound' cl.
Proof.
  destruct cl as [|c rest]; [trivial|].
  intros Hle (Hb & Hc & Hrest). repeat split; try assumption.
  now apply Qle_trans with bound.
Qed.

Lemma scheduled_from_back_to_back (bound : Q) (cl : list PlaybackClip) :
  scheduled_from bound cl -> back_to_back cl.
Proof.
  revert bound. induction cl as [|c rest IH]; intros bound H i a b Ha Hb.
  - destruct i; discriminate Ha.
  - destruct H as (_ & _ & Hrest). destruct i as [|i].
    + injection Ha as <-. destruct rest as [|c' rest']; [discriminate Hb|].
      injection Hb as <-. destruct Hrest as (H1 & H2 & _). now split.
    + exact (IH _ Hrest i a b Ha Hb).
Qed.

Lemma run_scheduled (evs : list Event) (s : State) :
  forallb uninterrupted evs = true ->
  scheduled_from (nextStartTimeRef s) (clips (emitted s (run evs s))).
Proof.
  revert s. induction evs as [|ev evs IH]; intros s Hun.
  - simpl. now rewrite emitted_refl.
  - simpl in Hun. apply andb_true_iff in Hun as [Hev Hevs].
    rewrite emitted_run_cons, clips_app.
    specialize (IH (handle ev s) Hevs).
    destruct (handle_schedules ev s)
      as [[Hnone Hle] | (clip & Hone & _ & _ & Hb & Hc & Hcur)].
    + rewrite Hnone. simpl.
      exact (scheduled_from_weaken _ _ _ (Hle Hev) IH).
    + rewrite Hone. simpl. repeat split; try assumption.
      now rewrite <- (Hcur Hev).
Qed.

Lemma run_rates (evs : list Event) (s : State) (clip : PlaybackClip) :
  In clip (clips (emitted s (run evs s))) -> playbackRate clip = speechRate.
Proof.
  revert s. induction evs as [|ev evs IH]; intros s.
  - simpl. now rewrite emitted_refl.
  - rewrite emitted_run_cons, clips_app, in_app_iff. intros [H | H].
    + destruct (handle_schedules ev s) as [[Hnone _] | (c & Hone & Hrate & _)].
      * rewrite Hnone in H. destruct H.
      * rewrite Hone in H. destruct H as [<- | []]. exact Hrate.
    + exact (IH _ H).
Qed.

(** C1. Over any run of events of the session's handlers with no
    interruption among them, each call of [source.start] is given a start
    time that is at least the start time of the call before it plus that
    clip's decoded duration over the speech rate, and at least the
    [currentTime] of the output context that its handler read. *)
Theorem no_overlap (evs : list Event) (s : State) :
  ~ (speechRate == 0)%Q ->
  forallb uninterrupted evs = true ->
  let started := clips (emitted s (run evs s)) in
  forall i a b,
    nth_error started i = Some a -> nth_error started (S i) = Some b ->
    (startAt a + bufferDuration a / speechRate <= startAt b)%Q /\
    (clockRead b <= startAt b)%Q.
Proof.
  intros _ Hun started i a b Ha Hb.
  assert (Hrate : playbackRate a = speechRate)
    by (apply (run_rates evs s); exact (nth_error_In _ _ Ha)).
  rewrite <- Hrate.
  exact (scheduled_from_back_to_back _ _ (run_scheduled evs s Hun) i a b Ha Hb).
Qed.

(** C2, as the code has it. For a positive speech rate the cursor
    [nextStartTimeRef] never decreases over an event that is not an
    interruption; an interruption handled in a live session resets it to 0,
    whatever the output clock reads; and the value passed to [source.start]
    is the cursor clamped to the clock: at least the previous cursor and at
    least the [currentTime] the handler read. *)
Theorem cursor_monotone_reset_zero (ev : Event) (s : State) :
  (0 < speechRate)%Q -> live s ->
  let s' := handle ev s in
  (uninterrupted ev = true -> (nextStartTimeRef s <= nextStartTimeRef s')%Q) /\
  (uninterrupted ev = false -> nextStartTimeRef s' = 0%Q) /\
  (forall clip, In clip (clips (emitted s s')) ->
     (startAt clip == Qmax (nextStartTimeRef s) (clockRead clip))%Q /\
     (nextStartTimeRef s <= startAt clip)%Q /\
     (clockRead clip <= startAt clip)%Q).
Proof.
  intros Hrate Hlive s'. subst s'. repeat split.
  - intros Hun.
    destruct (handle_schedules ev s)
      as [[_ Hle] | (clip & _ & Hr & Hd & Hb & _ & Hcur)]; [exact (Hle Hun)|].
    rewrite (Hcur Hun).
    apply Qle_trans with (startAt clip); [exact Hb|].
    rewrite <- (Qplus_0_r (startAt clip)) at 1.
    apply Qplus_le_r. apply occupancy_nonneg; [exact Hd | now rewrite Hr].
  - intros Hint.
    destruct (handle_cases ev s) as [source | f m Ha Hctx | f m Ha | f m data Hd Ht Hl];
      simpl in Hint; try discriminate Hint.
    + now elim Hlive.
    + rewrite afterAudio_cursor. destruct (interrupted m); [reflexivity | discriminate Hint].
    + rewrite afterAudio_cursor. destruct (interrupted m); [reflexivity | discriminate Hint].
  - destruct (handle_cases ev s) as [source | f m Ha Hctx | f m Ha | f m data Hd Ht Hl].
    + unfold emitted in H. simpl in H. rewrite skipn_all in H. destruct H.
    + rewrite emitted_refl in H. destruct H.
    + rewrite clips_afterAudio in H. destruct H.
    + destruct (decodeAudioData data) as [audioBuffer|] eqn:Hdec.
      * destruct (handleAudio_decoded f data audioBuffer s Hdec) as (Htr & _).
        rewrite (emitted_trans _ _ _ _ _ Htr (afterAudio_trace m _)) in H.
        rewrite !clips_app in H. simpl in H.
        destruct (interrupted m), (turnComplete m);
          rewrite ?clips_stops, ?clips_turns in H;
          destruct H as [<- | []]; apply Qeq_refl.
      * destruct (handleAudio_failed f data s Hdec) as (Htr & _).
        rewrite (emitted_trans _ _ _ _ _ Htr (afterAudio_trace m _)) in H.
        rewrite !clips_app in H. simpl in H.
        destruct (interrupted m), (turnComplete m);
          rewrite ?clips_stops, ?clips_turns in H; destruct H.
  - destruct (handle_schedules ev s)
      as [[Hnone _] | (c & Hone & _ & _ & Hb & _)];
      [rewrite Hnone in H; destruct H | rewrite Hone in H].
    destruct H as [<- | []]. exact Hb.
  - destruct (handle_schedules ev s)
      as [[Hnone _] | (c & Hone & _ & _ & _ & Hc & _)];
      [rewrite Hnone in H; destruct H | rewrite Hone in H].
    destruct H as [<- | []]. exact Hc.
Qed.

Lemma handle_silent_cursor (ev : Event) (s : State) :
  silent ev = true -> nextStartTimeRef s = 0%Q ->
  nextStartTimeRef (handle ev s) = 0%Q.
Proof.
  intros Hs H0.
  destruct (handle_cases ev s) as [source | f m Ha Hctx | f m Ha | f m data Hd Ht Hl];
    try exact H0.
  - rewrite afterAudio_cursor. now destruct (interrupted m).
  - simpl in Hs. unfold hasAudio in Hs. rewrite Hd, Ht in Hs. discriminate Hs.
Qed.

Lemma run_silent_cursor (evs : list Event) (s : State) :
  forallb silent evs = true -> nextStartTimeRef s = 0%Q ->
  nextStartTimeRef (run evs s) = 0%Q.
Proof.
  revert s. induction evs as [|ev evs IH]; intros s Hs H0; [exact H0|].
  simpl in Hs. apply andb_true_iff in Hs as [Hev Hevs].
  rewrite run_cons. apply IH; [exact Hevs|].
  now apply handle_silent_cursor.
Qed.

Lemma clips_handle_audio (renderedFrames : N) (message : LiveServerMessage)
    (data : jsstring) (audioBuffer : AudioBuffer) (s : State) :
  live s -> audioData message = Some data -> truthy data = true ->
  decodeAudioData data = Some audioBuffer ->
  clips (emitted s (handle (Message renderedFrames message) s))
  = [scheduledClip renderedFrames audioBuffer s].
Proof.
  intros Hlive Hd Ht Hdec. unfold handle.
  rewrite (onmessage_audio renderedFrames message data s Hd Ht Hlive).
  destruct (handleAudio_decoded renderedFrames data audioBuffer s Hdec) as (Htr & _).
  rewrite (emitted_trans _ _ _ _ _ Htr (afterAudio_trace message _)).
  rewrite !clips_app. simpl.
  destruct (interrupted message), (turnComplete message);
    now rewrite ?clips_stops, ?clips_turns.
Qed.

Lemma handle_interrupted (ev : Event) (s : State) :
  live s -> uninterrupted ev = false ->
  sourcesRef (handle ev s) = [] /\ nextStartTimeRef (handle ev s) = 0%Q.
Proof.
  intros Hlive Hint.
  destruct (handle_cases ev s) as [source | f m Ha Hctx | f m Ha | f m data Hd Ht Hl];
    simpl in Hint.
  - discriminate Hint.
  - now elim Hlive.
  - rewrite afterAudio_sources, afterAudio_cursor.
    destruct (interrupted m); [now split | discriminate Hint].
  - rewrite afterAudio_sources, afterAudio_cursor.
    destruct (interrupted m); [now split | discriminate Hint].
Qed.

(** C3. Once a live session has handled an interruption message, the set
    of in-flight source nodes is empty; and the next message with audio,
    whatever events without audio come in between, has its clip started at
    the [currentTime] the output clock shows when it is handled. *)
Theorem interruption_reset (renderedFrames : N) (message : LiveServerMessage)
    (between : list Event) (renderedFrames' : N) (message' : LiveServerMessage)
    (data : jsstring) (audioBuffer : AudioBuffer) (s : State) :
  live s ->
  interrupted message = true ->
  forallb silent between = true ->
  audioData message' = Some data -> truthy data = true ->
  decodeAudioData data = Some audioBuffer ->
  let s1 := handle (Message renderedFrames message) s in
  let s2 := run between s1 in
  let s3 := handle (Message renderedFrames' message') s2 in
  sourcesRef s1 = [] /\
  exists clip,
    clips (emitted s2 s3) = [clip] /\
    (startAt clip == currentTime renderedFrames')%Q.
Proof.
  intros Hlive Hint Hsil Hd Ht Hdec s1 s2 s3.
  assert (H1 : sourcesRef s1 = [] /\ nextStartTimeRef s1 = 0%Q).
  { subst s1. apply handle_interrupted; [exact Hlive|]. simpl. now rewrite Hint. }
  destruct H1 as [Hsrc Hcur]. split; [exact Hsrc|].
  assert (Hlive2 : live s2) by (apply run_live, handle_live, Hlive).
  assert (Hcur2 : nextStartTimeRef s2 = 0%Q) by now apply run_silent_cursor.
  exists (scheduledClip renderedFrames' audioBuffer s2). split.
  - now apply clips_handle_audio with (data := data).
  - simpl. rewrite Hcur2. apply Q.max_r. apply currentTime_nonneg.
Qed.

(** C4, as the code has it. A message handled in a live session whose
    audio decodes has its clip played at the speech rate; the handler first
    raises the cursor to the output clock when it is behind, starts the
    clip there, and leaves the cursor at the clip's start time plus exactly
    the decoded duration over the speech rate. So the cursor moves by that
    amount if and only if it was not behind the clock, and by more
    otherwise. A clip of 2 seconds at rate 2 leaves it 1 second after the
    clip's start. *)
Theorem rate_adjusted_advance (renderedFrames : N) (message : LiveServerMessage)
    (data : jsstring) (audioBuffer : AudioBuffer) (s : State) :
  ~ (speechRate == 0)%Q ->
  live s ->
  audioData message = Some data -> truthy data = true ->
  decodeAudioData data = Some audioBuffer ->
  interrupted message = false ->
  let s' := handle (Message renderedFrames message) s in
  exists clip,
    clips (emitted s s') = [clip] /\
    bufferDuration clip = duration audioBuffer /\
    playbackRate clip = speechRate /\
    startAt clip = Qmax (nextStartTimeRef s) (currentTime renderedFrames) /\
    (nextStartTimeRef s' == startAt clip + duration audioBuffer / speechRate)%Q /\
    (nextStartTimeRef s' - startAt clip == duration audioBuffer / speechRate)%Q /\
    ((nextStartTimeRef s' - nextStartTimeRef s == duration audioBuffer / speechRate)%Q
     <-> (currentTime renderedFrames <= nextStartTimeRef s)%Q) /\
    ((duration audioBuffer == 2)%Q -> (speechRate == 2)%Q ->
     (nextStartTimeRef s' - startAt clip == 1)%Q).
Proof.
  intros Hrate Hlive Hd Ht Hdec Hint s'.
  exists (scheduledClip renderedFrames audioBuffer s).
  assert (Hcur : nextStartTimeRef s'
                 = (Qmax (nextStartTimeRef s) (currentTime renderedFrames)
                    + duration audioBuffer / speechRate)%Q).
  { subst s'. unfold handle.
    rewrite (onmessage_audio renderedFrames message data s Hd Ht Hlive).
    rewrite afterAudio_cursor, Hint.
    now destruct (handleAudio_decoded renderedFrames data audioBuffer s Hdec)
      as (_ & -> & _). }
  split; [now apply clips_handle_audio with (data := data)|].
  split; [reflexivity|]. split; [reflexivity|]. split; [reflexivity|].
  assert (Hadv : (nextStartTimeRef s'
                  - startAt (scheduledClip renderedFrames audioBuffer s)
                  == duration audioBuffer / speechRate)%Q)
    by (rewrite Hcur; simpl; ring).
  split; [rewrite Hcur; reflexivity|].
  split; [exact Hadv|]. split.
  - rewrite Hcur. split.
    + intros Heq. apply Q.max_l_iff.
      setoid_replace (Qmax (nextStartTimeRef s) (currentTime renderedFrames))
        with ((Qmax (nextStartTimeRef s) (currentTime renderedFrames)
               + duration audioBuffer / speechRate - nextStartTimeRef s)
              - duration audioBuffer / speechRate + nextStartTimeRef s)%Q
        by ring.
      rewrite Heq. ring.
    + intros Hle. rewrite (Q.max_l _ _ Hle). ring.
  - intros Hd2 Hr2. rewrite Hadv, Hd2, Hr2. reflexivity.
Qed.

Lemma currentTime_mono (n n' : N) :
  (n <= n')%N -> (currentTime n <= currentTime n')%Q.
Proof. intros H. unfold currentTime, Qle. simpl. lia. Qed.

(** C5, as the code has it. When the audio of a message handled in a live
    session fails to decode, the handler reports the error on the console
    and returns; it starts no source node and adds none to the in-flight
    set; it adds no duration to the cursor, which it has only clamped to the
    clock, to the maximum of the cursor and [currentTime], so that a clip
    scheduled at any later clock reading starts where it would have started
    without the failed message; and the session stays live and handles the
    events that follow. *)
Theorem decode_failure_dropped (renderedFrames : N) (message : LiveServerMessage)
    (data : jsstring) (s : State) :
  live s ->
  audioData message = Some data -> truthy data = true ->
  decodeAudioData data = None ->
  let s' := handle (Message renderedFrames message) s in
  onmessage renderedFrames message s = Some s' /\
  clips (emitted s s') = [] /\
  (forall source, In source (sourcesRef s') -> In source (sourcesRef s)) /\
  In (ConsoleError "Audio decoding error:") (emitted s s') /\
  (interrupted message = false ->
   nextStartTimeRef s'
   = Qmax (nextStartTimeRef s) (currentTime renderedFrames) /\
   forall renderedFrames' audioBuffer,
     (renderedFrames <= renderedFrames')%N ->
     (startAt (scheduledClip renderedFrames' audioBuffer s')
      == startAt (scheduledClip renderedFrames' audioBuffer s))%Q) /\
  live s' /\
  (forall renderedFrames' message',
     exists s'', onmessage renderedFrames' message' s' = Some s'').
Proof.
  intros Hlive Hd Ht Hdec s'.
  assert (Hs' : s' = afterAudio message (handleAudio renderedFrames data s)).
  { subst s'. unfold handle.
    now rewrite (onmessage_audio renderedFrames message data s Hd Ht Hlive). }
  destruct (handleAudio_failed renderedFrames data s Hdec)
    as (Htr & Hcur & Hsrc & _).
  assert (Hem : emitted s s'
                = [ConsoleError "Audio decoding error:"]
                  ++ (if interrupted message
                      then List.map SourceStop
                             (sourcesRef (handleAudio renderedFrames data s))
                      else [])
                  ++ (if turnComplete message
                      then List.map TurnCommitted
                             (flushedTurns
                                (accumulated message
                                   (currentTranscriptionRef
                                      (handleAudio renderedFrames data s))))
                      else []))
    by (rewrite Hs'; exact (emitted_trans _ _ _ _ _ Htr (afterAudio_trace message _))).
  assert (Hlive' : live s') by (subst s'; now apply handle_live).
  repeat split.
  - rewrite Hs'. now apply onmessage_audio.
  - rewrite Hem, !clips_app. simpl.
    destruct (interrupted message), (turnComplete message);
      now rewrite ?clips_stops, ?clips_turns.
  - intros source. rewrite Hs', afterAudio_sources.
    destruct (interrupted message); [intros [] | now rewrite Hsrc].
  - rewrite Hem. now left.
  - rewrite Hs', afterAudio_cursor, H. exact Hcur.
  - intros f' audioBuffer Hle. simpl.
    rewrite Hs', afterAudio_cursor, H, Hcur.
    rewrite <- Q.max_assoc.
    rewrite (Q.max_r _ _ (currentTime_mono _ _ Hle)). reflexivity.
  - exact Hlive'.
  - intros f' m'. now apply onmessage_returns.
Qed.

(** *** The transcript *)

Lemma flushedTurns_cases (cur : CurrentTranscription) :
  let u := trim (cur_user cur) in
  let m := trim (cur_model cur) in
  (u <> [] -> m <> [] -> flushedTurns cur = [mkTurn user u; mkTurn model m]) /\
  (u <> [] -> m = [] -> flushedTurns cur = [mkTurn user u]) /\
  (u = [] -> m <> [] -> flushedTurns cur = [mkTurn model m]) /\
  (u = [] -> m = [] -> flushedTurns cur = []).
Proof.
  unfold flushedTurns. cbn [filter text].
  destruct (trim (cur_user cur)), (trim (cur_model cur)); simpl;
    repeat split; intros; congruence.
Qed.

Lemma flushedTurns_nonempty (cur : CurrentTranscription) (t : Turn) :
  In t (flushedTurns cur) -> text t <> [].
Proof.
  unfold flushedTurns. rewrite filter_In. intros [_ H] E.
  rewrite E in H. discriminate H.
Qed.

Lemma committed_afterAudio (message : LiveServerMessage) (s : State) :
  committed (emitted s (afterAudio message s))
  = if turnComplete message
    then flushedTurns (accumulated message (currentTranscriptionRef s))
    else [].
Proof.
  rewrite (emitted_app _ _ _ (afterAudio_trace message s)), !committed_app.
  destruct (interrupted message), (turnComplete message);
    rewrite ?committed_stops, ?committed_turns; simpl; now rewrite ?app_nil_r.
Qed.

Lemma committed_handle_audio (renderedFrames : N) (message : LiveServerMessage)
    (data : jsstring) (s : State) :
  committed (emitted s (afterAudio message (handleAudio renderedFrames data s)))
  = if turnComplete message
    then flushedTurns (accumulated message (currentTranscriptionRef s))
    else [].
Proof.
  destruct (decodeAudioData data) as [audioBuffer|] eqn:Hdec.
  - destruct (handleAudio_decoded renderedFrames data audioBuffer s Hdec)
      as (Htr & _ & _ & Hcur & _).
    rewrite (emitted_trans _ _ _ _ _ Htr (afterAudio_trace message _)), Hcur.
    rewrite !committed_app.
    destruct (interrupted message), (turnComplete message);
      rewrite ?committed_stops, ?committed_turns; simpl; now rewrite ?app_nil_r.
  - destruct (handleAudio_failed renderedFrames data s Hdec)
      as (Htr & _ & _ & Hcur & _).
    rewrite (emitted_trans _ _ _ _ _ Htr (afterAudio_trace message _)), Hcur.
    rewrite !committed_app.
    destruct (interrupted message), (turnComplete message);
      rewrite ?committed_stops, ?committed_turns; simpl; now rewrite ?app_nil_r.
Qed.

Lemma handleAudio_transcriptions (renderedFrames : N) (data : jsstring) (s : State) :
  transcriptions (handleAudio renderedFrames data s) = transcriptions s /\
  currentTranscriptionRef (handleAudio renderedFrames data s)
  = currentTranscriptionRef s.
Proof. unfold handleAudio. destruct (decodeAudioData data); now split. Qed.

(** What one event commits, and how the transcript follows. *)
Lemma handle_commits (ev : Event) (s : State) :
  let added := committed (emitted s (handle ev s)) in
  length added <= 2 /\
  transcriptions (handle ev s)
  = match added with
    | [] => transcriptions s
    | _ => slice_last 20 (transcriptions s ++ added)
    end.
Proof.
  cbv zeta.
  destruct (handle_cases ev s) as [source | f m Ha Hctx | f m Ha | f m data Hd Ht Hl].
  - unfold emitted. simpl. rewrite skipn_all. simpl. split; [lia | reflexivity].
  - rewrite emitted_refl. simpl. split; [lia | reflexivity].
  - rewrite committed_afterAudio, afterAudio_transcriptions.
    destruct (turnComplete m); [|simpl; split; [lia | reflexivity]].
    split; [apply flushedTurns_length | now destruct (flushedTurns _)].
  - rewrite committed_handle_audio, afterAudio_transcriptions.
    destruct (handleAudio_transcriptions f data s) as [-> ->].
    destruct (turnComplete m); [|simpl; split; [lia | reflexivity]].
    split; [apply flushedTurns_length | now destruct (flushedTurns _)].
Qed.

(** C6. A turn-complete message handled in a live session commits the
    accumulated user text and model text, each trimmed: the user turn before
    the model turn when both are non-empty, no turn for a text that is empty
    once trimmed; the turns committed are the end of the transcript, which
    is the former transcript followed by them and cut to its last 20
    entries; and both accumulators are empty afterwards. *)
Theorem turn_complete_flush (renderedFrames : N) (message : LiveServerMessage)
    (s : State) :
  live s ->
  turnComplete message = true ->
  let s' := handle (Message renderedFrames message) s in
  let cur := accumulated message (currentTranscriptionRef s) in
  let u := trim (cur_user cur) in
  let m := trim (cur_model cur) in
  let added := committed (emitted s s') in
  (u <> [] -> m <> [] -> added = [mkTurn user u; mkTurn model m]) /\
  (u <> [] -> m = [] -> added = [mkTurn user u]) /\
  (u = [] -> m <> [] -> added = [mkTurn model m]) /\
  (u = [] -> m = [] -> added = []) /\
  (forall t, In t added -> text t <> []) /\
  transcriptions s'
  = match added with
    | [] => transcriptions s
    | _ => slice_last 20 (transcriptions s ++ added)
    end /\
  (exists kept, transcriptions s' = kept ++ added) /\
  currentTranscriptionRef s' = mkCurrentTranscription [] [].
Proof.
  intros Hlive Htc s' cur u m added.
  assert (Hadded : added = flushedTurns cur /\
                   currentTranscriptionRef s' = mkCurrentTranscription [] []).
  { subst added s' cur.
    remember (Message renderedFrames message) as ev eqn:Hev.
    destruct (handle_cases ev s) as [source | f m0 Ha Hctx | f m0 Ha | f m0 data Hd Ht Hl];
      try discriminate Hev.
    - now elim Hlive.
    - injection Hev as -> ->.
      now rewrite committed_afterAudio, afterAudio_cur, Htc.
    - injection Hev as -> ->.
      now rewrite committed_handle_audio, afterAudio_cur, Htc. }
  destruct Hadded as [Hadded Hcur].
  destruct (handle_commits (Message renderedFrames message) s) as [Hlen Htr].
  fold s' in Hlen, Htr. fold added in Hlen, Htr.
  destruct (flushedTurns_cases cur) as (H1 & H2 & H3 & H4).
  fold u m in H1, H2, H3, H4.
  rewrite Hadded.
  split; [exact H1|]. split; [exact H2|]. split; [exact H3|]. split; [exact H4|].
  split; [exact (flushedTurns_nonempty cur)|].
  rewrite <- Hadded.
  split; [exact Htr|]. split; [|exact Hcur].
  rewrite Htr. destruct added as [|t added'] eqn:E.
  - exists (transcriptions s). now rewrite app_nil_r.
  - apply slice_last_app_suffix. lia.
Qed.

Lemma slice_last_slice_last {A : Type} (n : nat) (l new : list A) :
  slice_last n (slice_last n l ++ new) = slice_last n (l ++ new).
Proof.
  destruct (Nat.le_gt_cases (length l) n) as [Hle | Hgt].
  - now rewrite (slice_last_short n l Hle).
  - unfold slice_last at 1 3. rewrite !length_app.
    unfold slice_last. rewrite length_skipn.
    replace (length l - (length l - n) + length new - n) with (length new) by lia.
    replace (length l + length new - n) with (length new + (length l - n)) by lia.
    rewrite <- skipn_skipn. f_equal.
    rewrite skipn_app.
    replace (length l - n - length l) with 0 by lia. reflexivity.
Qed.

Lemma handle_transcriptions (ev : Event) (s : State) :
  length (transcriptions s) <= 20 ->
  transcriptions (handle ev s)
  = slice_last 20 (transcriptions s ++ committed (emitted s (handle ev s))).
Proof.
  intros Hlen. destruct (handle_commits ev s) as [_ H]. rewrite H.
  destruct (committed (emitted s (handle ev s))); [|reflexivity].
  rewrite app_nil_r. symmetry. now apply slice_last_short.
Qed.

Lemma run_transcriptions (evs : list Event) (s : State) :
  length (transcriptions s) <= 20 ->
  transcriptions (run evs s)
  = slice_last 20 (transcriptions s ++ committed (emitted s (run evs s))).
Proof.
  revert s. induction evs as [|ev evs IH]; intros s Hlen.
  - simpl. rewrite emitted_refl, app_nil_r. symmetry. now apply slice_last_short.
  - rewrite emitted_run_cons, committed_app, run_cons.
    rewrite IH.
    + rewrite (handle_transcriptions ev s Hlen), slice_last_slice_last.
      now rewrite app_assoc.
    + rewrite (handle_transcriptions ev s Hlen). apply slice_last_length.
Qed.

Lemma afterAudio_isActive (message : LiveServerMessage) (s : State) :
  isActive (afterAudio message s) = isActive s.
Proof.
  unfold afterAudio. rewrite handleTurnComplete_eq, handleTranscription_eq.
  destruct (turnComplete message), (interrupted message),
    (inputTranscription message), (outputTranscription message);
    try reflexivity;
    match goal with
    | |- context [flushedTurns ?c] => destruct (flushedTurns c); reflexivity
    end.
Qed.

Lemma handle_isActive (ev : Event) (s : State) : isActive (handle ev s) = isActive s.
Proof.
  destruct (handle_cases ev s) as [source | f m Ha Hctx | f m Ha | f m data Hd Ht Hl];
    try reflexivity.
  - apply afterAudio_isActive.
  - rewrite afterAudio_isActive. unfold handleAudio.
    destruct (decodeAudioData data); reflexivity.
Qed.

Lemma run_isActive (evs : list Event) (s : State) : isActive (run evs s) = isActive s.
Proof.
  revert s. induction evs as [|ev evs IH]; intros s; [reflexivity|].
  rewrite run_cons, IH. apply handle_isActive.
Qed.

(** *** Starting and stopping *)

Lemma startSession_acquired (acquired : Acquired) (browser : Browser)
    (stream : MediaStream) (s : State) :
  getUserMedia acquired = Some stream ->
  let s0 := onopen (startSession false acquired browser s) in
  isActive s0 = true /\ transcriptions s0 = [] /\ live s0 /\
  history s0 = history s.
Proof.
  intros H. unfold startSession, onopen, live. rewrite H. simpl.
  repeat split. discriminate.
Qed.

Lemma stopSession_history (active : bool) (browser : Browser) (s : State) :
  history (stopSession active browser s)
  = if active then
      match transcriptions s with
      | [] => history s
      | first :: _ =>
          slice_first 30
            (mkVoiceHistoryItem (randomUUID browser) (dateNow browser)
               (transcriptions s) (Some (summarize (text first)))
             :: history s)
      end
    else history s.
Proof.
  destruct s as [a c tr h ia oa sp cur src st ct nc t].
  destruct active, tr, st, ia, oa, sp; reflexivity.
Qed.

Lemma stopSession_released (active : bool) (browser : Browser) (s : State) :
  let s1 := stopSession active browser s in
  isActive s1 = false /\ isConnecting s1 = false /\ streamRef s1 = None /\
  audioCtxRef s1 = None /\ outputAudioCtxRef s1 = None /\
  sourcesRef s1 = [] /\ sessionPromiseRef s1 = None.
Proof.
  destruct s as [a c tr h ia oa sp cur src st ct nc t].
  destruct active, tr, st, ia, oa, sp; cbv; repeat split.
Qed.

(** On a state that holds nothing to release, [stopSession] called with the
    flag clear changes nothing. *)
Lemma stopSession_idle (browser : Browser) (s : State) :
  isActive s = false -> isConnecting s = false -> streamRef s = None ->
  audioCtxRef s = None -> outputAudioCtxRef s = None ->
  sourcesRef s = [] -> sessionPromiseRef s = None ->
  stopSession false browser s = s.
Proof.
  destruct s as [a c tr h ia oa sp cur src st ct nc t]. simpl.
  intros -> -> -> -> -> -> ->.
  unfold stopSession. simpl.
  unfold set_sourcesRef, emit, set_isConnecting, set_isActive. simpl.
  now rewrite app_nil_r.
Qed.

(** C7. After a call of [stopSession], a second call that sees the
    [isActive] flag as the first call left it (the End Session button of
    the next render, or the session's [onclose] callback) leaves the state
    as the first call left it: it has no effect on the environment, so it
    releases nothing a second time, and it adds no entry to the history. *)
Theorem stopSession_idempotent (active : bool) (browser browser' : Browser)
    (s : State) :
  let s1 := stopSession active browser s in
  let s2 := stopSession (isActive s1) browser' s1 in
  isActive s1 = false /\
  s2 = s1 /\
  emitted s1 s2 = [] /\
  history s2 = history s1 /\
  endSessionClick browser' s1 = s1 /\
  onclose browser' s1 = s1.
Proof.
  intros s1 s2.
  destruct (stopSession_released active browser s)
    as (Ha & Hc & Hst & Hia & Hoa & Hsrc & Hsp).
  fold s1 in Ha, Hc, Hst, Hia, Hoa, Hsrc, Hsp.
  assert (Hidle : stopSession false browser' s1 = s1)
    by now apply stopSession_idle.
  assert (H2 : s2 = s1) by (subst s2; now rewrite Ha).
  split; [exact Ha|]. split; [exact H2|].
  split; [rewrite H2; apply emitted_refl|].
  split; [now rewrite H2|].
  split; [unfold endSessionClick; now rewrite Ha | exact Hidle].
Qed.

Lemma In_firstn {A : Type} (n : nat) (l : list A) (x : A) :
  In x (firstn n l) -> In x l.
Proof.
  revert l. induction n as [|n IH]; intros [|y l]; simpl; try tauto.
  intros [-> | H]; [now left | right; now apply IH].
Qed.

Lemma slice_last_nonempty {A : Type} (n : nat) (l : list A) :
  0 < n -> l <> [] -> slice_last n l <> [].
Proof.
  intros Hn Hl E. apply (f_equal (@length A)) in E.
  unfold slice_last in E. rewrite length_skipn in E.
  destruct l as [|x l]; [now apply Hl|].
  change (length (x :: l)) with (S (length l)) in E.
  change (length (@nil A)) with 0 in E. lia.
Qed.

Lemma summarize_cases (firstMsg : jsstring) :
  (length firstMsg <= 60 -> summarize firstMsg = firstMsg) /\
  (60 < length firstMsg ->
   summarize firstMsg = firstn 60 firstMsg ++ js "...").
Proof.
  unfold summarize, substring0.
  destruct (Nat.ltb_spec 60 (length firstMsg)); split; intros; try reflexivity; lia.
Qed.

(** A session from its start to the End Session button: the state when
    the session opens, the state after some events, the turns committed
    meanwhile, and the state after the click. *)
Lemma session_transcript (acquired : Acquired) (browser : Browser)
    (stream : MediaStream) (evs : list Event) (s : State) :
  getUserMedia acquired = Some stream ->
  let s0 := onopen (startSession false acquired browser s) in
  let s1 := run evs s0 in
  isActive s1 = true /\ history s1 = history s /\
  transcriptions s1 = slice_last 20 (committed (emitted s0 s1)).
Proof.
  intros Hget s0 s1.
  destruct (startSession_acquired acquired browser stream s Hget)
    as (Hact & Htr & _ & Hhist).
  fold s0 in Hact, Htr, Hhist.
  split; [subst s1; now rewrite run_isActive|].
  split; [subst s1; now rewrite run_history|].
  subst s1. rewrite run_transcriptions; rewrite Htr; [reflexivity | simpl; lia].
Qed.

Lemma endSessionClick_history (browser : Browser) (s : State) :
  isActive s = true ->
  history (endSessionClick browser s)
  = match transcriptions s with
    | [] => history s
    | first :: _ =>
        slice_first 30
          (mkVoiceHistoryItem (randomUUID browser) (dateNow browser)
             (transcriptions s) (Some (summarize (text first)))
           :: history s)
    end.
Proof.
  intros Hact. unfold endSessionClick. now rewrite stopSession_history, Hact.
Qed.

End SessionFacts.

(** *** The scenarios, run *)

Example threeClips_starts :
  List.map (fun c => Qred (startAt c))
    (clips (emitted opened (@run demo threeClips opened)))
  = [0; 1; 10]%Q.
Proof. vm_compute. reflexivity. Qed.

Example hello_bonjour :
  transcriptions
    (@run demo
       [Message 0 (userDelta "Hello"); Message 0 (modelDelta "Bonjour");
        Message 0 turnCompleteMessage] opened)
  = [mkTurn user (js "Hello"); mkTurn model (js "Bonjour")].
Proof. vm_compute. reflexivity. Qed.

Example model_only :
  transcriptions
    (@run demo
       [Message 0 (modelDelta "Bon"); Message 0 (modelDelta "jour ");
        Message 0 turnCompleteMessage] opened)
  = [mkTurn model (js "Bonjour")].
Proof. vm_compute. reflexivity. Qed.

(** The scenario of the specification: the deltas "Hel" and "lo" of the
    user, a turn-complete with no model text, then the End Session
    button. *)
Example hello_session :
  let s1 := @run demo
              [Message 0 (userDelta "Hel"); Message 0 (userDelta "lo");
               Message 0 turnCompleteMessage] opened in
  transcriptions s1 = [mkTurn user (js "Hello")] /\
  history (endSessionClick demoBrowser s1)
  = [mkVoiceHistoryItem (randomUUID demoBrowser) (dateNow demoBrowser)
       [mkTurn user (js "Hello")] (Some (js "Hello"))].
Proof. vm_compute. split; reflexivity. Qed.

(** A session ended by the server: the [stopSession] of [onclose] sees
    the [isActive] of the render that started the session. *)
Example hello_session_closed :
  let s1 := @run demo
              [Message 0 (userDelta "Hello"); Message 0 turnCompleteMessage]
              opened in
  transcriptions s1 = [mkTurn user (js "Hello")] /\
  history (onclose demoBrowser s1) = [].
Proof. vm_compute. split; reflexivity. Qed.

(** The End Session button, then the [onclose] that the closing session
    fires: one entry, and the resources released once. *)
Example stop_twice :
  let s1 := @run demo
              [Message 0 (userDelta "Hello"); Message 0 turnCompleteMessage;
               Message 24000 (audioMessage "ab")] opened in
  let s2 := endSessionClick demoBrowser s1 in
  let s3 := onclose demoBrowser s2 in
  emitted s1 s2
  = [TrackStop 7; ContextClose 1; ContextClose 2; SourceStop 0; SessionClose 3] /\
  length (history s2) = 1 /\
  s3 = s2.
Proof. vm_compute. repeat split. Qed.

Example summarize_long :
  summarize (js "The quick brown fox jumps over the lazy dog and keeps on running far away")
  = js "The quick brown fox jumps over the lazy dog and keeps on run...".
Proof. vm_compute. reflexivity. Qed.

Example afterOneClip_state :
  sourcesRef afterOneClip = [0] /\ Qred (nextStartTimeRef afterOneClip) = 2%Q.
Proof. vm_compute. split; reflexivity. Qed.

Lemma no_overlap_witness :
  ~ (2 == 0)%Q /\
  forallb uninterrupted threeClips = true /\
  forall i a b,
    nth_error (clips (emitted opened (@run demo threeClips opened))) i = Some a ->
    nth_error (clips (emitted opened (@run demo threeClips opened))) (S i) = Some b ->
    (startAt a + bufferDuration a / 2 <= startAt b)%Q /\
    (clockRead b <= startAt b)%Q.
Proof.
  split; [intros H; discriminate H|]. split; [reflexivity|].
  apply (@no_overlap demo threeClips opened);
    [intros H; discriminate H | reflexivity].
Defined.

(** C2 fails as stated: an interruption handled when the output clock
    reads 2 seconds leaves the cursor at 0, not at 2. *)
Lemma interruption_resets_cursor_to_zero :
  let s' := @handle demo (Message 48000 interruptionMessage) afterOneClip in
  live afterOneClip /\
  (currentTime 48000 == 2)%Q /\
  (nextStartTimeRef s' == 0)%Q /\
  ~ (nextStartTimeRef s' == currentTime 48000)%Q.
Proof.
  vm_compute. repeat split; try discriminate; intros H; discriminate H.
Qed.

Lemma cursor_monotone_reset_zero_witness :
  (0 < 2)%Q /\ live afterOneClip /\
  let s' := @handle demo (Message 48000 interruptionMessage) afterOneClip in
  (uninterrupted (Message 48000 interruptionMessage) = true ->
   (nextStartTimeRef afterOneClip <= nextStartTimeRef s')%Q) /\
  (uninterrupted (Message 48000 interruptionMessage) = false ->
   nextStartTimeRef s' = 0%Q) /\
  (forall clip, In clip (clips (emitted afterOneClip s')) ->
     (startAt clip == Qmax (nextStartTimeRef afterOneClip) (clockRead clip))%Q /\
     (nextStartTimeRef afterOneClip <= startAt clip)%Q /\
     (clockRead clip <= startAt clip)%Q).
Proof.
  split; [reflexivity|]. split; [discriminate|].
  apply (@cursor_monotone_reset_zero demo
           (Message 48000 interruptionMessage) afterOneClip);
    [reflexivity | discriminate].
Defined.

Lemma interruption_reset_witness :
  live afterOneClip /\
  interrupted interruptionMessage = true /\
  forallb silent [Message 50000 (userDelta "wait")] = true /\
  audioData (audioMessage "c") = Some (js "c") /\
  truthy (js "c") = true /\
  demoDecode (js "c") = Some (mkAudioBuffer 24000 24000) /\
  let s1 := @handle demo (Message 48000 interruptionMessage) afterOneClip in
  let s2 := @run demo [Message 50000 (userDelta "wait")] s1 in
  let s3 := @handle demo (Message 72000 (audioMessage "c")) s2 in
  sourcesRef s1 = [] /\
  exists clip,
    clips (emitted s2 s3) = [clip] /\ (startAt clip == currentTime 72000)%Q.
Proof.
  split; [discriminate|]. do 5 (split; [reflexivity|]).
  apply (@interruption_reset demo 48000 interruptionMessage
           [Message 50000 (userDelta "wait")] 72000 (audioMessage "c") (js "c")
           (mkAudioBuffer 24000 24000) afterOneClip);
    solve [discriminate | reflexivity].
Defined.

(** Two seconds of audio at rate 2 move the cursor one second past the
    clip's start. *)
Example two_seconds_at_rate_two :
  let s' := @handle demo (Message 24000 (audioMessage "ab")) opened in
  List.map (fun c => (Qred (bufferDuration c), Qred (startAt c)))
    (clips (emitted opened s')) = [(2, 1)]%Q /\
  Qred (nextStartTimeRef s') = 2%Q.
Proof. vm_compute. split; reflexivity. Qed.

(** C4 fails as stated: a clip of 2 seconds at rate 2, handled when the
    output clock reads 1 second and the cursor is at 0, moves the cursor by
    2 seconds, not by the 1 second of its duration over the rate: the
    handler has first raised the cursor to the clock. *)
Lemma cursor_advance_includes_clamp :
  let s' := @handle demo (Message 24000 (audioMessage "ab")) opened in
  live opened /\
  demoDecode (js "ab") = Some (mkAudioBuffer 48000 24000) /\
  (duration (mkAudioBuffer 48000 24000) == 2)%Q /\
  (@speechRate demo == 2)%Q /\
  (currentTime 24000 == 1)%Q /\
  (nextStartTimeRef opened == 0)%Q /\
  (nextStartTimeRef s' - nextStartTimeRef opened == 2)%Q /\
  ~ (nextStartTimeRef s' - nextStartTimeRef opened
     == duration (mkAudioBuffer 48000 24000) / @speechRate demo)%Q.
Proof.
  vm_compute. repeat split; try discriminate; intros H; discriminate H.
Qed.

Lemma rate_adjusted_advance_witness :
  ~ (2 == 0)%Q /\ live opened /\
  audioData (audioMessage "ab") = Some (js "ab") /\
  truthy (js "ab") = true /\
  demoDecode (js "ab") = Some (mkAudioBuffer 48000 24000) /\
  interrupted (audioMessage "ab") = false /\
  let s' := @handle demo (Message 24000 (audioMessage "ab")) opened in
  exists clip,
    clips (emitted opened s') = [clip] /\
    bufferDuration clip = duration (mkAudioBuffer 48000 24000) /\
    playbackRate clip = 2%Q /\
    startAt clip = Qmax (nextStartTimeRef opened) (currentTime 24000) /\
    (nextStartTimeRef s'
     == startAt clip + duration (mkAudioBuffer 48000 24000) / 2)%Q /\
    (nextStartTimeRef s' - startAt clip == duration (mkAudioBuffer 48000 24000) / 2)%Q /\
    ((nextStartTimeRef s' - nextStartTimeRef opened
      == duration (mkAudioBuffer 48000 24000) / 2)%Q
     <-> (currentTime 24000 <= nextStartTimeRef opened)%Q) /\
    ((duration (mkAudioBuffer 48000 24000) == 2)%Q -> (2 == 2)%Q ->
     (nextStartTimeRef s' - startAt clip == 1)%Q).
Proof.
  split; [intros H; discriminate H|]. split; [discriminate|].
  do 4 (split; [reflexivity|]).
  apply (@rate_adjusted_advance demo 24000 (audioMessage "ab") (js "ab")
           (mkAudioBuffer 48000 24000) opened);
    solve [intros H; discriminate H | discriminate | reflexivity].
Defined.

(** C5 fails as stated: a payload that does not decode, handled when the
    output clock reads 1 second, moves the cursor from 0 to 1. *)
Lemma decode_failure_moves_cursor :
  let s' := @handle demo (Message 24000 (audioMessage "a!")) opened in
  live opened /\
  demoDecode (js "a!") = None /\
  clips (emitted opened s') = [] /\
  (nextStartTimeRef opened == 0)%Q /\
  (nextStartTimeRef s' == 1)%Q /\
  ~ (nextStartTimeRef s' == nextStartTimeRef opened)%Q.
Proof.
  vm_compute. repeat split; try discriminate; intros H; discriminate H.
Qed.

Lemma decode_failure_dropped_witness :
  live opened /\
  audioData (audioMessage "a!") = Some (js "a!") /\
  truthy (js "a!") = true /\
  demoDecode (js "a!") = None /\
  let s' := @handle demo (Message 24000 (audioMessage "a!")) opened in
  @onmessage demo 24000 (audioMessage "a!") opened = Some s' /\
  clips (emitted opened s') = [] /\
  (forall source, In source (sourcesRef s') -> In source (sourcesRef opened)) /\
  In (ConsoleError "Audio decoding error:") (emitted opened s') /\
  (interrupted (audioMessage "a!") = false ->
   nextStartTimeRef s' = Qmax (nextStartTimeRef opened) (currentTime 24000) /\
   forall renderedFrames' audioBuffer,
     (24000 <= renderedFrames')%N ->
     (startAt (@scheduledClip demo renderedFrames' audioBuffer s')
      == startAt (@scheduledClip demo renderedFrames' audioBuffer opened))%Q) /\
  live s' /\
  (forall renderedFrames' message',
     exists s'', @onmessage demo renderedFrames' message' s' = Some s'').
Proof.
  split; [discriminate|]. do 3 (split; [reflexivity|]).
  apply (@decode_failure_dropped demo 24000 (audioMessage "a!") (js "a!") opened);
    solve [discriminate | reflexivity].
Defined.

Lemma turn_complete_flush_witness :
  live afterHelloBonjour /\
  turnComplete turnCompleteMessage = true /\
  let s' := @handle demo (Message 0 turnCompleteMessage) afterHelloBonjour in
  let cur := accumulated turnCompleteMessage (currentTranscriptionRef afterHelloBonjour) in
  let u := trim (cur_user cur) in
  let m := trim (cur_model cur) in
  let added := committed (emitted afterHelloBonjour s') in
  (u <> [] -> m <> [] -> added = [mkTurn user u; mkTurn model m]) /\
  (u <> [] -> m = [] -> added = [mkTurn user u]) /\
  (u = [] -> m <> [] -> added = [mkTurn model m]) /\
  (u = [] -> m = [] -> added = []) /\
  (forall t, In t added -> text t <> []) /\
  transcriptions s'
  = match added with
    | [] => transcriptions afterHelloBonjour
    | _ => slice_last 20 (transcriptions afterHelloBonjour ++ added)
    end /\
  (exists kept, transcriptions s' = kept ++ added) /\
  currentTranscriptionRef s' = mkCurrentTranscription [] [].
Proof.
  split; [discriminate|]. split; [reflexivity|].
  apply (@turn_complete_flush demo 0 turnCompleteMessage afterHelloBonjour);
    [discriminate | reflexivity].
Defined.

Example twentyOneTurns_committed :
  let s1 := @run demo twentyOneTurns opened in
  committed (emitted opened s1)
  = mkTurn user (js "first") :: repeat (mkTurn user (js "later")) 20 /\
  transcriptions s1 = repeat (mkTurn user (js "later")) 20.
Proof. vm_compute. split; reflexivity. Qed.

(** C8 fails as stated: of the twenty-one turns committed in a session,
    the entry saved by the End Session button holds the last twenty, and its
    summary is made from the second turn committed, not from the first. *)
Lemma history_entry_keeps_last_twenty :
  let s1 := @run demo twentyOneTurns opened in
  let turns := committed (emitted opened s1) in
  length turns = 21 /\
  hd_error turns = Some (mkTurn user (js "first")) /\
  exists item,
    history (endSessionClick demoBrowser s1) = [item] /\
    length (messages item) = 20 /\
    messages item <> turns /\
    summary item = Some (js "later").
Proof.
  vm_compute. split; [reflexivity|]. split; [reflexivity|].
  eexists. split; [reflexivity|]. split; [reflexivity|].
  split; [intros H; discriminate H | reflexivity].
Qed.

End Live.

(** ** The live session across events and across sessions *)

Module LiveSession.
Import JS Live.

(** Whether the end of playback of a node is among some events. *)
Definition endedIn (source : AudioBufferSourceNode) (evs : list Event) : bool :=
  existsb (fun ev => match ev with
                     | Ended source' => Nat.eqb source' source
                     | Message _ _ => false
                     end) evs.

(** An event that does not complete a turn. *)
Definition unfinished (ev : Event) : bool :=
  match ev with
  | Message _ message => negb (turnComplete message)
  | Ended _ => true
  end.

(** The texts that the events append to the user's accumulator, joined,
    and the same for the model's. *)
Fixpoint inputDeltas (evs : list Event) : jsstring :=
  match evs with
  | [] => []
  | Message _ message :: evs' =>
      match inputTranscription message with
      | Some t => appended t ++ inputDeltas evs'
      | None => inputDeltas evs'
      end
  | Ended _ :: evs' => inputDeltas evs'
  end.

Fixpoint outputDeltas (evs : list Event) : jsstring :=
  match evs with
  | [] => []
  | Message _ message :: evs' =>
      match outputTranscription message with
      | Some t => appended t ++ outputDeltas evs'
      | None => outputDeltas evs'
      end
  | Ended _ :: evs' => outputDeltas evs'
  end.

(** A text with no white space at either end. *)
Definition trimmed (t : jsstring) : Prop :=
  (forall c, hd_error t = Some c -> isWhiteSpace c = false) /\
  (forall c, hd_error (rev t) = Some c -> isWhiteSpace c = false).

(** What a session holds from its start to its stop: the microphone
    stream, the two audio contexts and the live session. *)
Definition held (s : State)
  : option MediaStream * option AudioContext * option AudioContext
    * option LiveSession :=
  (streamRef s, audioCtxRef s, outputAudioCtxRef s, sessionPromiseRef s).

(** A session interrupted by the server after one clip, for the examples:
    the clip of [afterOneClip] is still in flight. *)
Definition staleCursor : State :=
  onopen (startSession false demoAcquired demoBrowser
            (endSessionClick demoBrowser afterOneClip)).

Section Facts.

Context {env : SessionEnv}.

(** *** The in-flight set *)

Lemma set_add_In (x : nat) (l : list nat) : In x (set_add x l).
Proof.
  unfold set_add. destruct (existsb (Nat.eqb x) l) eqn:E.
  - apply existsb_exists in E as (y & Hy & Heq).
    apply Nat.eqb_eq in Heq. now subst y.
  - apply in_or_app. right. now left.
Qed.

Lemma set_add_keeps (x y : nat) (l : list nat) : In y l -> In y (set_add x l).
Proof.
  unfold set_add. destruct (existsb (Nat.eqb x) l); [trivial|].
  intros H. apply in_or_app. now left.
Qed.

Lemma set_delete_In (x y : nat) (l : list nat) :
  In y (set_delete x l) <-> In y l /\ y <> x.
Proof.
  unfold set_delete. rewrite filter_In, negb_true_iff, Nat.eqb_neq.
  intuition congruence.
Qed.

Lemma set_delete_absent (x : nat) (l : list nat) : ~ In x l -> set_delete x l = l.
Proof.
  unfold set_delete. induction l as [|y l IH]; [reflexivity|].
  intros H. simpl. destruct (Nat.eqb_spec x y) as [-> | Hne].
  - elim H. now left.
  - simpl. f_equal. apply IH. intros Hin. apply H. now right.
Qed.

Lemma set_sourcesRef_same (s : State) : set_sourcesRef (sourcesRef s) s = s.
Proof. now destruct s. Qed.

(** A node in flight stays in flight over an event that is neither an
    interruption nor its own end. *)
Lemma handle_keeps_in_flight (ev : Event) (source : AudioBufferSourceNode) (s : State) :
  uninterrupted ev = true -> endedIn source [ev] = false ->
  In source (sourcesRef s) -> In source (sourcesRef (handle ev s)).
Proof.
  intros Hun Hend Hin.
  destruct (handle_cases ev s) as [x | f m Ha Hctx | f m Ha | f m data Hd Ht Hl].
  - simpl in Hend. rewrite orb_false_r in Hend. apply Nat.eqb_neq in Hend.
    simpl. apply set_delete_In. split; [exact Hin | congruence].
  - exact Hin.
  - rewrite afterAudio_sources. simpl in Hun.
    now destruct (interrupted m).
  - rewrite afterAudio_sources. simpl in Hun.
    destruct (interrupted m); [discriminate Hun|].
    unfold handleAudio. destruct (decodeAudioData data); simpl; [|exact Hin].
    now apply set_add_keeps.
Qed.

(** The node of a clip started by an event that is not an interruption is
    in flight after the event. *)
Lemma handle_registers (ev : Event) (clip : PlaybackClip) (s : State) :
  uninterrupted ev = true ->
  In clip (clips (emitted s (handle ev s))) ->
  In (node clip) (sourcesRef (handle ev s)).
Proof.
  intros Hun Hin.
  destruct (handle_cases ev s) as [x | f m Ha Hctx | f m Ha | f m data Hd Ht Hl].
  - unfold emitted in Hin. simpl in Hin. rewrite skipn_all in Hin. destruct Hin.
  - rewrite emitted_refl in Hin. destruct Hin.
  - rewrite clips_afterAudio in Hin. destruct Hin.
  - simpl in Hun. rewrite afterAudio_sources.
    destruct (interrupted m) eqn:Hi; [discriminate Hun|].
    destruct (decodeAudioData data) as [audioBuffer|] eqn:Hdec.
    + destruct (handleAudio_decoded f data audioBuffer s Hdec)
        as (Htr & _ & Hsrc & _).
      rewrite (emitted_trans _ _ _ _ _ Htr (afterAudio_trace m _)) in Hin.
      rewrite !clips_app, Hi in Hin. simpl in Hin.
      destruct (turnComplete m); rewrite ?clips_turns in Hin;
        destruct Hin as [<- | []]; rewrite Hsrc; apply set_add_In.
    + destruct (handleAudio_failed f data s Hdec) as (Htr & _).
      rewrite (emitted_trans _ _ _ _ _ Htr (afterAudio_trace m _)) in Hin.
      rewrite !clips_app, Hi in Hin. simpl in Hin.
      destruct (turnComplete m); rewrite ?clips_turns in Hin; destruct Hin.
Qed.

Lemma endedIn_cons (source : AudioBufferSourceNode) (ev : Event) (evs : list Event) :
  endedIn source (ev :: evs) = endedIn source [ev] || endedIn source evs.
Proof. unfold endedIn. simpl. now rewrite orb_false_r. Qed.

Lemma run_keeps_in_flight (evs : list Event) (source : AudioBufferSourceNode)
    (s : State) :
  forallb uninterrupted evs = true -> endedIn source evs = false ->
  In source (sourcesRef s) -> In source (sourcesRef (run evs s)).
Proof.
  revert s. induction evs as [|ev evs IH]; intros s Hun Hend Hin; [exact Hin|].
  simpl in Hun. apply andb_true_iff in Hun as [Hev Hevs].
  rewrite endedIn_cons in Hend. apply orb_false_iff in Hend as [Hend1 Hend2].
  rewrite run_cons. apply IH; try assumption.
  now apply handle_keeps_in_flight.
Qed.

Lemma run_registers (evs : list Event) (clip : PlaybackClip) (s : State) :
  forallb uninterrupted evs = true ->
  In clip (clips (emitted s (run evs s))) ->
  endedIn (node clip) evs = false ->
  In (node clip) (sourcesRef (run evs s)).
Proof.
  revert s. induction evs as [|ev evs IH]; intros s Hun Hin Hend.
  - simpl in Hin. rewrite emitted_refl in Hin. destruct Hin.
  - simpl in Hun. apply andb_true_iff in Hun as [Hev Hevs].
    rewrite endedIn_cons in Hend. apply orb_false_iff in Hend as [Hend1 Hend2].
    rewrite emitted_run_cons, clips_app, in_app_iff in Hin.
    rewrite run_cons. destruct Hin as [Hin | Hin].
    + apply run_keeps_in_flight; try assumption.
      now apply handle_registers.
    + now apply IH.
Qed.

Lemma interruption_stops (renderedFrames : N) (message : LiveServerMessage)
    (source : AudioBufferSourceNode) (s : State) :
  live s -> interrupted message = true -> In source (sourcesRef s) ->
  In (SourceStop source) (emitted s (handle (Message renderedFrames message) s)).
Proof.
  intros Hlive Hint Hin.
  remember (Message renderedFrames message) as ev eqn:Hev.
  destruct (handle_cases ev s) as [x | f m Ha Hctx | f m Ha | f m data Hd Ht Hl];
    try discriminate Hev.
  - now elim Hlive.
  - injection Hev as -> ->.
    rewrite (emitted_app _ _ _ (afterAudio_trace message s)), Hint.
    apply in_or_app. left. now apply in_map.
  - injection Hev as -> ->.
    assert (Hin' : In source (sourcesRef (handleAudio renderedFrames data s))).
    { unfold handleAudio. destruct (decodeAudioData data); simpl; [|exact Hin].
      now apply set_add_keeps. }
    destruct (handle_trace (Message renderedFrames message) s) as [es Hes].
    unfold handle in Hes.
    rewrite (onmessage_audio renderedFrames message data s Hd Ht Hl) in Hes.
    rewrite (emitted_app _ _ _ Hes).
    pose proof (afterAudio_trace message (handleAudio renderedFrames data s)) as Htr.
    rewrite Hint in Htr.
    assert (Hsub : exists pre post,
               es = pre ++ List.map SourceStop
                             (sourcesRef (handleAudio renderedFrames data s)) ++ post).
    { unfold handleAudio in *. destruct (decodeAudioData data); simpl in *;
        rewrite Htr, <- app_assoc in Hes; apply app_inv_head in Hes;
        eexists; eexists; symmetry; exact Hes. }
    destruct Hsub as (pre & post & ->).
    apply in_or_app. right. apply in_or_app. left. now apply in_map.
Qed.

(** X1. Barge-in stops everything scheduled: when a live session handles an
    interruption after a run of events without one, it calls [stop] on
    every node that was in flight before the run, and on the node of every
    clip started during the run, unless the end of that node's playback was
    among the events; and it leaves the in-flight set empty. *)
Theorem barge_in_stops_all (evs : list Event) (renderedFrames : N)
    (message : LiveServerMessage) (s : State) :
  live s ->
  forallb uninterrupted evs = true ->
  interrupted message = true ->
  let s1 := run evs s in
  let s2 := handle (Message renderedFrames message) s1 in
  (forall source, In source (sourcesRef s) -> endedIn source evs = false ->
     In (SourceStop source) (emitted s1 s2)) /\
  (forall clip, In clip (clips (emitted s s1)) -> endedIn (node clip) evs = false ->
     In (SourceStop (node clip)) (emitted s1 s2)) /\
  sourcesRef s2 = [].
Proof.
  intros Hlive Hun Hint s1 s2.
  assert (Hlive1 : live s1) by now apply run_live.
  split; [|split].
  - intros source Hin Hend. apply interruption_stops; try assumption.
    now apply run_keeps_in_flight.
  - intros clip Hin Hend. apply interruption_stops; try assumption.
    now apply run_registers.
  - apply handle_interrupted; [exact Hlive1 | simpl; now rewrite Hint].
Qed.

(** X2. The end of playback of a node takes it, and no other, out of the
    in-flight set; a second end, or the end of a node that is not in flight
    (as after an interruption, which has emptied the set), changes nothing
    at all. *)
Theorem onended_removes_once (source : AudioBufferSourceNode) (s : State) :
  (forall source', In source' (sourcesRef (handle (Ended source) s))
                   <-> In source' (sourcesRef s) /\ source' <> source) /\
  handle (Ended source) (handle (Ended source) s) = handle (Ended source) s /\
  (~ In source (sourcesRef s) -> handle (Ended source) s = s) /\
  (forall renderedFrames message,
     live s -> interrupted message = true ->
     handle (Ended source) (handle (Message renderedFrames message) s)
     = handle (Message renderedFrames message) s).
Proof.
  assert (Habsent : forall s0, ~ In source (sourcesRef s0) ->
                               handle (Ended source) s0 = s0).
  { intros s0 H. simpl. unfold onended.
    rewrite (set_delete_absent _ _ H). apply set_sourcesRef_same. }
  split; [|split; [|split]].
  - intros source'. simpl. apply set_delete_In.
  - apply Habsent. simpl. rewrite set_delete_In. tauto.
  - apply Habsent.
  - intros f m Hlive Hint. apply Habsent.
    destruct (handle_interrupted (Message f m) s Hlive) as [-> _];
      [simpl; now rewrite Hint | tauto].
Qed.

(** *** The accumulators *)

Lemma inputDeltas_app (evs evs' : list Event) :
  inputDeltas (evs ++ evs') = inputDeltas evs ++ inputDeltas evs'.
Proof.
  induction evs as [|[f m | x] evs IH]; simpl; try assumption; [reflexivity|].
  destruct (inputTranscription m); [now rewrite IH, app_assoc | exact IH].
Qed.

Lemma outputDeltas_app (evs evs' : list Event) :
  outputDeltas (evs ++ evs') = outputDeltas evs ++ outputDeltas evs'.
Proof.
  induction evs as [|[f m | x] evs IH]; simpl; try assumption; [reflexivity|].
  destruct (outputTranscription m); [now rewrite IH, app_assoc | exact IH].
Qed.

Lemma handle_currentTranscription (ev : Event) (s : State) :
  live s ->
  currentTranscriptionRef (handle ev s)
  = match ev with
    | Message _ message =>
        if turnComplete message then mkCurrentTranscription [] []
        else accumulated message (currentTranscriptionRef s)
    | Ended _ => currentTranscriptionRef s
    end.
Proof.
  intros Hlive.
  destruct (handle_cases ev s) as [x | f m Ha Hctx | f m Ha | f m data Hd Ht Hl].
  - reflexivity.
  - now elim Hlive.
  - apply afterAudio_cur.
  - rewrite afterAudio_cur.
    now destruct (handleAudio_transcriptions f data s) as [_ ->].
Qed.

Lemma run_accumulates (evs : list Event) (s : State) :
  live s -> forallb unfinished evs = true ->
  cur_user (currentTranscriptionRef (run evs s))
  = cur_user (currentTranscriptionRef s) ++ inputDeltas evs /\
  cur_model (currentTranscriptionRef (run evs s))
  = cur_model (currentTranscriptionRef s) ++ outputDeltas evs.
Proof.
  revert s. induction evs as [|ev evs IH]; intros s Hlive Hun.
  - simpl. now rewrite !app_nil_r.
  - simpl in Hun. apply andb_true_iff in Hun as [Hev Hevs].
    rewrite run_cons.
    destruct (IH (handle ev s) (handle_live ev s Hlive) Hevs) as [-> ->].
    rewrite (handle_currentTranscription ev s Hlive).
    destruct ev as [f m | x]; simpl in *; [|now split].
    destruct (turnComplete m); [discriminate Hev|].
    unfold accumulated. cbn [cur_user cur_model].
    destruct (inputTranscription m), (outputTranscription m);
      now rewrite <- ?app_assoc.
Qed.

Lemma committed_message (renderedFrames : N) (message : LiveServerMessage) (s : State) :
  live s ->
  committed (emitted s (handle (Message renderedFrames message) s))
  = if turnComplete message
    then flushedTurns (accumulated message (currentTranscriptionRef s))
    else [].
Proof.
  intros Hlive.
  remember (Message renderedFrames message) as ev eqn:Hev.
  destruct (handle_cases ev s) as [x | f m Ha Hctx | f m Ha | f m data Hd Ht Hl];
    try discriminate Hev.
  - now elim Hlive.
  - injection Hev as -> ->. apply committed_afterAudio.
  - injection Hev as -> ->. apply committed_handle_audio.
Qed.

(** What a turn-complete message commits after a run with no turn-complete
    in it. *)
Lemma turn_complete_commits_joined (evs : list Event) (renderedFrames : N)
    (message : LiveServerMessage) (s : State) :
  live s ->
  forallb unfinished evs = true ->
  turnComplete message = true ->
  committed (emitted (run evs s)
               (handle (Message renderedFrames message) (run evs s)))
  = flushedTurns
      (mkCurrentTranscription
         (cur_user (currentTranscriptionRef s)
          ++ inputDeltas (evs ++ [Message renderedFrames message]))
         (cur_model (currentTranscriptionRef s)
          ++ outputDeltas (evs ++ [Message renderedFrames message]))).
Proof.
  intros Hlive Hun Htc.
  rewrite (committed_message _ _ _ (run_live evs s Hlive)), Htc.
  f_equal. unfold accumulated.
  destruct (run_accumulates evs s Hlive Hun) as [-> ->].
  rewrite inputDeltas_app, outputDeltas_app. simpl.
  destruct (inputTranscription message), (outputTranscription message);
    now rewrite ?app_nil_r, <- ?app_assoc.
Qed.

(** X3. The turns committed by a turn-complete message depend only on what the
    accumulators held before and on the deltas received since, joined in
    order: however the server cut the text into deltas, and whatever audio,
    interruptions or ends of playback came in between, a live session
    commits the same turns. *)
Theorem deltas_join (evs : list Event) (renderedFrames : N)
    (message : LiveServerMessage) (s : State) :
  live s ->
  forallb unfinished evs = true ->
  turnComplete message = true ->
  let s1 := run evs s in
  let s2 := handle (Message renderedFrames message) s1 in
  let all := evs ++ [Message renderedFrames message] in
  committed (emitted s1 s2)
  = flushedTurns
      (mkCurrentTranscription
         (cur_user (currentTranscriptionRef s) ++ inputDeltas all)
         (cur_model (currentTranscriptionRef s) ++ outputDeltas all)) /\
  committed (emitted s s1) = [].
Proof.
  intros Hlive Hun Htc. cbv zeta. split.
  - exact (turn_complete_commits_joined evs renderedFrames message s
             Hlive Hun Htc).
  - clear Htc. revert s Hlive Hun.
    induction evs as [|ev evs IH]; intros s Hlive Hun.
    + simpl. now rewrite emitted_refl.
    + simpl in Hun. apply andb_true_iff in Hun as [Hev Hevs].
      rewrite emitted_run_cons, committed_app.
      rewrite (IH (handle ev s) (handle_live ev s Hlive) Hevs), app_nil_r.
      destruct ev as [f m | x].
      * rewrite (committed_message f m s Hlive). simpl in Hev.
        now destruct (turnComplete m).
      * unfold emitted. simpl. now rewrite skipn_all.
Qed.

(** *** What a committed turn looks like *)

Lemma trimStart_suffix (t : jsstring) : exists pre, t = pre ++ trimStart t.
Proof.
  induction t as [|c t [pre IH]]; [now exists []|].
  simpl. destruct (isWhiteSpace c); [|now exists []].
  exists (c :: pre). simpl. now rewrite <- IH.
Qed.

Lemma trim_trimmed (t : jsstring) : trimmed (trim t).
Proof.
  unfold trimmed, trim, trimEnd. split; intros c Hc.
  - destruct (trimStart_suffix (rev (trimStart t))) as [pre Hpre].
    pose proof (trimStart_head t) as Hhead.
    apply (f_equal (@rev N)) in Hpre. rewrite rev_involutive, rev_app_distr in Hpre.
    rewrite Hpre in Hhead.
    destruct (rev (trimStart (rev (trimStart t)))) as [|c' r]; [discriminate Hc|].
    simpl in Hc, Hhead. now injection Hc as <-.
  - rewrite rev_involutive in Hc.
    pose proof (trimStart_head (rev (trimStart t))) as Hhead.
    destruct (trimStart (rev (trimStart t))) as [|c' r]; [discriminate Hc|].
    simpl in Hc. now injection Hc as <-.
Qed.

Lemma flushedTurns_trimmed (cur : CurrentTranscription) (turn : Turn) :
  In turn (flushedTurns cur) -> text turn <> [] /\ trimmed (text turn).
Proof.
  intros Hin. split; [exact (flushedTurns_nonempty cur turn Hin)|].
  unfold flushedTurns in Hin. apply filter_In in Hin as [Hin _].
  destruct Hin as [<- | [<- | []]]; apply trim_trimmed.
Qed.

Lemma handle_commits_flushed (ev : Event) (s : State) :
  exists cur,
    committed (emitted s (handle ev s)) = [] \/
    committed (emitted s (handle ev s)) = flushedTurns cur.
Proof.
  exists (match ev with
          | Message _ message => accumulated message (currentTranscriptionRef s)
          | Ended _ => currentTranscriptionRef s
          end).
  destruct (handle_cases ev s) as [x | f m Ha Hctx | f m Ha | f m data Hd Ht Hl].
  - left. unfold emitted. simpl. now rewrite skipn_all.
  - left. now rewrite emitted_refl.
  - rewrite committed_afterAudio. destruct (turnComplete m); [now right | now left].
  - rewrite committed_handle_audio. destruct (turnComplete m); [now right | now left].
Qed.

(** X4. Every turn that the handlers commit, over any run of events from any
    state, has a text that is not empty and that neither begins nor ends
    with white space. *)
Theorem committed_turns_trimmed (evs : list Event) (s : State) (turn : Turn) :
  In turn (committed (emitted s (run evs s))) ->
  text turn <> [] /\ trimmed (text turn).
Proof.
  revert s. induction evs as [|ev evs IH]; intros s Hin.
  - simpl in Hin. rewrite emitted_refl in Hin. destruct Hin.
  - rewrite emitted_run_cons, committed_app, in_app_iff in Hin.
    destruct Hin as [Hin | Hin]; [|exact (IH _ Hin)].
    destruct (handle_commits_flushed ev s) as [cur [H | H]]; rewrite H in Hin.
    + destruct Hin.
    + exact (flushedTurns_trimmed cur turn Hin).
Qed.

(** *** From one session to the next *)

Lemma stopSession_keeps (active : bool) (browser : Browser) (s : State) :
  nextStartTimeRef (stopSession active browser s) = nextStartTimeRef s /\
  currentTranscriptionRef (stopSession active browser s) = currentTranscriptionRef s /\
  transcriptions (stopSession active browser s) = transcriptions s.
Proof.
  destruct s as [a c tr h ia oa sp cur src st ct nc t].
  destruct active, tr, st, ia, oa, sp; repeat split.
Qed.

Lemma startSession_keeps (acquired : Acquired) (browser : Browser)
    (stream : MediaStream) (s : State) :
  getUserMedia acquired = Some stream ->
  let s0 := onopen (startSession false acquired browser s) in
  nextStartTimeRef s0 = nextStartTimeRef s /\
  currentTranscriptionRef s0 = currentTranscriptionRef s.
Proof.
  intros H. unfold startSession, onopen. rewrite H. now split.
Qed.

(** X5. Neither [stopSession] nor [startSession] touches [nextStartTimeRef]:
    a new session starts with the cursor the previous one left, and its
    first clip starts at the maximum of that cursor and the clock of the new
    output context, hence no earlier than the old cursor. *)
Theorem restart_keeps_cursor (active : bool) (browser browser' : Browser)
    (acquired : Acquired) (stream : MediaStream) (renderedFrames : N)
    (message : LiveServerMessage) (data : jsstring) (audioBuffer : AudioBuffer)
    (s : State) :
  getUserMedia acquired = Some stream ->
  audioData message = Some data -> truthy data = true ->
  decodeAudioData data = Some audioBuffer ->
  let s0 := onopen (startSession false acquired browser'
                      (stopSession active browser s)) in
  nextStartTimeRef s0 = nextStartTimeRef s /\
  exists clip,
    clips (emitted s0 (handle (Message renderedFrames message) s0)) = [clip] /\
    startAt clip = Qmax (nextStartTimeRef s) (currentTime renderedFrames) /\
    (nextStartTimeRef s <= startAt clip)%Q.
Proof.
  intros Hget Hd Ht Hdec s0.
  destruct (startSession_keeps acquired browser' stream
              (stopSession active browser s) Hget) as [Hcur _].
  fold s0 in Hcur.
  destruct (stopSession_keeps active browser s) as [Hcur' _].
  rewrite Hcur' in Hcur.
  destruct (startSession_acquired acquired browser' stream
              (stopSession active browser s) Hget) as (_ & _ & Hlive & _).
  fold s0 in Hlive.
  split; [exact Hcur|].
  exists (scheduledClip renderedFrames audioBuffer s0).
  split; [now apply clips_handle_audio with (data := data)|].
  unfold scheduledClip. cbn [startAt]. rewrite Hcur.
  split; [reflexivity | apply Q.le_max_l].
Qed.

(** X6. Nor do they touch [currentTranscriptionRef]: text received in one
    session and not yet committed when it stops is still in the
    accumulators of the next one, whose first turn-complete commits it
    ahead of the deltas of the new session. *)
Theorem restart_keeps_accumulators (active : bool) (browser browser' : Browser)
    (acquired : Acquired) (stream : MediaStream) (evs : list Event)
    (renderedFrames : N) (message : LiveServerMessage) (s : State) :
  getUserMedia acquired = Some stream ->
  forallb unfinished evs = true ->
  turnComplete message = true ->
  let s0 := onopen (startSession false acquired browser'
                      (stopSession active browser s)) in
  let s1 := run evs s0 in
  let all := evs ++ [Message renderedFrames message] in
  currentTranscriptionRef s0 = currentTranscriptionRef s /\
  transcriptions s0 = [] /\
  committed (emitted s1 (handle (Message renderedFrames message) s1))
  = flushedTurns
      (mkCurrentTranscription
         (cur_user (currentTranscriptionRef s) ++ inputDeltas all)
         (cur_model (currentTranscriptionRef s) ++ outputDeltas all)).
Proof.
  intros Hget Hun Htc s0 s1 all.
  destruct (startSession_keeps acquired browser' stream
              (stopSession active browser s) Hget) as [_ Hcur].
  fold s0 in Hcur.
  destruct (stopSession_keeps active browser s) as (_ & Hcur' & _).
  rewrite Hcur' in Hcur.
  destruct (startSession_acquired acquired browser' stream
              (stopSession active browser s) Hget) as (_ & Htr & Hlive & _).
  fold s0 in Hlive, Htr.
  split; [exact Hcur|]. split; [exact Htr|].
  pose proof (turn_complete_commits_joined evs renderedFrames message s0
                Hlive Hun Htc) as H.
  now rewrite Hcur in H.
Qed.

(** What [stopSession] releases: the tracks of the stream, the two audio
    contexts, the nodes in flight and the session, in this order. *)
Lemma stopSession_trace (active : bool) (browser : Browser) (s : State) :
  trace (stopSession active browser s)
  = trace s
    ++ match streamRef s with
       | Some stream => List.map TrackStop stream
       | None => []
       end
    ++ match audioCtxRef s with
       | Some ctx => [ContextClose ctx]
       | None => []
       end
    ++ match outputAudioCtxRef s with
       | Some ctx => [ContextClose ctx]
       | None => []
       end
    ++ List.map SourceStop (sourcesRef s)
    ++ match sessionPromiseRef s with
       | Some session => [SessionClose session]
       | None => []
       end.
Proof.
  destruct s as [a c tr h ia oa sp cur src st ct nc t].
  destruct active, tr, st, ia, oa, sp;
    cbv [stopSession saveCurrentSessionToHistory set_history set_isConnecting emit
      set_isActive set_streamRef set_audioCtxRef
      set_outputAudioCtxRef set_sourcesRef set_sessionPromiseRef
      isActive isConnecting transcriptions history audioCtxRef outputAudioCtxRef
      sessionPromiseRef nextStartTimeRef sourcesRef streamRef
      currentTranscriptionRef nodesCreated trace];
    rewrite <- ?app_assoc, ?app_nil_r; reflexivity.
Qed.

(** X7. When the microphone request is rejected, [startSession] reports the
    failure on the console and ends holding nothing: no stream, no audio
    context, no session, no node in flight, neither active nor connecting.
    The transcript has been cleared all the same, and the history is as it
    was. *)
Theorem start_rejected (acquired : Acquired) (browser : Browser) (s : State) :
  getUserMedia acquired = None ->
  let s' := startSession false acquired browser s in
  isActive s' = false /\ isConnecting s' = false /\
  streamRef s' = None /\ audioCtxRef s' = None /\ outputAudioCtxRef s' = None /\
  sessionPromiseRef s' = None /\ sourcesRef s' = [] /\
  transcriptions s' = [] /\
  history s' = history s /\
  hd_error (emitted s s') = Some (ConsoleError "Failed to start session:").
Proof.
  intros Hget s'. subst s'. unfold startSession. rewrite Hget.
  set (s1 := set_isConnecting false
               (emit [ConsoleError "Failed to start session:"]
                  (set_transcriptions [] (set_isConnecting true s)))).
  destruct (stopSession_released false browser s1)
    as (Ha & Hc & Hst & Hia & Hoa & Hsrc & Hsp).
  destruct (stopSession_keeps false browser s1) as (_ & _ & Htr).
  pose proof (stopSession_history false browser s1) as Hh.
  pose proof (stopSession_trace false browser s1) as Ht.
  cbv zeta in *.
  split; [exact Ha|]. split; [exact Hc|]. split; [exact Hst|].
  split; [exact Hia|]. split; [exact Hoa|]. split; [exact Hsp|].
  split; [exact Hsrc|]. split; [exact Htr|]. split; [exact Hh|].
  unfold emitted. rewrite Ht. subst s1. cbn [trace set_isConnecting emit].
  cbn [trace set_transcriptions set_isConnecting].
  rewrite <- app_assoc, skipn_app, Nat.sub_diag, skipn_all. reflexivity.
Qed.



(** The events of a session leave alone what the session holds. *)
Lemma afterAudio_held (message : LiveServerMessage) (s : State) :
  held (afterAudio message s) = held s.
Proof.
  unfold afterAudio. rewrite handleTurnComplete_eq, handleTranscription_eq.
  destruct (turnComplete message), (interrupted message),
    (inputTranscription message), (outputTranscription message);
    try reflexivity;
    match goal with
    | |- context [flushedTurns ?c] => destruct (flushedTurns c); reflexivity
    end.
Qed.

Lemma handle_held (ev : Event) (s : State) : held (handle ev s) = held s.
Proof.
  destruct (handle_cases ev s) as [source | f m Ha Hctx | f m Ha | f m data Hd Ht Hl];
    try reflexivity.
  - apply afterAudio_held.
  - rewrite afterAudio_held. unfold handleAudio.
    destruct (decodeAudioData data); reflexivity.
Qed.

Lemma run_held (evs : list Event) (s : State) : held (run evs s) = held s.
Proof.
  revert s. induction evs as [|ev evs IH]; intros s; [reflexivity|].
  rewrite run_cons, IH. apply handle_held.
Qed.

(** X8. A session that the server closes, or that ends on an error, releases
    everything as a stop does but saves nothing. After [onclose], and after
    [onerror], the component is neither active nor connecting and holds no
    stream, context, node or session; the calls made are those of a stop,
    in its order: the tracks of the stream stopped, the input and the
    output context closed, every node in flight stopped, the session
    closed ([onerror] first logs the error). But the [stopSession] of both
    callbacks reads the [isActive] of the render that started the session,
    so the history stays as it was before the session, whatever turns were
    committed, while the transcript stays as it is. *)
Theorem closed_session_not_saved (acquired : Acquired) (browser browser' : Browser)
    (stream : MediaStream) (evs : list Event) (s : State) :
  getUserMedia acquired = Some stream ->
  let s1 := run evs (onopen (startSession false acquired browser s)) in
  let releases :=
    List.map TrackStop stream
    ++ [ContextClose (inputContext acquired);
        ContextClose (outputContext acquired)]
    ++ List.map SourceStop (sourcesRef s1)
    ++ [SessionClose (liveConnect acquired)] in
  let closedAfter := fun (logged : list Effect) (s2 : State) =>
    history s2 = history s /\
    transcriptions s2 = transcriptions s1 /\
    isActive s2 = false /\ isConnecting s2 = false /\
    streamRef s2 = None /\ audioCtxRef s2 = None /\
    outputAudioCtxRef s2 = None /\ sourcesRef s2 = [] /\
    sessionPromiseRef s2 = None /\
    emitted s1 s2 = logged ++ releases in
  closedAfter [] (onclose browser' s1) /\
  closedAfter [ConsoleError "Live session error:"] (onerror browser' s1).
Proof.
  intros Hget s1 releases closedAfter.
  destruct (session_transcript acquired browser stream evs s Hget) as (_ & Hh & _).
  fold s1 in Hh.
  assert (Hheld : held s1
                  = (Some stream, Some (inputContext acquired),
                     Some (outputContext acquired), Some (liveConnect acquired))).
  { subst s1. rewrite run_held. unfold startSession, onopen. now rewrite Hget. }
  unfold held in Hheld. injection Hheld as Hst Hia Hoa Hsp.
  assert (Hstop : forall s', held s' = held s1 -> sourcesRef s' = sourcesRef s1 ->
                    history s' = history s1 ->
                    transcriptions s' = transcriptions s1 ->
                    forall logged, trace s' = trace s1 ++ logged ->
                    closedAfter logged (stopSession false browser' s')).
  { intros s' Hheld' Hsrc' Hh' Htr' logged Htrace. unfold closedAfter.
    unfold held in Hheld'. rewrite Hst, Hia, Hoa, Hsp in Hheld'.
    injection Hheld' as Hst' Hia' Hoa' Hsp'.
    destruct (stopSession_keeps false browser' s') as (_ & _ & Htr2).
    destruct (stopSession_released false browser' s')
      as (R1 & R2 & R3 & R4 & R5 & R6 & R7).
    cbv zeta in R1, R2, R3, R4, R5, R6, R7.
    rewrite stopSession_history, Hh', Hh, Htr2, Htr'.
    repeat (split; [first [reflexivity | assumption]|]).
    apply emitted_app.
    rewrite stopSession_trace, Hst', Hia', Hoa', Hsp', Hsrc', Htrace.
    unfold releases. now rewrite <- !app_assoc. }
  split.
  - unfold onclose. apply Hstop; try reflexivity. now rewrite app_nil_r.
  - unfold onerror. apply Hstop; reflexivity.
Qed.

End Facts.

(** *** The scenarios, run *)

(** After the three clips, none of which has ended, an interruption stops
    the three nodes. *)
Example threeClips_interrupted :
  let s1 := @run demo threeClips opened in
  let s2 := @handle demo (Message 250000 interruptionMessage) s1 in
  sourcesRef s1 = [0; 1; 2] /\
  emitted s1 s2 = [SourceStop 0; SourceStop 1; SourceStop 2] /\
  sourcesRef s2 = [].
Proof. vm_compute. repeat split. Qed.

Lemma barge_in_stops_all_witness :
  live opened /\
  forallb uninterrupted threeClips = true /\
  interrupted interruptionMessage = true /\
  let s1 := @run demo threeClips opened in
  let s2 := @handle demo (Message 250000 interruptionMessage) s1 in
  (forall source, In source (sourcesRef opened) -> endedIn source threeClips = false ->
     In (SourceStop source) (emitted s1 s2)) /\
  (forall clip, In clip (clips (emitted opened s1)) ->
     endedIn (node clip) threeClips = false ->
     In (SourceStop (node clip)) (emitted s1 s2)) /\
  sourcesRef s2 = [].
Proof.
  split; [discriminate|]. split; [reflexivity|]. split; [reflexivity|].
  apply (@barge_in_stops_all demo threeClips 250000 interruptionMessage opened);
    solve [discriminate | reflexivity].
Defined.

(** "Hel" and "lo" in two deltas, with a clip in between, commit the turn
    that "Hello" in one delta commits. *)
Example hello_in_two_deltas :
  committed
    (emitted opened
       (@run demo
          [Message 0 (userDelta "Hel"); Message 0 (audioMessage "ab");
           Message 0 (userDelta "lo "); Message 0 turnCompleteMessage] opened))
  = committed
      (emitted opened
         (@run demo [Message 0 (userDelta " Hello"); Message 0 turnCompleteMessage]
            opened)).
Proof. vm_compute. reflexivity. Qed.

Lemma deltas_join_witness :
  live opened /\
  forallb unfinished [Message 0 (userDelta "Hel"); Message 0 (userDelta "lo")] = true /\
  turnComplete turnCompleteMessage = true /\
  let evs := [Message 0 (userDelta "Hel"); Message 0 (userDelta "lo")] in
  let s1 := @run demo evs opened in
  let s2 := @handle demo (Message 0 turnCompleteMessage) s1 in
  let all := evs ++ [Message 0 turnCompleteMessage] in
  committed (emitted s1 s2)
  = flushedTurns
      (mkCurrentTranscription
         (cur_user (currentTranscriptionRef opened) ++ inputDeltas all)
         (cur_model (currentTranscriptionRef opened) ++ outputDeltas all)) /\
  committed (emitted opened s1) = [].
Proof.
  split; [discriminate|]. split; [reflexivity|]. split; [reflexivity|].
  apply (@deltas_join demo [Message 0 (userDelta "Hel"); Message 0 (userDelta "lo")]
           0 turnCompleteMessage opened);
    solve [discriminate | reflexivity].
Defined.

Lemma committed_turns_trimmed_witness :
  In (mkTurn user (js "Hello"))
    (committed
       (emitted opened
          (@run demo [Message 0 (userDelta "  Hello "); Message 0 turnCompleteMessage]
             opened))) /\
  js "Hello" <> [] /\ trimmed (js "Hello").
Proof.
  split; [now left|].
  apply (@committed_turns_trimmed demo
           [Message 0 (userDelta "  Hello "); Message 0 turnCompleteMessage]
           opened (mkTurn user (js "Hello"))).
  now left.
Defined.

(** The session of [afterOneClip], whose cursor is at 2 seconds, is ended
    and a new one started: its first clip, handled when the clock of the new
    context reads 0, starts at 2 seconds. *)
Example stale_cursor_delays_first_clip :
  List.map (fun c => (Qred (clockRead c), Qred (startAt c)))
    (clips (emitted staleCursor
              (@handle demo (Message 0 (audioMessage "c")) staleCursor)))
  = [(0, 2)]%Q.
Proof. vm_compute. reflexivity. Qed.

Lemma restart_keeps_cursor_witness :
  getUserMedia demoAcquired = Some [7] /\
  audioData (audioMessage "c") = Some (js "c") /\
  truthy (js "c") = true /\
  demoDecode (js "c") = Some (mkAudioBuffer 24000 24000) /\
  let s0 := onopen (startSession false demoAcquired demoBrowser
                      (stopSession true demoBrowser afterOneClip)) in
  nextStartTimeRef s0 = nextStartTimeRef afterOneClip /\
  exists clip,
    clips (emitted s0 (@handle demo (Message 0 (audioMessage "c")) s0)) = [clip] /\
    startAt clip = Qmax (nextStartTimeRef afterOneClip) (currentTime 0) /\
    (nextStartTimeRef afterOneClip <= startAt clip)%Q.
Proof.
  do 4 (split; [reflexivity|]).
  apply (@restart_keeps_cursor demo true demoBrowser demoBrowser demoAcquired [7] 0
           (audioMessage "c") (js "c") (mkAudioBuffer 24000 24000) afterOneClip);
    reflexivity.
Defined.

(** "Hel" is received and the session ended before the turn completes; in
    the next session "lo" and a turn-complete commit "Hello". *)
Example leftover_delta_joins_next_session :
  let s := @run demo [Message 0 (userDelta "Hel")] opened in
  let s0 := onopen (startSession false demoAcquired demoBrowser
                      (endSessionClick demoBrowser s)) in
  transcriptions
    (@run demo [Message 0 (userDelta "lo"); Message 0 turnCompleteMessage] s0)
  = [mkTurn user (js "Hello")].
Proof. vm_compute. reflexivity. Qed.

Lemma restart_keeps_accumulators_witness :
  let s := @run demo [Message 0 (userDelta "Hel")] opened in
  getUserMedia demoAcquired = Some [7] /\
  forallb unfinished [Message 0 (userDelta "lo")] = true /\
  turnComplete turnCompleteMessage = true /\
  let s0 := onopen (startSession false demoAcquired demoBrowser
                      (stopSession true demoBrowser s)) in
  let s1 := @run demo [Message 0 (userDelta "lo")] s0 in
  let all := [Message 0 (userDelta "lo")] ++ [Message 0 turnCompleteMessage] in
  currentTranscriptionRef s0 = currentTranscriptionRef s /\
  transcriptions s0 = [] /\
  committed (emitted s1 (@handle demo (Message 0 turnCompleteMessage) s1))
  = flushedTurns
      (mkCurrentTranscription
         (cur_user (currentTranscriptionRef s) ++ inputDeltas all)
         (cur_model (currentTranscriptionRef s) ++ outputDeltas all)).
Proof.
  intros s. do 3 (split; [reflexivity|]).
  apply (@restart_keeps_accumulators demo true demoBrowser demoBrowser demoAcquired
           [7] [Message 0 (userDelta "lo")] 0 turnCompleteMessage s);
    reflexivity.
Defined.

Lemma start_rejected_witness :
  let refused := mkAcquired None 1 2 3 in
  getUserMedia refused = None /\
  let s' := startSession false refused demoBrowser afterHelloBonjour in
  isActive s' = false /\ isConnecting s' = false /\
  streamRef s' = None /\ audioCtxRef s' = None /\ outputAudioCtxRef s' = None /\
  sessionPromiseRef s' = None /\ sourcesRef s' = [] /\
  transcriptions s' = [] /\
  history s' = history afterHelloBonjour /\
  hd_error (emitted afterHelloBonjour s')
  = Some (ConsoleError "Failed to start session:").
Proof.
  intros refused. split; [reflexivity|].
  apply (start_rejected refused demoBrowser afterHelloBonjour). reflexivity.
Defined.

(** A session with a clip in flight and twenty-one turns committed, closed
    by the server: what is released, and the history still empty. *)
Example closed_session_releases :
  let s1 := @run demo (Message 0 (audioMessage "ab") :: twentyOneTurns)
              (onopen (startSession false demoAcquired demoBrowser idle)) in
  emitted s1 (onclose demoBrowser s1)
  = [TrackStop 7; ContextClose 1; ContextClose 2; SourceStop 0; SessionClose 3]
  /\ history (onclose demoBrowser s1) = []
  /\ length (transcriptions (onclose demoBrowser s1)) = 20.
Proof. vm_compute. repeat split. Qed.

Lemma closed_session_not_saved_witness :
  getUserMedia demoAcquired = Some [7] /\
  let s1 := @run demo (Message 0 (audioMessage "ab") :: twentyOneTurns)
              (onopen (startSession false demoAcquired demoBrowser idle)) in
  let releases :=
    List.map TrackStop [7]
    ++ [ContextClose (inputContext demoAcquired);
        ContextClose (outputContext demoAcquired)]
    ++ List.map SourceStop (sourcesRef s1)
    ++ [SessionClose (liveConnect demoAcquired)] in
  let closedAfter := fun (logged : list Effect) (s2 : State) =>
    history s2 = history idle /\
    transcriptions s2 = transcriptions s1 /\
    isActive s2 = false /\ isConnecting s2 = false /\
    streamRef s2 = None /\ audioCtxRef s2 = None /\
    outputAudioCtxRef s2 = None /\ sourcesRef s2 = [] /\
    sessionPromiseRef s2 = None /\
    emitted s1 s2 = logged ++ releases in
  closedAfter [] (onclose demoBrowser s1) /\
  closedAfter [ConsoleError "Live session error:"] (onerror demoBrowser s1).
Proof.
  split; [reflexivity|].
  apply (@closed_session_not_saved demo demoAcquired demoBrowser demoBrowser [7]
           (Message 0 (audioMessage "ab") :: twentyOneTurns) idle).
  reflexivity.
Defined.

End LiveSession.

(** ** The history panel of the live translator *)

Module VoiceHistory.
Import JS Live.

(** [a === b] on strings. *)
Fixpoint str_eqb (a b : jsstring) : bool :=
  match a, b with
  | [], [] => true
  | x :: a', y :: b' => N.eqb x y && str_eqb a' b'
  | _, _ => false
  end.

(** [deleteHistoryItem]: [prev.filter(item => item.id !== id)]. *)
Definition deleteHistoryItem (id0 : jsstring) (s : State) : State :=
  set_history (filter (fun item => negb (str_eqb (id item) id0)) (history s)) s.

(** [clearVoiceHistory], given the answer to [window.confirm]. *)
Definition clearVoiceHistory (confirmed : bool) (s : State) : State :=
  if confirmed then set_history [] s else s.

(** [selectHistoryItem]. *)
Definition selectHistoryItem (item : VoiceHistoryItem) (s : State) : State :=
  set_transcriptions (messages item) s.

(** The test of [filteredHistory] on one item, for the lower-cased query. *)
Definition matchesQuery (toLowerCase : jsstring -> jsstring) (query : jsstring)
    (item : VoiceHistoryItem) : bool :=
  existsb (fun m => includes (toLowerCase (text m)) query) (messages item)
  || match summary item with
     | Some sm => truthy sm && includes (toLowerCase sm) query
     | None => false
     end.

(** [filteredHistory], for a lower-casing function. *)
Definition filteredHistory (toLowerCase : jsstring -> jsstring)
    (searchQuery : jsstring) (history : list VoiceHistoryItem)
  : list VoiceHistoryItem :=
  if truthy (trim searchQuery)
  then filter (matchesQuery toLowerCase (toLowerCase searchQuery)) history
  else history.

(** A history from which the entries with a given id, and no other, have
    been taken out, the rest being kept as they were and in their order. *)
Inductive Without (id0 : jsstring)
  : list VoiceHistoryItem -> list VoiceHistoryItem -> Prop :=
| WithoutNil : Without id0 [] []
| WithoutDrop item before after :
    id item = id0 -> Without id0 before after ->
    Without id0 (item :: before) after
| WithoutKeep item before after :
    id item <> id0 -> Without id0 before after ->
    Without id0 (item :: before) (item :: after).

(** What happens to the component: the Start button, the session opening,
    an event of the session, the End Session button, the session closing
    or failing, a click on the item at some position of the history, on its
    delete button, or on Clear with the answer given to the confirmation. *)
Inductive Action : Type :=
| StartClick (acquired : Acquired) (browser : Browser)
| Opened
| Delivered (ev : Event)
| EndSessionClick (browser : Browser)
| Closed (browser : Browser)
| Errored (browser : Browser)
| ItemClick (position : nat)
| DeleteClick (id0 : jsstring)
| ClearClick (confirmed : bool).

Definition act {env : SessionEnv} (a : Action) (s : State) : State :=
  match a with
  | StartClick acquired browser => startSession (isActive s) acquired browser s
  | Opened => onopen s
  | Delivered ev => handle ev s
  | EndSessionClick browser => endSessionClick browser s
  | Closed browser => onclose browser s
  | Errored browser => onerror browser s
  | ItemClick position =>
      match nth_error (history s) position with
      | Some item => selectHistoryItem item s
      | None => s
      end
  | DeleteClick id0 => deleteHistoryItem id0 s
  | ClearClick confirmed => clearVoiceHistory confirmed s
  end.

Definition perform {env : SessionEnv} (actions : list Action) (s : State) : State :=
  fold_left (fun s a => act a s) actions s.

(** An action that leaves a session going: an event of the session or a
    click in the history panel. *)
Definition duringSession (a : Action) : bool :=
  match a with
  | Delivered _ | ItemClick _ | DeleteClick _ | ClearClick _ => true
  | StartClick _ _ | Opened | EndSessionClick _ | Closed _ | Errored _ => false
  end.

(** A click that opens an entry of the history. *)
Definition opensEntry (a : Action) : bool :=
  match a with
  | ItemClick _ => true
  | _ => false
  end.

(** A click that takes entries out of the history. *)
Definition editsHistory (a : Action) : bool :=
  match a with
  | DeleteClick _ | ClearClick _ => true
  | _ => false
  end.

(** A history no entry of which holds more than 20 turns. *)
Definition entriesCapped (s : State) : Prop :=
  Forall (fun item => length (messages item) <= 20) (history s).

(** An entry as [saveCurrentSessionToHistory] makes them: between 1 and 20
    turns, and the summary of the first one's text. *)
Definition wellFormed (item : VoiceHistoryItem) : Prop :=
  match messages item with
  | [] => False
  | first :: _ =>
      length (messages item) <= 20 /\
      summary item = Some (summarize (text first))
  end.

Definition bounded (s : State) : Prop :=
  length (transcriptions s) <= 20 /\
  length (history s) <= 30 /\
  Forall wellFormed (history s).

(** Some actions for the examples: a session of twenty-one turns ended with
    the button, the saved entry opened, a session the server closes, the
    entry deleted. *)
Definition busyDay : list Action :=
  [StartClick demoAcquired demoBrowser; Opened]
  ++ List.map Delivered twentyOneTurns
  ++ [EndSessionClick demoBrowser; ItemClick 0;
      StartClick demoAcquired demoBrowser; Opened;
      Delivered (Message 0 (audioMessage "ab")); Closed demoBrowser;
      DeleteClick (randomUUID demoBrowser)].

(** The component after a session of one turn, "first", saved with the
    button. *)
Definition savedFirst : State :=
  @perform demo
    [StartClick demoAcquired demoBrowser; Opened; Delivered (turnOf "first");
     EndSessionClick demoBrowser] idle.

(** Twenty turns, then a click on the first entry of the history. *)
Definition twentyThenOpen : list Action :=
  List.map Delivered (repeat (turnOf "later") 20) ++ [ItemClick 0].

Section Facts.

Context {env : SessionEnv}.

Lemma str_eqb_eq (a b : jsstring) : str_eqb a b = true <-> a = b.
Proof.
  revert b. induction a as [|x a IH]; intros [|y b]; simpl;
    try (split; [discriminate | discriminate]); [tauto|].
  rewrite andb_true_iff, N.eqb_eq, IH. split.
  - now intros [-> ->].
  - intros H. injection H as -> ->. now split.
Qed.

Lemma summarize_length (t : jsstring) : length (summarize t) <= 63.
Proof.
  unfold summarize, substring0.
  destruct (Nat.ltb_spec 60 (length t)) as [H | H]; [|lia].
  rewrite length_app, length_firstn.
  change (length (js "...")) with 3. lia.
Qed.

Lemma startSession_frame (active : bool) (acquired : Acquired) (browser : Browser)
    (s : State) :
  history (startSession active acquired browser s) = history s /\
  transcriptions (startSession active acquired browser s)
  = if active then transcriptions s else [].
Proof.
  unfold startSession. destruct active; [now split|].
  destruct (getUserMedia acquired); [now split|].
  rewrite stopSession_history.
  destruct (LiveSession.stopSession_keeps false browser
              (set_isConnecting false
                 (emit [ConsoleError "Failed to start session:"]
                    (set_transcriptions [] (set_isConnecting true s)))))
    as (_ & _ & ->).
  now split.
Qed.

Lemma handle_bounded_transcript (ev : Event) (s : State) :
  length (transcriptions s) <= 20 -> length (transcriptions (handle ev s)) <= 20.
Proof.
  intros H. rewrite (handle_transcriptions ev s H). apply slice_last_length.
Qed.

Lemma Forall_firstn {A : Type} (P : A -> Prop) (n : nat) (l : list A) :
  Forall P l -> Forall P (firstn n l).
Proof.
  intros H. apply Forall_forall. intros x Hx.
  rewrite Forall_forall in H. apply H. now apply In_firstn with n.
Qed.

Lemma Forall_filter {A : Type} (P : A -> Prop) (f : A -> bool) (l : list A) :
  Forall P l -> Forall P (filter f l).
Proof.
  intros H. apply Forall_forall. intros x Hx.
  rewrite Forall_forall in H. apply H. now apply filter_In in Hx as [? _].
Qed.

Lemma filter_length_le {A : Type} (f : A -> bool) (l : list A) :
  length (filter f l) <= length l.
Proof.
  induction l as [|x l IH]; [reflexivity|].
  simpl. destruct (f x); simpl; lia.
Qed.

Lemma stopSession_bounded (active : bool) (browser : Browser) (s : State) :
  bounded s -> bounded (stopSession active browser s).
Proof.
  intros (Htr & Hlen & Hwf). unfold bounded.
  destruct (LiveSession.stopSession_keeps active browser s) as (_ & _ & ->).
  rewrite stopSession_history.
  split; [exact Htr|].
  destruct active; [|now split].
  destruct (transcriptions s) as [|first rest] eqn:E; [now split|].
  unfold slice_first. split.
  - rewrite length_firstn. lia.
  - apply Forall_firstn. constructor; [|exact Hwf].
    unfold wellFormed. cbn [messages summary]. now split.
Qed.

Lemma act_bounded (a : Action) (s : State) : bounded s -> bounded (act a s).
Proof.
  intros H. pose proof H as (Htr & Hlen & Hwf).
  destruct a as [acquired browser | | ev | browser | browser | browser
                 | position | id0 | confirmed]; simpl.
  - destruct (startSession_frame (isActive s) acquired browser s) as [Hh Ht].
    unfold bounded. rewrite Hh, Ht.
    destruct (isActive s); repeat split; simpl; try assumption; lia.
  - exact H.
  - unfold bounded. rewrite handle_history.
    split; [now apply handle_bounded_transcript | now split].
  - now apply stopSession_bounded.
  - now apply stopSession_bounded.
  - unfold onerror. apply stopSession_bounded. exact H.
  - destruct (nth_error (history s) position) as [item|] eqn:E; [|exact H].
    unfold bounded, selectHistoryItem. cbn [transcriptions history set_transcriptions].
    split; [|now split].
    rewrite Forall_forall in Hwf. specialize (Hwf item (nth_error_In _ _ E)).
    unfold wellFormed in Hwf. destruct (messages item); [destruct Hwf | apply Hwf].
  - unfold bounded, deleteHistoryItem. cbn [transcriptions history set_history].
    split; [exact Htr|]. split.
    + pose proof (filter_length_le
                    (fun item => negb (str_eqb (id item) id0)) (history s)). lia.
    + now apply Forall_filter.
  - destruct confirmed; [|exact H].
    unfold bounded. cbn [transcriptions history set_history].
    split; [exact Htr|]. split; [simpl; lia | constructor].
Qed.

(** X9. Whatever is done to the component (sessions started, opened, fed
    events, ended by the button, by the server or by an error; history
    entries opened, deleted, all cleared), the transcript never holds more
    than 20 turns, the history never more than 30 entries, and every entry
    holds between 1 and 20 turns and the summary of its first turn, of at
    most 63 code units; provided it was so at the start, as it is when the
    component mounts with an empty history. *)
Theorem history_stays_bounded (actions : list Action) (s : State) :
  bounded s ->
  let s' := perform actions s in
  length (transcriptions s') <= 20 /\
  length (history s') <= 30 /\
  forall item, In item (history s') ->
    1 <= length (messages item) <= 20 /\
    exists first sm,
      hd_error (messages item) = Some first /\
      summary item = Some sm /\ sm = summarize (text first) /\ length sm <= 63.
Proof.
  intros H s'.
  assert (Hb : bounded s').
  { subst s'. revert s H. induction actions as [|a actions IH]; intros s H; [exact H|].
    simpl. apply IH. now apply act_bounded. }
  destruct Hb as (Htr & Hlen & Hwf).
  split; [exact Htr|]. split; [exact Hlen|].
  intros item Hin. rewrite Forall_forall in Hwf. specialize (Hwf item Hin).
  unfold wellFormed in Hwf.
  destruct (messages item) as [|first rest]; [destruct Hwf|].
  destruct Hwf as [Hle Hsum]. split; [simpl in *; lia|].
  exists first, (summarize (text first)).
  repeat split; try assumption. apply summarize_length.
Qed.

(** X10. Deleting by id removes every entry with that id and no other, keeping
    the rest as they were and in their order; deleting again, or deleting
    an id that no entry has, changes nothing. *)
Theorem deleteHistoryItem_removes (id0 : jsstring) (s : State) :
  let s' := deleteHistoryItem id0 s in
  Without id0 (history s) (history s') /\
  (forall item, In item (history s') <-> In item (history s) /\ id item <> id0) /\
  (exists dropped, length (history s) = length (history s') + dropped) /\
  deleteHistoryItem id0 s' = s' /\
  ((forall item, In item (history s) -> id item <> id0) -> s' = s) /\
  transcriptions s' = transcriptions s.
Proof.
  intros s'. subst s'. unfold deleteHistoryItem.
  cbn [history set_history transcriptions].
  assert (Hkeep : forall l : list VoiceHistoryItem,
             (forall item, In item l -> id item <> id0) ->
             filter (fun item => negb (str_eqb (id item) id0)) l = l).
  { induction l as [|x l IH]; intros H; [reflexivity|].
    simpl. destruct (str_eqb (id x) id0) eqn:E.
    - apply str_eqb_eq in E. elim (H x (or_introl eq_refl) E).
    - simpl. f_equal. apply IH. intros item Hi. apply H. now right. }
  split; [|split; [|split; [|split; [|split]]]].
  - induction (history s) as [|x l IH]; [constructor|].
    cbn [filter]. destruct (str_eqb (id x) id0) eqn:E; cbn [negb].
    + apply WithoutDrop; [now apply str_eqb_eq | exact IH].
    + apply WithoutKeep; [|exact IH].
      intros Heq. apply str_eqb_eq in Heq. congruence.
  - intros item. rewrite filter_In, negb_true_iff.
    split; intros [Hin Hne]; (split; [exact Hin|]).
    + intros E. apply str_eqb_eq in E. congruence.
    + destruct (str_eqb (id item) id0) eqn:E; [|reflexivity].
      apply str_eqb_eq in E. contradiction.
  - exists (length (history s)
            - length (filter (fun item => negb (str_eqb (id item) id0)) (history s))).
    pose proof (filter_length_le
                  (fun item => negb (str_eqb (id item) id0)) (history s)). lia.
  - destruct s as [a c tr h ia oa sp cur src st ct nc t].
    unfold set_history. cbn. f_equal. apply Hkeep.
    intros item Hi. apply filter_In in Hi as [_ Hi].
    apply negb_true_iff in Hi. intros E. apply str_eqb_eq in E. congruence.
  - intros H. destruct s as [a c tr h ia oa sp cur src st ct nc t].
    unfold set_history. cbn in *. f_equal. now apply Hkeep.
  - reflexivity.
Qed.

(** *** The transcript and the history over the actions of a session *)

Lemma emitted_none (s s' : State) : trace s' = trace s -> emitted s s' = [].
Proof. intros H. unfold emitted. rewrite H. apply skipn_all. Qed.

(** A click in the history panel calls nothing. *)
Lemma click_trace (a : Action) (s : State) :
  duringSession a = true -> (forall ev, a <> Delivered ev) ->
  trace (act a s) = trace s.
Proof.
  destruct a as [acquired browser | | ev | browser | browser | browser
                 | position | id0 | confirmed]; try discriminate; intros _ Hev;
    cbn [act].
  - now elim (Hev ev).
  - now destruct (nth_error (history s) position).
  - reflexivity.
  - now destruct confirmed.
Qed.

Lemma act_emitted (a : Action) (s : State) :
  duringSession a = true ->
  trace (act a s) = trace s ++ emitted s (act a s).
Proof.
  intros Ha. destruct a as [acquired browser | | ev | browser | browser | browser
                 | position | id0 | confirmed]; try discriminate;
    try apply handle_emitted;
    (rewrite (emitted_none _ _ (click_trace _ s Ha ltac:(discriminate))),
       app_nil_r;
     apply click_trace; [exact Ha | discriminate]).
Qed.

Lemma perform_cons (a : Action) (actions : list Action) (s : State) :
  perform (a :: actions) s = perform actions (act a s).
Proof. reflexivity. Qed.

Lemma perform_app (actions actions' : list Action) (s : State) :
  perform (actions ++ actions') s = perform actions' (perform actions s).
Proof. unfold perform. apply fold_left_app. Qed.

Lemma perform_emitted (actions : list Action) (s : State) :
  forallb duringSession actions = true ->
  trace (perform actions s) = trace s ++ emitted s (perform actions s).
Proof.
  revert s. induction actions as [|a actions IH]; intros s H.
  - cbn [perform fold_left]. now rewrite emitted_refl, app_nil_r.
  - cbn [forallb] in H. apply andb_true_iff in H as [Ha H].
    rewrite perform_cons.
    rewrite (emitted_trans _ _ _ _ _ (act_emitted a s Ha) (IH (act a s) H)).
    now rewrite (IH _ H), (act_emitted a s Ha) at 1; rewrite <- app_assoc.
Qed.

Lemma emitted_perform_cons (a : Action) (actions : list Action) (s : State) :
  duringSession a = true -> forallb duringSession actions = true ->
  emitted s (perform (a :: actions) s)
  = emitted s (act a s) ++ emitted (act a s) (perform actions (act a s)).
Proof.
  intros Ha H. rewrite perform_cons.
  exact (emitted_trans _ _ _ _ _ (act_emitted a s Ha)
           (perform_emitted actions (act a s) H)).
Qed.

Lemma act_isActive (a : Action) (s : State) :
  duringSession a = true -> isActive (act a s) = isActive s.
Proof.
  destruct a as [acquired browser | | ev | browser | browser | browser
                 | position | id0 | confirmed]; try discriminate; intros _;
    cbn [act].
  - apply handle_isActive.
  - now destruct (nth_error (history s) position).
  - reflexivity.
  - now destruct confirmed.
Qed.

Lemma perform_isActive (actions : list Action) (s : State) :
  forallb duringSession actions = true ->
  isActive (perform actions s) = isActive s.
Proof.
  revert s. induction actions as [|a actions IH]; intros s H; [reflexivity|].
  cbn [forallb] in H. apply andb_true_iff in H as [Ha H].
  rewrite perform_cons, (IH _ H). now apply act_isActive.
Qed.

(** What one action that opens no entry does to the transcript: nothing,
    or, when its event commits turns, these are put after it and the last
    20 kept. *)
Lemma act_transcript (a : Action) (s : State) :
  duringSession a = true -> opensEntry a = false ->
  transcriptions (act a s)
  = match committed (emitted s (act a s)) with
    | [] => transcriptions s
    | added => slice_last 20 (transcriptions s ++ added)
    end.
Proof.
  destruct a as [acquired browser | | ev | browser | browser | browser
                 | position | id0 | confirmed]; try discriminate; intros _ _;
    cbn [act].
  - destruct (handle_commits ev s) as (_ & H). cbv zeta in H. rewrite H.
    now destruct (committed (emitted s (handle ev s))).
  - rewrite emitted_none; reflexivity.
  - destruct confirmed; rewrite emitted_none; reflexivity.
Qed.

Lemma perform_transcript (actions : list Action) (s : State) :
  forallb duringSession actions = true ->
  forallb (fun a => negb (opensEntry a)) actions = true ->
  transcriptions (perform actions s)
  = match committed (emitted s (perform actions s)) with
    | [] => transcriptions s
    | turns => slice_last 20 (transcriptions s ++ turns)
    end.
Proof.
  revert s. induction actions as [|a actions IH]; intros s H Hno.
  - cbn [perform fold_left]. now rewrite emitted_refl.
  - cbn [forallb] in H, Hno.
    apply andb_true_iff in H as [Ha H].
    apply andb_true_iff in Hno as [Hna Hno]. apply negb_true_iff in Hna.
    rewrite (emitted_perform_cons a actions s Ha H), committed_app.
    rewrite perform_cons, (IH _ H Hno), (act_transcript a s Ha Hna).
    destruct (committed (emitted s (act a s))) as [|t1 added1];
      [reflexivity|].
    destruct (committed (emitted (act a s) (perform actions (act a s))))
      as [|t2 added2].
    + now rewrite app_nil_r.
    + rewrite slice_last_slice_last. cbn [app]. now rewrite <- app_assoc.
Qed.

Lemma perform_history_kept (actions : list Action) (s : State) :
  forallb duringSession actions = true ->
  forallb (fun a => negb (editsHistory a)) actions = true ->
  history (perform actions s) = history s.
Proof.
  revert s. induction actions as [|a actions IH]; intros s H Hno;
    [reflexivity|].
  cbn [forallb] in H, Hno.
  apply andb_true_iff in H as [Ha H].
  apply andb_true_iff in Hno as [Hna Hno].
  rewrite perform_cons, (IH _ H Hno).
  destruct a as [acquired browser | | ev | browser | browser | browser
                 | position | id0 | confirmed]; try discriminate; cbn [act].
  - apply handle_history.
  - now destruct (nth_error (history s) position).
Qed.

(** The bound of 20 on the transcript, kept by the actions of a session
    when no entry of the history holds more. *)
Lemma act_capped (a : Action) (s : State) :
  duringSession a = true ->
  entriesCapped s /\ length (transcriptions s) <= 20 ->
  entriesCapped (act a s) /\ length (transcriptions (act a s)) <= 20.
Proof.
  unfold entriesCapped.
  destruct a as [acquired browser | | ev | browser | browser | browser
                 | position | id0 | confirmed]; try discriminate;
    intros _ [Hh Ht]; cbn [act].
  - rewrite handle_history. split; [exact Hh|].
    now apply handle_bounded_transcript.
  - destruct (nth_error (history s) position) as [item|] eqn:E; [|now split].
    unfold selectHistoryItem. cbn [history transcriptions set_transcriptions].
    split; [exact Hh|].
    rewrite Forall_forall in Hh. exact (Hh item (nth_error_In _ _ E)).
  - unfold deleteHistoryItem. cbn [history transcriptions set_history].
    split; [now apply Forall_filter | exact Ht].
  - destruct confirmed; [|now split].
    cbn [clearVoiceHistory history transcriptions set_history].
    split; [constructor | exact Ht].
Qed.

Lemma perform_capped (actions : list Action) (s : State) :
  forallb duringSession actions = true ->
  entriesCapped s /\ length (transcriptions s) <= 20 ->
  entriesCapped (perform actions s)
  /\ length (transcriptions (perform actions s)) <= 20.
Proof.
  revert s. induction actions as [|a actions IH]; intros s H Hs; [exact Hs|].
  cbn [forallb] in H. apply andb_true_iff in H as [Ha H].
  rewrite perform_cons. apply (IH _ H). now apply act_capped.
Qed.

(** C8, as the code has it. When a session is ended with the End Session
    button, whatever events and clicks in the history panel came during
    it, an entry is added to the history if and only if the transcript
    shown is not empty. The entry is put first and the history cut to 30
    entries; it has the id given by [crypto.randomUUID], the timestamp
    given by [Date.now], the turns of the transcript shown, in order, and a
    summary made from the text of the first of these: the text itself when
    it has at most 60 code units, else its first 60 followed by '...'. In
    a session during which no entry of the history is opened, the
    transcript shown is the last 20 of the turns committed since the
    session started, so that an entry is added if and only if at least one
    turn was committed, and it holds the last 20 committed. The history
    the entry is added to is the one from before the session when nothing
    was deleted from it meanwhile. *)
Theorem history_entry_on_stop (acquired : Acquired) (browser browser' : Browser)
    (stream : MediaStream) (actions : list Action) (s : State) :
  getUserMedia acquired = Some stream ->
  forallb duringSession actions = true ->
  let s0 := onopen (startSession false acquired browser s) in
  let s1 := perform actions s0 in
  let turns := committed (emitted s0 s1) in
  let shown := transcriptions s1 in
  let s2 := endSessionClick browser' s1 in
  (shown = [] -> history s2 = history s1) /\
  (forall first rest,
     shown = first :: rest ->
     history s2
     = slice_first 30
         (mkVoiceHistoryItem (randomUUID browser') (dateNow browser') shown
            (Some (summarize (text first)))
          :: history s1)) /\
  (forallb (fun a => negb (opensEntry a)) actions = true ->
   shown = slice_last 20 turns /\ (turns = [] <-> shown = [])) /\
  (forallb (fun a => negb (editsHistory a)) actions = true ->
   history s1 = history s) /\
  (forall firstMsg,
     (length firstMsg <= 60 -> summarize firstMsg = firstMsg) /\
     (60 < length firstMsg ->
      summarize firstMsg = firstn 60 firstMsg ++ js "...")).
Proof.
  intros Hget Hduring s0 s1 turns shown s2.
  destruct (startSession_acquired acquired browser stream s Hget)
    as (Hact0 & Htr0 & _ & Hh0).
  fold s0 in Hact0, Htr0, Hh0.
  assert (Hact : isActive s1 = true)
    by (subst s1; now rewrite perform_isActive).
  assert (H2 : history s2
               = match shown with
                 | [] => history s1
                 | first :: _ =>
                     slice_first 30
                       (mkVoiceHistoryItem (randomUUID browser') (dateNow browser')
                          shown (Some (summarize (text first)))
                        :: history s1)
                 end)
    by (subst s2 shown; exact (endSessionClick_history browser' s1 Hact)).
  split; [intros E; now rewrite H2, E|].
  split; [intros first rest E; now rewrite H2, E|].
  split; [|split; [|exact summarize_cases]].
  - intros Hno.
    assert (Hshown : shown = slice_last 20 turns).
    { subst shown s1 turns.
      rewrite (perform_transcript actions s0 Hduring Hno), Htr0.
      now destruct (committed (emitted s0 (perform actions s0))). }
    split; [exact Hshown|]. rewrite Hshown. split.
    + now intros ->.
    + intros E. destruct turns as [|t0 turns']; [reflexivity|].
      exfalso. apply (slice_last_nonempty 20 (t0 :: turns'));
        [lia | discriminate | exact E].
  - intros Hno. subst s1.
    now rewrite (perform_history_kept actions s0 Hduring Hno).
Qed.

(** C10, as the code has it. Each event that commits turns puts them after
    the transcript and keeps the last 20. In a session during which no
    entry of the history is opened, the transcript is therefore the last 20
    of the turns committed since the session started; and whatever clicks
    in the history panel come during the session, the transcript holds at
    most 20 turns, as long as no entry of the history held more when the
    session started. The entry that the End Session button adds holds the
    turns of the transcript, so at most 20 under the same conditions,
    however many turns the session committed. *)
Theorem transcript_capped (acquired : Acquired) (browser browser' : Browser)
    (stream : MediaStream) (actions : list Action) (s : State) :
  getUserMedia acquired = Some stream ->
  forallb duringSession actions = true ->
  let s0 := onopen (startSession false acquired browser s) in
  let s1 := perform actions s0 in
  let turns := committed (emitted s0 s1) in
  let s2 := endSessionClick browser' s1 in
  (forall ev s',
     transcriptions (handle ev s')
     = match committed (emitted s' (handle ev s')) with
       | [] => transcriptions s'
       | added => slice_last 20 (transcriptions s' ++ added)
       end) /\
  (forallb (fun a => negb (opensEntry a)) actions = true ->
   transcriptions s1 = slice_last 20 turns /\
   length (transcriptions s1) <= 20) /\
  (entriesCapped s -> length (transcriptions s1) <= 20) /\
  (forall item, In item (history s2) ->
     In item (history s1) \/ messages item = transcriptions s1) /\
  (forallb (fun a => negb (opensEntry a)) actions = true \/ entriesCapped s ->
   forall item, In item (history s2) ->
     In item (history s1) \/ length (messages item) <= 20).
Proof.
  intros Hget Hduring s0 s1 turns s2.
  destruct (startSession_acquired acquired browser stream s Hget)
    as (Hact0 & Htr0 & _ & Hh0).
  fold s0 in Hact0, Htr0, Hh0.
  assert (Hnew : forall item, In item (history s2) ->
                   In item (history s1) \/ messages item = transcriptions s1).
  { intros item Hin. subst s2.
    assert (Hact : isActive s1 = true)
      by (subst s1; now rewrite perform_isActive).
    rewrite (endSessionClick_history browser' s1 Hact) in Hin.
    destruct (transcriptions s1) as [|first rest] eqn:E; [now left|].
    unfold slice_first in Hin. apply In_firstn in Hin.
    destruct Hin as [<- | Hin]; [now right | now left]. }
  assert (Hopen : forallb (fun a => negb (opensEntry a)) actions = true ->
                  transcriptions s1 = slice_last 20 turns /\
                  length (transcriptions s1) <= 20).
  { intros Hno.
    assert (Hshown : transcriptions s1 = slice_last 20 turns).
    { subst s1 turns.
      rewrite (perform_transcript actions s0 Hduring Hno), Htr0.
      now destruct (committed (emitted s0 (perform actions s0))). }
    split; [exact Hshown|]. rewrite Hshown. apply slice_last_length. }
  assert (Hcapped : entriesCapped s -> length (transcriptions s1) <= 20).
  { intros Hcap. subst s1.
    apply (perform_capped actions s0 Hduring).
    unfold entriesCapped. rewrite Hh0, Htr0. split; [exact Hcap | simpl; lia]. }
  split; [|split; [exact Hopen|split; [exact Hcapped|split; [exact Hnew|]]]].
  2:{ intros Hcond item Hin.
      destruct (Hnew item Hin) as [Hold | ->]; [now left | right].
      destruct Hcond as [Hno | Hcap]; [apply (Hopen Hno) | exact (Hcapped Hcap)]. }
  intros ev s'. destruct (handle_commits ev s') as (_ & H). cbv zeta in H.
  rewrite H. now destruct (committed (emitted s' (handle ev s'))).
Qed.

End Facts.

(** X11. Deleting an entry and searching commute: what the panel shows for
    a query after a deletion is what it showed before, less the entries
    deleted. A query that is empty or all white space shows everything. *)
Theorem search_after_delete (toLowerCase : jsstring -> jsstring)
    (searchQuery id0 : jsstring) (s : State) :
  filteredHistory toLowerCase searchQuery (history (deleteHistoryItem id0 s))
  = filter (fun item => negb (str_eqb (id item) id0))
      (filteredHistory toLowerCase searchQuery (history s)) /\
  (trim searchQuery = [] ->
   filteredHistory toLowerCase searchQuery (history s) = history s) /\
  (forall item, In item (filteredHistory toLowerCase searchQuery (history s)) ->
                In item (history s)).
Proof.
  unfold filteredHistory, deleteHistoryItem. cbn [history set_history].
  split; [|split].
  - destruct (truthy (trim searchQuery)); [|reflexivity].
    induction (history s) as [|x l IH]; [reflexivity|].
    simpl. destruct (str_eqb (id x) id0) eqn:E1;
      destruct (matchesQuery toLowerCase (toLowerCase searchQuery) x) eqn:E2;
      simpl; rewrite ?E1, ?E2; simpl; now rewrite IH.
  - now intros ->.
  - intros item. destruct (truthy (trim searchQuery)); [|trivial].
    rewrite filter_In. tauto.
Qed.

(** The specification's scenario: a session with one committed turn of the
    user, ended with the button, leaves exactly one entry with one turn. *)
Example one_turn_one_entry :
  let s1 := @perform demo
              [Delivered (Message 0 (userDelta "Hel"));
               Delivered (Message 0 (userDelta "lo"));
               Delivered (Message 0 turnCompleteMessage)] opened in
  committed (emitted opened s1) = [mkTurn user (js "Hello")] /\
  history (endSessionClick demoBrowser s1)
  = [mkVoiceHistoryItem (randomUUID demoBrowser) (dateNow demoBrowser)
       [mkTurn user (js "Hello")] (Some (js "Hello"))].
Proof. vm_compute. split; reflexivity. Qed.

(** An entry opened during a session in which nothing is committed: the
    button saves the turns of the opened entry as a new entry. *)
Example opened_entry_saved_again :
  let s0 := onopen (startSession false demoAcquired demoBrowser savedFirst) in
  let s1 := @perform demo [ItemClick 0] s0 in
  committed (emitted s0 s1) = [] /\
  List.map messages (history s1) = [[mkTurn user (js "first")]] /\
  List.map messages (history (endSessionClick demoBrowser s1))
  = [[mkTurn user (js "first")]; [mkTurn user (js "first")]].
Proof. vm_compute. repeat split. Qed.

(** C10 fails as stated: in a session that has committed twenty turns, a
    click on an entry of the history saved by an earlier session puts the
    turn of that entry in the transcript; the transcript then holds none of
    the 20 most recently committed turns, of the session or of all time. *)
Lemma opened_entry_replaces_transcript :
  let s0 := onopen (startSession false demoAcquired demoBrowser savedFirst) in
  let s1 := @perform demo twentyThenOpen s0 in
  let turns := committed (emitted s0 s1) in
  isActive s1 = true /\
  turns = repeat (mkTurn user (js "later")) 20 /\
  slice_last 20 (committed (trace s1)) = repeat (mkTurn user (js "later")) 20 /\
  transcriptions s1 = [mkTurn user (js "first")] /\
  transcriptions s1 <> slice_last 20 turns /\
  ~ In (mkTurn user (js "first")) (slice_last 20 (committed (trace s1))).
Proof.
  vm_compute. repeat split; try discriminate.
  intros H. repeat (destruct H as [H|H]; [discriminate H|]). exact H.
Qed.

Lemma history_entry_on_stop_witness :
  let actions :=
    [Delivered (Message 0 (userDelta "Hel"));
     Delivered (Message 0 (userDelta "lo"));
     Delivered (Message 0 turnCompleteMessage)] in
  getUserMedia demoAcquired = Some [7] /\
  forallb duringSession actions = true /\
  let s0 := onopen (startSession false demoAcquired demoBrowser idle) in
  let s1 := @perform demo actions s0 in
  let turns := committed (emitted s0 s1) in
  let shown := transcriptions s1 in
  let s2 := endSessionClick demoBrowser s1 in
  (shown = [] -> history s2 = history s1) /\
  (forall first rest,
     shown = first :: rest ->
     history s2
     = slice_first 30
         (mkVoiceHistoryItem (randomUUID demoBrowser) (dateNow demoBrowser) shown
            (Some (summarize (text first)))
          :: history s1)) /\
  (forallb (fun a => negb (opensEntry a)) actions = true ->
   shown = slice_last 20 turns /\ (turns = [] <-> shown = [])) /\
  (forallb (fun a => negb (editsHistory a)) actions = true ->
   history s1 = history idle) /\
  (forall firstMsg,
     (length firstMsg <= 60 -> summarize firstMsg = firstMsg) /\
     (60 < length firstMsg ->
      summarize firstMsg = firstn 60 firstMsg ++ js "...")).
Proof.
  intros actions. split; [reflexivity|]. split; [reflexivity|].
  exact (@history_entry_on_stop demo demoAcquired demoBrowser demoBrowser [7]
           actions idle eq_refl eq_refl).
Defined.

Lemma transcript_capped_witness :
  getUserMedia demoAcquired = Some [7] /\
  forallb duringSession twentyThenOpen = true /\
  let s0 := onopen (startSession false demoAcquired demoBrowser savedFirst) in
  let s1 := @perform demo twentyThenOpen s0 in
  let turns := committed (emitted s0 s1) in
  let s2 := endSessionClick demoBrowser s1 in
  (forall ev s',
     transcriptions (@handle demo ev s')
     = match committed (emitted s' (@handle demo ev s')) with
       | [] => transcriptions s'
       | added => slice_last 20 (transcriptions s' ++ added)
       end) /\
  (forallb (fun a => negb (opensEntry a)) twentyThenOpen = true ->
   transcriptions s1 = slice_last 20 turns /\
   length (transcriptions s1) <= 20) /\
  (entriesCapped savedFirst -> length (transcriptions s1) <= 20) /\
  (forall item, In item (history s2) ->
     In item (history s1) \/ messages item = transcriptions s1) /\
  (forallb (fun a => negb (opensEntry a)) twentyThenOpen = true
   \/ entriesCapped savedFirst ->
   forall item, In item (history s2) ->
     In item (history s1) \/ length (messages item) <= 20).
Proof.
  split; [reflexivity|]. split; [reflexivity|].
  exact (@transcript_capped demo demoAcquired demoBrowser demoBrowser [7]
           twentyThenOpen savedFirst eq_refl eq_refl).
Defined.

Example busyDay_outcome :
  let s := @perform demo busyDay idle in
  history s = [] /\ length (transcriptions s) = 0 /\ isActive s = false.
Proof. vm_compute. repeat split. Qed.

Lemma history_stays_bounded_witness :
  bounded idle /\
  let s' := @perform demo busyDay idle in
  length (transcriptions s') <= 20 /\
  length (history s') <= 30 /\
  forall item, In item (history s') ->
    1 <= length (messages item) <= 20 /\
    exists first sm,
      hd_error (messages item) = Some first /\
      summary item = Some sm /\ sm = summarize (text first) /\ length sm <= 63.
Proof.
  assert (H : bounded idle).
  { unfold bounded. simpl. repeat split; try lia. constructor. }
  split; [exact H|].
  exact (@history_stays_bounded demo busyDay idle H).
Defined.

End VoiceHistory.

(** ** The microphone level display of the live translator *)

Module Visualizer.
Import JS.

(** [visualizerData] at first: [new Array(40).fill(5)]. *)
Definition initial : list Q := repeat 5%Q 40.

(** The value computed from a capture buffer in [onaudioprocess]: the mean
    of the absolute samples, times 300, and at least 5. The division is
    JavaScript's for a buffer that is not empty, as the 4096 samples of the
    script processor are. *)
Definition level (inputData : list Q) : Q :=
  let sum := fold_left (fun a b => a + Qabs b)%Q inputData 0%Q in
  let avg := (sum / inject_Z (Z.of_nat (length inputData)))%Q in
  Qmax 5 (avg * 300).

(** The update of [visualizerData] in [onaudioprocess]:
    [[...prev.slice(1), Math.max(5, avg * 300)]]. *)
Definition onaudioprocess (inputData : list Q) (prev : list Q) : list Q :=
  skipn 1 prev ++ [level inputData].

Definition capture (buffers : list (list Q)) (prev : list Q) : list Q :=
  fold_left (fun prev inputData => onaudioprocess inputData prev) buffers prev.

(** A buffer of samples between -1 and 1. *)
Definition normalized (inputData : list Q) : Prop :=
  Forall (fun x => (-1 <= x <= 1)%Q) inputData.

Lemma onaudioprocess_slides (inputData prev : list Q) :
  prev <> [] ->
  onaudioprocess inputData prev
  = slice_last (length prev) (prev ++ [level inputData]).
Proof.
  intros H. unfold onaudioprocess, slice_last.
  rewrite length_app. simpl.
  replace (length prev + 1 - length prev) with 1 by lia.
  destruct prev as [|x prev]; [now elim H | reflexivity].
Qed.

Lemma capture_slides (buffers : list (list Q)) (prev : list Q) :
  prev <> [] ->
  capture buffers prev
  = slice_last (length prev) (prev ++ List.map level buffers).
Proof.
  revert prev. induction buffers as [|b buffers IH]; intros prev H.
  - simpl. rewrite app_nil_r. symmetry. now apply slice_last_short.
  - simpl. assert (Hlen : length (onaudioprocess b prev) = length prev).
    { unfold onaudioprocess. rewrite length_app, length_skipn. simpl.
      destruct prev; [now elim H | simpl; lia]. }
    rewrite IH.
    + rewrite Hlen, (onaudioprocess_slides b prev H).
      rewrite Live.slice_last_slice_last. now rewrite <- app_assoc.
    + intros E. rewrite E in Hlen. destruct prev; [now elim H | discriminate Hlen].
Qed.

Lemma sum_abs_bounds (inputData : list Q) (acc : Q) :
  normalized inputData ->
  (acc <= fold_left (fun a b => a + Qabs b) inputData acc
   <= acc + inject_Z (Z.of_nat (length inputData)))%Q.
Proof.
  revert acc. induction inputData as [|x l IH]; intros acc H.
  - simpl. split; [apply Qle_refl|]. rewrite Qplus_0_r. apply Qle_refl.
  - inversion H as [|? ? Hx Hl]; subst. simpl fold_left.
    destruct (IH (acc + Qabs x)%Q Hl) as [Hlo Hhi].
    assert (Habs : (0 <= Qabs x <= 1)%Q).
    { split; [apply Qabs_nonneg|]. apply Qabs_Qle_condition. exact Hx. }
    split.
    + apply Qle_trans with (acc + Qabs x)%Q; [|exact Hlo].
      rewrite <- (Qplus_0_r acc) at 1. apply Qplus_le_r. apply Habs.
    + apply Qle_trans with (acc + Qabs x + inject_Z (Z.of_nat (length l)))%Q;
        [exact Hhi|].
      replace (Z.of_nat (length (x :: l))) with (1 + Z.of_nat (length l))%Z
        by (simpl length; lia).
      rewrite inject_Z_plus, Qplus_assoc.
      apply Qplus_le_l. apply Qplus_le_r. apply Habs.
Qed.

Lemma level_bounds (inputData : list Q) :
  inputData <> [] -> normalized inputData ->
  (5 <= level inputData <= 300)%Q.
Proof.
  intros Hne Hn. unfold level. cbv zeta. split; [apply Q.le_max_l|].
  apply Q.max_lub; [discriminate|].
  destruct (sum_abs_bounds inputData 0 Hn) as [_ Hhi]. rewrite Qplus_0_l in Hhi.
  set (n := inject_Z (Z.of_nat (length inputData))) in *.
  assert (Hpos : (0 < n)%Q).
  { subst n. change 0%Q with (inject_Z 0). rewrite <- Zlt_Qlt.
    destruct inputData; [now elim Hne | simpl length; lia]. }
  rewrite <- (Qmult_1_l 300) at 2. apply Qmult_le_compat_r; [|discriminate].
  apply Qle_shift_div_r; [exact Hpos|]. now rewrite Qmult_1_l.
Qed.

(** X12. The level display is a sliding window: after any capture buffers, it
    holds the last 40 of the 40 initial values followed by the levels of
    the buffers, so it always has 40 values; and for buffers that are not
    empty and whose samples lie between -1 and 1, every value lies between
    5 and 300. *)
Theorem visualizer_window (buffers : list (list Q)) :
  Forall (fun inputData => inputData <> [] /\ normalized inputData) buffers ->
  let shown := capture buffers initial in
  shown = slice_last 40 (initial ++ List.map level buffers) /\
  length shown = 40 /\
  Forall (fun v => (5 <= v <= 300)%Q) shown.
Proof.
  intros Hb shown.
  assert (Hshown : shown = slice_last 40 (initial ++ List.map level buffers)).
  { subst shown. rewrite capture_slides; [reflexivity | discriminate]. }
  split; [exact Hshown|]. split.
  - rewrite Hshown. unfold slice_last. rewrite length_skipn, length_app.
    change (length initial) with 40. lia.
  - rewrite Hshown. apply Forall_forall. intros v Hv.
    unfold slice_last in Hv.
    assert (Hin : In v (initial ++ List.map level buffers)).
    { rewrite <- (firstn_skipn
                    (length (initial ++ List.map level buffers) - 40)
                    (initial ++ List.map level buffers)).
      apply in_or_app. now right. }
    apply in_app_or in Hin as [Hin | Hin].
    + apply repeat_spec in Hin. subst v. split; discriminate.
    + apply in_map_iff in Hin as (b & <- & Hbin).
      rewrite Forall_forall in Hb. destruct (Hb b Hbin) as [Hne Hn].
      now apply level_bounds.
Qed.

(** Silence, then a buffer at half scale: the window has moved by two. *)
Example visualizer_two_buffers :
  List.map Qred (skipn 37 (capture [[0; 0; 0; 0]; [1 # 2; -1 # 2; 1 # 2; -1 # 2]]%Q initial))
  = [5; 5; 150]%Q.
Proof. vm_compute. reflexivity. Qed.

Lemma visualizer_window_witness :
  Forall (fun inputData => inputData <> [] /\ normalized inputData)
    [[0; 0; 0; 0]; [1 # 2; -1 # 2; 1 # 2; -1 # 2]]%Q /\
  let buffers := [[0; 0; 0; 0]; [1 # 2; -1 # 2; 1 # 2; -1 # 2]]%Q in
  let shown := capture buffers initial in
  shown = slice_last 40 (initial ++ List.map level buffers) /\
  length shown = 40 /\
  Forall (fun v => (5 <= v <= 300)%Q) shown.
Proof.
  assert (H : Forall (fun inputData => inputData <> [] /\ normalized inputData)
                [[0; 0; 0; 0]; [1 # 2; -1 # 2; 1 # 2; -1 # 2]]%Q).
  { repeat constructor; try discriminate. }
  split; [exact H|].
  exact (visualizer_window [[0; 0; 0; 0]; [1 # 2; -1 # 2; 1 # 2; -1 # 2]]%Q H).
Defined.

End Visualizer.

(** ** components/TextTranslator.tsx *)

Module TextTranslator.
Import JS ErrorUtils.

(** *** Data *)

(** [Language] of types.ts. *)
Inductive Language : Type :=
| Japanese | Korean | Chinese | French | Italian | English | Urdu.

(** The string a language is in a template literal. *)
Definition languageName (l : Language) : jsstring :=
  match l with
  | Japanese => js "Japanese"
  | Korean => js "Korean"
  | Chinese => js "Chinese"
  | French => js "French"
  | Italian => js "Italian"
  | English => js "English"
  | Urdu => js "Urdu"
  end.

(** [TranslationState] of types.ts; the component always gives
    [pronunciationGuide] a string. *)
Record TranslationState : Type := mkTranslationState {
  sourceText : jsstring;
  translatedText : jsstring;
  sourceLanguage : Language;
  targetLanguage : Language;
  isLoading : bool;
  error : option jsstring;
  pronunciationGuide : jsstring
}.

(** [HistoryItem] of types.ts. *)
Record HistoryItem : Type := mkHistoryItem {
  id : jsstring;
  itemSourceText : jsstring;
  itemTranslatedText : jsstring;
  itemSourceLanguage : Language;
  itemTargetLanguage : Language;
  timestamp : Z;
  voice : option jsstring;
  itemSpeechRate : option Q
}.

(** What the component asks of its environment: a text request and a
    speech request to the model, a line on the console, stopping the speech
    node, scrolling to the top. *)
Inductive Effect : Type :=
| GenerateContent (model : string) (contents : jsstring)
| GenerateSpeech (voiceName : jsstring) (contents : jsstring)
| ConsoleError (label : string)
| SourceStop (source : nat)
| ScrollToTop.

(** The state cells and refs of the component that the handlers below use,
    and the effects so far, oldest first. [batchProgress] is
    [(current, total)]. *)
Record Component : Type := mkComponent {
  state : TranslationState;
  history : list HistoryItem;
  showHistory : bool;
  historySearchQuery : jsstring;
  speechRate : Q;
  selectedVoice : jsstring;
  isAutoPlayEnabled : bool;
  isAutoDetect : bool;
  isSpeaking : bool;
  showGuide : bool;
  isBatchMode : bool;
  batchProgress : nat * nat;
  isBatchActive : bool;
  isBatchPaused : bool;
  isBatchCancelledRef : bool;
  isBatchPausedRef : bool;
  ttsSourceRef : option nat;
  trace : list Effect
}.

Definition set_state (v : TranslationState) (s : Component) : Component :=
  mkComponent
    v (history s) (showHistory s) (historySearchQuery s) (speechRate s)
    (selectedVoice s) (isAutoPlayEnabled s) (isAutoDetect s) (isSpeaking s)
    (showGuide s) (isBatchMode s) (batchProgress s) (isBatchActive s)
    (isBatchPaused s) (isBatchCancelledRef s) (isBatchPausedRef s)
    (ttsSourceRef s) (trace s).

Definition set_history (v : list HistoryItem) (s : Component) : Component :=
  mkComponent
    (state s) v (showHistory s) (historySearchQuery s) (speechRate s)
    (selectedVoice s) (isAutoPlayEnabled s) (isAutoDetect s) (isSpeaking s)
    (showGuide s) (isBatchMode s) (batchProgress s) (isBatchActive s)
    (isBatchPaused s) (isBatchCancelledRef s) (isBatchPausedRef s)
    (ttsSourceRef s) (trace s).

Definition set_showHistory (v : bool) (s : Component) : Component :=
  mkComponent
    (state s) (history s) v (historySearchQuery s) (speechRate s)
    (selectedVoice s) (isAutoPlayEnabled s) (isAutoDetect s) (isSpeaking s)
    (showGuide s) (isBatchMode s) (batchProgress s) (isBatchActive s)
    (isBatchPaused s) (isBatchCancelledRef s) (isBatchPausedRef s)
    (ttsSourceRef s) (trace s).

Definition set_historySearchQuery (v : jsstring) (s : Component) : Component :=
  mkComponent
    (state s) (history s) (showHistory s) v (speechRate s) (selectedVoice s)
    (isAutoPlayEnabled s) (isAutoDetect s) (isSpeaking s) (showGuide s)
    (isBatchMode s) (batchProgress s) (isBatchActive s) (isBatchPaused s)
    (isBatchCancelledRef s) (isBatchPausedRef s) (ttsSourceRef s) (trace s).

Definition set_speechRate (v : Q) (s : Component) : Component :=
  mkComponent
    (state s) (history s) (showHistory s) (historySearchQuery s) v
    (selectedVoice s) (isAutoPlayEnabled s) (isAutoDetect s) (isSpeaking s)
    (showGuide s) (isBatchMode s) (batchProgress s) (isBatchActive s)
    (isBatchPaused s) (isBatchCancelledRef s) (isBatchPausedRef s)
    (ttsSourceRef s) (trace s).

Definition set_selectedVoice (v : jsstring) (s : Component) : Component :=
  mkComponent
    (state s) (history s) (showHistory s) (historySearchQuery s)
    (speechRate s) v (isAutoPlayEnabled s) (isAutoDetect s) (isSpeaking s)
    (showGuide s) (isBatchMode s) (batchProgress s) (isBatchActive s)
    (isBatchPaused s) (isBatchCancelledRef s) (isBatchPausedRef s)
    (ttsSourceRef s) (trace s).

Definition set_isAutoDetect (v : bool) (s : Component) : Component :=
  mkComponent
    (state s) (history s) (showHistory s) (historySearchQuery s)
    (speechRate s) (selectedVoice s) (isAutoPlayEnabled s) v (isSpeaking s)
    (showGuide s) (isBatchMode s) (batchProgress s) (isBatchActive s)
    (isBatchPaused s) (isBatchCancelledRef s) (isBatchPausedRef s)
    (ttsSourceRef s) (trace s).

Definition set_isSpeaking (v : bool) (s : Component) : Component :=
  mkComponent
    (state s) (history s) (showHistory s) (historySearchQuery s)
    (speechRate s) (selectedVoice s) (isAutoPlayEnabled s) (isAutoDetect s) v
    (showGuide s) (isBatchMode s) (batchProgress s) (isBatchActive s)
    (isBatchPaused s) (isBatchCancelledRef s) (isBatchPausedRef s)
    (ttsSourceRef s) (trace s).

Definition set_showGuide (v : bool) (s : Component) : Component :=
  mkComponent
    (state s) (history s) (showHistory s) (historySearchQuery s)
    (speechRate s) (selectedVoice s) (isAutoPlayEnabled s) (isAutoDetect s)
    (isSpeaking s) v (isBatchMode s) (batchProgress s) (isBatchActive s)
    (isBatchPaused s) (isBatchCancelledRef s) (isBatchPausedRef s)
    (ttsSourceRef s) (trace s).

Definition set_batchProgress (v : nat * nat) (s : Component) : Component :=
  mkComponent
    (state s) (history s) (showHistory s) (historySearchQuery s)
    (speechRate s) (selectedVoice s) (isAutoPlayEnabled s) (isAutoDetect s)
    (isSpeaking s) (showGuide s) (isBatchMode s) v (isBatchActive s)
    (isBatchPaused s) (isBatchCancelledRef s) (isBatchPausedRef s)
    (ttsSourceRef s) (trace s).

Definition set_isBatchActive (v : bool) (s : Component) : Component :=
  mkComponent
    (state s) (history s) (showHistory s) (historySearchQuery s)
    (speechRate s) (selectedVoice s) (isAutoPlayEnabled s) (isAutoDetect s)
    (isSpeaking s) (showGuide s) (isBatchMode s) (batchProgress s) v
    (isBatchPaused s) (isBatchCancelledRef s) (isBatchPausedRef s)
    (ttsSourceRef s) (trace s).

Definition set_isBatchPaused (v : bool) (s : Component) : Component :=
  mkComponent
    (state s) (history s) (showHistory s) (historySearchQuery s)
    (speechRate s) (selectedVoice s) (isAutoPlayEnabled s) (isAutoDetect s)
    (isSpeaking s) (showGuide s) (isBatchMode s) (batchProgress s)
    (isBatchActive s) v (isBatchCancelledRef s) (isBatchPausedRef s)
    (ttsSourceRef s) (trace s).

Definition set_isBatchCancelledRef (v : bool) (s : Component) : Component :=
  mkComponent
    (state s) (history s) (showHistory s) (historySearchQuery s)
    (speechRate s) (selectedVoice s) (isAutoPlayEnabled s) (isAutoDetect s)
    (isSpeaking s) (showGuide s) (isBatchMode s) (batchProgress s)
    (isBatchActive s) (isBatchPaused s) v (isBatchPausedRef s)
    (ttsSourceRef s) (trace s).

Definition set_isBatchPausedRef (v : bool) (s : Component) : Component :=
  mkComponent
    (state s) (history s) (showHistory s) (historySearchQuery s)
    (speechRate s) (selectedVoice s) (isAutoPlayEnabled s) (isAutoDetect s)
    (isSpeaking s) (showGuide s) (isBatchMode s) (batchProgress s)
    (isBatchActive s) (isBatchPaused s) (isBatchCancelledRef s) v
    (ttsSourceRef s) (trace s).

Definition set_ttsSourceRef (v : option nat) (s : Component) : Component :=
  mkComponent
    (state s) (history s) (showHistory s) (historySearchQuery s)
    (speechRate s) (selectedVoice s) (isAutoPlayEnabled s) (isAutoDetect s)
    (isSpeaking s) (showGuide s) (isBatchMode s) (batchProgress s)
    (isBatchActive s) (isBatchPaused s) (isBatchCancelledRef s)
    (isBatchPausedRef s) v (trace s).

(** Record effects at the end of the trace. *)
Definition emit (es : list Effect) (s : Component) : Component :=
  mkComponent
    (state s) (history s) (showHistory s) (historySearchQuery s)
    (speechRate s) (selectedVoice s) (isAutoPlayEnabled s) (isAutoDetect s)
    (isSpeaking s) (showGuide s) (isBatchMode s) (batchProgress s)
    (isBatchActive s) (isBatchPaused s) (isBatchCancelledRef s)
    (isBatchPausedRef s) (ttsSourceRef s) (trace s ++ es).

(** [{ ...prev, error }] and the like. *)
Definition with_error (e : option jsstring) (st : TranslationState) : TranslationState :=
  mkTranslationState (sourceText st) (translatedText st) (sourceLanguage st)
    (targetLanguage st) (isLoading st) e (pronunciationGuide st).

Definition with_isLoading (b : bool) (st : TranslationState) : TranslationState :=
  mkTranslationState (sourceText st) (translatedText st) (sourceLanguage st)
    (targetLanguage st) b (error st) (pronunciationGuide st).

Definition with_translatedText (t : jsstring) (st : TranslationState) : TranslationState :=
  mkTranslationState (sourceText st) t (sourceLanguage st)
    (targetLanguage st) (isLoading st) (error st) (pronunciationGuide st).

(** [{ ...prev, isLoading: true, error: null, translatedText: '',
    pronunciationGuide: '' }], set when a translation starts. *)
Definition cleared (st : TranslationState) : TranslationState :=
  mkTranslationState (sourceText st) [] (sourceLanguage st)
    (targetLanguage st) true None [].

(** What a handler gets from outside while it runs: the values of
    [crypto.randomUUID()] and [Date.now()], the outcome of its n-th text
    request, and, for a batch, the request during which the user clicks
    Cancel, if any. *)
Inductive Reply : Type :=
| Replied (text : option jsstring)
| Failed (err : ErrorValue).

Record World : Type := mkWorld {
  randomUUID : jsstring;
  dateNow : Z;
  replies : nat -> Reply;
  cancelDuring : option nat
}.

(** The decimal digits of a number, as [${i + 1}] prints it. *)
Fixpoint digits (d : Decimal.uint) : jsstring :=
  match d with
  | Decimal.Nil => []
  | Decimal.D0 d' => 48%N :: digits d'
  | Decimal.D1 d' => 49%N :: digits d'
  | Decimal.D2 d' => 50%N :: digits d'
  | Decimal.D3 d' => 51%N :: digits d'
  | Decimal.D4 d' => 52%N :: digits d'
  | Decimal.D5 d' => 53%N :: digits d'
  | Decimal.D6 d' => 54%N :: digits d'
  | Decimal.D7 d' => 55%N :: digits d'
  | Decimal.D8 d' => 56%N :: digits d'
  | Decimal.D9 d' => 57%N :: digits d'
  end.

Definition decimal (n : nat) : jsstring := digits (Nat.to_uint n).

(** *** The history and the language pair *)

(** [swapLanguages]. *)
Definition swapLanguages (s : Component) : Component :=
  let s := set_isAutoDetect false s in
  let prev := state s in
  let s := set_state
             (mkTranslationState (translatedText prev) (sourceText prev)
                (targetLanguage prev) (sourceLanguage prev)
                (isLoading prev) None []) s in
  set_showGuide false s.

(** [saveToHistory], called from a handler of the render [render]. *)
Definition saveToHistory (render : Component) (world : World)
    (source translated : jsstring) (s : Component) : Component :=
  let newItem :=
    mkHistoryItem (randomUUID world) source translated
      (sourceLanguage (state render)) (targetLanguage (state render))
      (dateNow world) (Some (selectedVoice render)) (Some (speechRate render)) in
  set_history (slice_first 50 (newItem :: history s)) s.

(** [selectHistoryItem]. *)
Definition selectHistoryItem (item : HistoryItem) (s : Component) : Component :=
  let s := set_isAutoDetect false s in
  let s := set_state
             (mkTranslationState (itemSourceText item) (itemTranslatedText item)
                (itemSourceLanguage item) (itemTargetLanguage item)
                false None []) s in
  let s :=
    match voice item with
    | Some v => if truthy v then set_selectedVoice v s else s
    | None => s
    end in
  let s :=
    match itemSpeechRate item with
    | Some r => set_speechRate r s
    | None => s
    end in
  let s := set_showGuide false s in
  let s := set_showHistory false s in
  let s := set_historySearchQuery [] s in
  emit [ScrollToTop] s.

(** [deleteHistoryItem]. *)
Definition deleteHistoryItem (id0 : jsstring) (s : Component) : Component :=
  set_history
    (filter (fun item => negb (VoiceHistory.str_eqb (id item) id0)) (history s)) s.

(** [clearHistory], given the answer to [window.confirm]. *)
Definition clearHistory (confirmed : bool) (s : Component) : Component :=
  if confirmed then set_history [] s else s.

(** [filteredHistory], for a lower-casing function. *)
Definition filteredHistory (toLowerCase : jsstring -> jsstring) (s : Component)
  : list HistoryItem :=
  if truthy (trim (historySearchQuery s)) then
    let query := toLowerCase (historySearchQuery s) in
    filter (fun item =>
              includes (toLowerCase (itemSourceText item)) query
              || includes (toLowerCase (itemTranslatedText item)) query)
      (history s)
  else history s.

(** *** Sentences *)

(** The class [[.!?。！？\n]] of the sentence pattern. *)
Definition isTerminator (c : N) : bool :=
  ((c =? 46) || (c =? 33) || (c =? 63) || (c =? 12290) || (c =? 65281)
   || (c =? 65311) || (c =? 10))%N.

Fixpoint takeWhile (p : N -> bool) (t : jsstring) : jsstring :=
  match t with
  | [] => []
  | c :: t' => if p c then c :: takeWhile p t' else []
  end.

Fixpoint dropWhile (p : N -> bool) (t : jsstring) : jsstring :=
  match t with
  | [] => []
  | c :: t' => if p c then dropWhile p t' else t
  end.

(** The match of [/[^.!?。！？\n]+[.!?。！？\n]*/] at the start of a text that
    begins outside the class, and what follows the match: all the
    characters up to the first one of the class, then all the characters of
    the class that follow. *)
Definition matchAt (t : jsstring) : jsstring * jsstring :=
  let outside := fun c => negb (isTerminator c) in
  let after := dropWhile outside t in
  (takeWhile outside t ++ takeWhile isTerminator after,
   dropWhile isTerminator after).

(** The matches of the pattern with the [g] flag: the search for the next
    match passes over characters of the class, where none can start. Each
    match takes at least one character, so as many rounds as the text has
    characters find them all. *)
Fixpoint matchAll (rounds : nat) (t : jsstring) : list jsstring :=
  match rounds with
  | 0 => []
  | S rounds' =>
      match dropWhile isTerminator t with
      | [] => []
      | c :: t' =>
          let (found, rest) := matchAt (c :: t') in
          found :: matchAll rounds' rest
      end
  end.

(** [sourceText.match(...) || [sourceText]]: [match] gives [null] when
    there is no match. *)
Definition sentencesOf (sourceText : jsstring) : list jsstring :=
  match matchAll (length sourceText) sourceText with
  | [] => [sourceText]
  | found => found
  end.

(** *** Speech *)

(** [stopSpeaking]. *)
Definition stopSpeaking (s : Component) : Component :=
  let s :=
    match ttsSourceRef s with
    | Some source => set_ttsSourceRef None (emit [SourceStop source] s)
    | None => s
    end in
  set_isSpeaking false s.

Definition speechPrompt (target : Language) (text : jsstring) : jsstring :=
  js "Please read this " ++ languageName target ++ js " text naturally: " ++ text.

(** [handleSpeak] up to its request, which is as far as a caller that does
    not await it sees it run. The argument is absent when the handler is
    the speaker button's. *)
Definition handleSpeak (render : Component) (textToSpeak : option jsstring)
    (s : Component) : Component :=
  let given :=
    match textToSpeak with
    | Some t => truthy t
    | None => false
    end in
  let text :=
    match textToSpeak with
    | Some t => if truthy t then t else translatedText (state render)
    | None => translatedText (state render)
    end in
  let s := if isSpeaking render then stopSpeaking s else s in
  if isSpeaking render && negb given then s
  else if negb (truthy text) then s
  else
    let s := set_isSpeaking true s in
    let s := set_state (with_error None (state s)) s in
    emit [GenerateSpeech (selectedVoice render)
            (speechPrompt (targetLanguage (state render)) text)] s.

(** *** Translation *)

(** [response.text || ''] *)
Definition orEmpty (text : option jsstring) : jsstring :=
  match text with
  | Some t => t
  | None => []
  end.

(** [!state.error] *)
Definition noError (st : TranslationState) : bool :=
  match error st with
  | Some e => negb (truthy e)
  | None => true
  end.

Definition translatePrompt (source target : Language) (text : jsstring) : jsstring :=
  js "Translate the following " ++ languageName source ++ js " text into "
  ++ languageName target ++ js ". Output ONLY the translated text."
  ++ [10%N; 10%N] ++ js "Text: " ++ text.

Definition sentencePrompt (source target : Language) (sentence : jsstring) : jsstring :=
  js "Translate this single sentence from " ++ languageName source ++ js " to "
  ++ languageName target ++ js ": " ++ [34%N] ++ trim sentence ++ [34%N].

(** [cancelBatch]. *)
Definition cancelBatch (s : Component) : Component :=
  let s := set_isBatchCancelledRef true s in
  let s := set_isBatchActive false s in
  let s := set_isBatchPaused false s in
  let s := set_isBatchPausedRef false s in
  set_state (with_isLoading false (state s)) s.

(** [togglePauseBatch], by a click on the page as it is rendered. *)
Definition togglePauseBatch (s : Component) : Component :=
  let newVal := negb (isBatchPaused s) in
  let s := set_isBatchPaused newVal s in
  set_isBatchPausedRef newVal s.

(** What one successful request of a batch writes: the progress and the
    text so far. *)
Definition progressed (total i : nat) (currentResult : jsstring) (s : Component)
  : Component :=
  let s := set_batchProgress (i, total) s in
  set_state (with_translatedText (trim currentResult) (state s)) s.

Section Handlers.

(** [String.prototype.toLowerCase], as for [parseApiError]. *)
Variable toLowerCase : jsstring -> jsstring.

Definition failureMessage (i : nat) (err : ErrorValue) : jsstring :=
  js "Batch processing failed at sentence " ++ decimal (i + 1) ++ js ": "
  ++ parseApiError toLowerCase err.

(** The loop of [startBatchTranslation] from its round [i], with the
    sentences still to do and [currentResult]; it gives the final
    [currentResult] too. A click on Cancel arrives while a request is
    awaited; the page is not paused during the batch, so the wait of the
    loop is passed at once. *)
Fixpoint batchLoop (render : Component) (world : World) (total i : nat)
    (pending : list jsstring) (currentResult : jsstring) (s : Component)
  : jsstring * Component :=
  match pending with
  | [] => (currentResult, s)
  | sentence :: pending' =>
      if isBatchCancelledRef s then (currentResult, s)
      else
        let s :=
          emit [GenerateContent "gemini-3-flash-preview"
                  (sentencePrompt (sourceLanguage (state render))
                     (targetLanguage (state render)) sentence)] s in
        let s :=
          match cancelDuring world with
          | Some k => if Nat.eqb k i then cancelBatch s else s
          | None => s
          end in
        match replies world i with
        | Replied text =>
            let currentResult := currentResult ++ orEmpty text ++ js " " in
            let s := progressed total (i + 1) currentResult s in
            batchLoop render world total (i + 1) pending' currentResult s
        | Failed err =>
            let s := emit [ConsoleError "Batch error at sentence"] s in
            let s := set_state
                       (with_error (Some (failureMessage i err)) (state s)) s in
            (currentResult, s)
        end
  end.

(** What [startBatchTranslation] sets before its loop. *)
Definition batchSetup (total : nat) (s : Component) : Component :=
  let s := set_isBatchActive true s in
  let s := set_isBatchPaused false s in
  let s := set_isBatchPausedRef false s in
  let s := set_isBatchCancelledRef false s in
  let s := set_batchProgress (0, total) s in
  let s := set_state (cleared (state s)) s in
  set_showGuide false s.

(** What [startBatchTranslation] does after its loop. *)
Definition batchEnd (render : Component) (world : World)
    (currentResult : jsstring) (s : Component) : Component :=
  let s :=
    if negb (isBatchCancelledRef s) && noError (state render) then
      let s := saveToHistory render world (sourceText (state render))
                 (trim currentResult) s in
      if isAutoPlayEnabled render && truthy (trim currentResult)
      then handleSpeak render (Some (trim currentResult)) s
      else s
    else s in
  let s := set_isBatchActive false s in
  set_state (with_isLoading false (state s)) s.

(** [startBatchTranslation], called from a handler of the render
    [render]. *)
Definition startBatchTranslation (render : Component) (world : World)
    (s : Component) : Component :=
  let sentences := sentencesOf (sourceText (state render)) in
  match sentences with
  | [] => s
  | _ :: _ =>
      let total := length sentences in
      let s := batchSetup total s in
      let (currentResult, s) := batchLoop render world total 0 sentences [] s in
      batchEnd render world currentResult s
  end.

(** [handleTranslate], called from the render [render]. *)
Definition handleTranslate (render : Component) (world : World) (s : Component)
  : Component :=
  if negb (truthy (trim (sourceText (state render)))) then s
  else if isBatchMode render then startBatchTranslation render world s
  else
    let s := set_state (cleared (state s)) s in
    let s := set_showGuide false s in
    let s :=
      emit [GenerateContent "gemini-3-flash-preview"
              (translatePrompt (sourceLanguage (state render))
                 (targetLanguage (state render)) (sourceText (state render)))] s in
    match replies world 0 with
    | Replied text =>
        let translated := orEmpty text in
        let s := set_state
                   (with_isLoading false
                      (with_translatedText translated (state s))) s in
        let s := saveToHistory render world (sourceText (state render))
                   translated s in
        if isAutoPlayEnabled render && truthy translated
        then handleSpeak render (Some translated) s
        else s
    | Failed err =>
        let s := emit [ConsoleError EmptyString] s in
        set_state
          (with_error (Some (parseApiError toLowerCase err))
             (with_isLoading false (state s))) s
    end.

(** A click on Translate: the handler of the page as it is rendered. *)
Definition translateClick (world : World) (s : Component) : Component :=
  handleTranslate s world s.

End Handlers.

(** *** What the theorems speak of *)

(** The texts the requests [i], ..., [i + n - 1] return. *)
Definition replyText (r : Reply) : jsstring :=
  match r with
  | Replied text => orEmpty text
  | Failed _ => []
  end.

Definition translations (world : World) (i n : nat) : list jsstring :=
  map (fun j => replyText (replies world j)) (seq i n).

(** Each text followed by a space, one after the other. *)
Definition joinAll (texts : list jsstring) : jsstring :=
  concat (map (fun t => t ++ js " ") texts).

(** How many of the requests [i], ..., [i + n - 1] succeed before the first
    one that fails. *)
Fixpoint leadingReplied (world : World) (i n : nat) : nat :=
  match n with
  | 0 => 0
  | S n' =>
      match replies world i with
      | Replied _ => S (leadingReplied world (S i) n')
      | Failed _ => 0
      end
  end.

Definition isSpeech (e : Effect) : bool :=
  match e with
  | GenerateSpeech _ _ => true
  | _ => false
  end.

Definition isRequest (e : Effect) : bool :=
  match e with
  | GenerateContent _ _ => true
  | _ => false
  end.

(** The entry [saveToHistory] makes of the page [s] for a translation. *)
Definition entryOf (world : World) (s : Component) (translated : jsstring)
  : HistoryItem :=
  mkHistoryItem (randomUUID world) (sourceText (state s)) translated
    (sourceLanguage (state s)) (targetLanguage (state s)) (dateNow world)
    (Some (selectedVoice s)) (Some (speechRate s)).

(** The requests of a batch for some sentences. *)
Definition sentenceRequests (s : Component) (sentences : list jsstring)
  : list Effect :=
  map (fun sentence =>
         GenerateContent "gemini-3-flash-preview"
           (sentencePrompt (sourceLanguage (state s)) (targetLanguage (state s))
              sentence))
    sentences.


(** The part of a page that a translation reads and does not write. *)
Definition settings (s : Component)
  : jsstring * Language * Language * jsstring * Q * bool * bool :=
  (sourceText (state s), sourceLanguage (state s), targetLanguage (state s),
   selectedVoice s, speechRate s, isAutoPlayEnabled s, isBatchMode s).


(** *** A page and three runs of a batch *)

(** A page in batch mode whose source text has two sentences. *)
Definition page : Component :=
  mkComponent
    (mkTranslationState (js "Hi. Bye.") [] English French false None [])
    [] false [] 1%Q (js "Zephyr") false false false false true (0, 0)
    false false false false None [].

(** The same page with speech after each translation. *)
Definition pageWithAutoPlay : Component :=
  mkComponent
    (mkTranslationState (js "Hi. Bye.") [] English French false None [])
    [] false [] 1%Q (js "Zephyr") true false false false true (0, 0)
    false false false false None [].

(** The same page outside batch mode. *)
Definition pageOneRequest : Component :=
  mkComponent
    (mkTranslationState (js "Hi. Bye.") [] English French false None [])
    [] false [] 1%Q (js "Zephyr") false false false false false (0, 0)
    false false false false None [].

Definition unavailable : ErrorValue :=
  mkErrorValue (Some (js "503 unavailable")) (js "Error: 503 unavailable").

(** Every request is answered. *)
Definition allReplied : World :=
  mkWorld (js "id-1") 1700000000000
    (fun i => Replied (Some (if Nat.eqb i 0 then js "Salut." else js "Au revoir.")))
    None.

(** The second request fails. *)
Definition secondFails : World :=
  mkWorld (js "id-2") 1700000000001
    (fun i => if Nat.eqb i 1 then Failed unavailable
              else Replied (Some (js "Salut.")))
    None.

(** Every request fails. *)
Definition allFail : World :=
  mkWorld (js "id-3") 1700000000002 (fun _ => Failed unavailable) None.

(** Cancel is clicked during the first request. *)
Definition cancelledAtOnce : World :=
  mkWorld (js "id-4") 1700000000003
    (fun i => Replied (Some (if Nat.eqb i 0 then js "Salut." else js "Au revoir.")))
    (Some 0).

(** *** Facts: sentences *)

Lemma takeWhile_dropWhile (p : N -> bool) (t : jsstring) :
  takeWhile p t ++ dropWhile p t = t.
Proof.
  induction t as [|c t IH]; simpl; [reflexivity|].
  destruct (p c); simpl; [now rewrite IH | reflexivity].
Qed.

Lemma dropWhile_length (p : N -> bool) (t : jsstring) :
  length (dropWhile p t) <= length t.
Proof.
  induction t as [|c t IH]; simpl; [lia|].
  destruct (p c); simpl; lia.
Qed.

Lemma dropWhile_head (p : N -> bool) (t : jsstring) (c : N) (rest : jsstring) :
  dropWhile p t = c :: rest -> p c = false.
Proof.
  induction t as [|d t IH]; simpl; [discriminate|].
  destruct (p d) eqn:E; [exact IH|].
  intros H; injection H as <- _; exact E.
Qed.

Lemma dropWhile_idem (p : N -> bool) (t : jsstring) :
  dropWhile p (dropWhile p t) = dropWhile p t.
Proof.
  destruct (dropWhile p t) as [|c rest] eqn:E; [reflexivity|].
  simpl. now rewrite (dropWhile_head _ _ _ _ E).
Qed.

(** A match and what follows it make up the text it was found in. *)
Lemma matchAt_app (t : jsstring) :
  fst (matchAt t) ++ snd (matchAt t) = t.
Proof.
  unfold matchAt; cbn [fst snd].
  rewrite <- app_assoc, takeWhile_dropWhile. apply takeWhile_dropWhile.
Qed.

(** A match at a character outside the class takes that character. *)
Lemma matchAt_progress (c : N) (t : jsstring) :
  isTerminator c = false ->
  exists found', fst (matchAt (c :: t)) = c :: found'
                 /\ length (snd (matchAt (c :: t))) <= length t.
Proof.
  intros Hc. unfold matchAt; cbn [fst snd].
  cbn [takeWhile dropWhile]. rewrite Hc. cbn [negb].
  eexists; split; [reflexivity|].
  etransitivity; [apply dropWhile_length | apply dropWhile_length].
Qed.

(** With enough rounds, the matches put together are the text from its
    first character outside the class on. *)
Lemma matchAll_concat (rounds : nat) (t : jsstring) :
  length t <= rounds ->
  concat (matchAll rounds t) = dropWhile isTerminator t.
Proof.
  revert t; induction rounds as [|rounds IH]; intros t Hlen.
  - destruct t; [reflexivity | simpl in Hlen; lia].
  - cbn [matchAll].
    destruct (dropWhile isTerminator t) as [|c t'] eqn:E; [reflexivity|].
    pose proof (dropWhile_head _ _ _ _ E) as Hc.
    pose proof (dropWhile_length isTerminator t) as Hle.
    rewrite E in Hle; simpl in Hle.
    destruct (matchAt_progress c t' Hc) as (found' & Hfound & Hrest).
    pose proof (matchAt_app (c :: t')) as Happ.
    destruct (matchAt (c :: t')) as [found rest] eqn:Em.
    cbn [fst snd] in *. cbn [concat].
    rewrite IH by lia.
    assert (Hidem : dropWhile isTerminator rest = rest).
    { unfold matchAt in Em. injection Em as _ <-. apply dropWhile_idem. }
    rewrite Hidem. exact Happ.
Qed.

Lemma matchAll_nonempty (rounds : nat) (t : jsstring) :
  Forall (fun sentence => exists c rest,
            sentence = c :: rest /\ isTerminator c = false)
    (matchAll rounds t).
Proof.
  revert t; induction rounds as [|rounds IH]; intros t; [constructor|].
  cbn [matchAll].
  destruct (dropWhile isTerminator t) as [|c t'] eqn:E; [constructor|].
  pose proof (dropWhile_head _ _ _ _ E) as Hc.
  destruct (matchAt_progress c t' Hc) as (found' & Hfound & _).
  destruct (matchAt (c :: t')) as [found rest].
  cbn [fst] in Hfound. constructor; [|apply IH].
  exists c, found'. now split.
Qed.

Lemma sentencesOf_nonempty (sourceText : jsstring) :
  sentencesOf sourceText <> [].
Proof.
  unfold sentencesOf.
  now destruct (matchAll (length sourceText) sourceText).
Qed.

(** X13. The sentences a batch translates: there is always at least one;
    put together they are the source text without the sentence marks and
    line breaks it starts with (or the whole text when it has nothing
    else); and when the text has a character that is neither, every
    sentence starts with such a character. *)
Theorem sentences_cover (sourceText : jsstring) :
  sentencesOf sourceText <> []
  /\ concat (sentencesOf sourceText)
     = match dropWhile isTerminator sourceText with
       | [] => sourceText
       | rest => rest
       end
  /\ (dropWhile isTerminator sourceText <> [] ->
      Forall (fun sentence => exists c rest,
                sentence = c :: rest /\ isTerminator c = false)
        (sentencesOf sourceText)).
Proof.
  unfold sentencesOf.
  pose proof (matchAll_concat (length sourceText) sourceText (le_n _)) as Hc.
  pose proof (matchAll_nonempty (length sourceText) sourceText) as Hn.
  destruct (matchAll (length sourceText) sourceText) as [|m ms] eqn:E.
  - cbn [concat] in Hc. rewrite <- Hc. cbn [concat].
    repeat split; [discriminate | apply app_nil_r | now intros []].
  - rewrite <- Hc. destruct (concat (m :: ms)) eqn:Ec.
    + destruct (Forall_inv Hn) as (c & rest & -> & _). discriminate Ec.
    + repeat split; [discriminate | intros _; exact Hn].
Qed.

(** Three sentences, the second ended by an ideographic full stop, and a
    text of marks only. *)
Example sentences_of_a_text :
  sentencesOf (js "Hi there. How?! " ++ [12354; 12290]%N ++ js "ok")
  = [js "Hi there."; js " How?!"; [32; 12354; 12290]%N; js "ok"]
  /\ sentencesOf (js "...") = [js "..."]
  /\ sentencesOf [] = [[]].
Proof. repeat split. Qed.


(** *** Facts: the history and the language pair *)

(** Reading a field of a page that setters built. *)
Ltac fields :=
  cbn [state history showHistory historySearchQuery speechRate selectedVoice
       isAutoPlayEnabled isAutoDetect isSpeaking showGuide isBatchMode
       batchProgress isBatchActive isBatchPaused isBatchCancelledRef
       isBatchPausedRef ttsSourceRef trace
       set_state set_history set_showHistory set_historySearchQuery
       set_speechRate set_selectedVoice set_isAutoDetect set_isSpeaking
       set_showGuide set_batchProgress set_isBatchActive set_isBatchPaused
       set_isBatchCancelledRef set_isBatchPausedRef set_ttsSourceRef emit
       sourceText translatedText sourceLanguage targetLanguage isLoading error
       pronunciationGuide with_error with_isLoading with_translatedText cleared
       progressed cancelBatch stopSpeaking saveToHistory entryOf
       id itemSourceText itemTranslatedText itemSourceLanguage
       itemTargetLanguage timestamp voice itemSpeechRate] in *.

(** X14. Swapping the languages twice gives back the two texts and the two
    languages; what does not come back is the pronunciation guide and the
    error message, which the first swap clears. *)
Theorem swapLanguages_twice (s : Component) :
  state (swapLanguages (swapLanguages s))
  = mkTranslationState (sourceText (state s)) (translatedText (state s))
      (sourceLanguage (state s)) (targetLanguage (state s))
      (isLoading (state s)) None []
  /\ isAutoDetect (swapLanguages (swapLanguages s)) = false
  /\ history (swapLanguages (swapLanguages s)) = history s.
Proof.
  destruct s as [st]; destruct st. repeat split.
Qed.

(** X15. An entry saved to the history is the first of it, over the 49
    newest of before; selecting that entry later puts back the two texts,
    the two languages and the speech rate of the page that saved it, and
    its voice when that has a name, and it leaves the history alone. *)
Theorem saved_entry_restores (render : Component) (world : World)
    (source translated : jsstring) (s later : Component) :
  let entry :=
    mkHistoryItem (randomUUID world) source translated
      (sourceLanguage (state render)) (targetLanguage (state render))
      (dateNow world) (Some (selectedVoice render)) (Some (speechRate render)) in
  history (saveToHistory render world source translated s)
  = entry :: firstn 49 (history s)
  /\ length (history (saveToHistory render world source translated s)) <= 50
  /\ state (selectHistoryItem entry later)
     = mkTranslationState source translated (sourceLanguage (state render))
         (targetLanguage (state render)) false None []
  /\ speechRate (selectHistoryItem entry later) = speechRate render
  /\ selectedVoice (selectHistoryItem entry later)
     = (if truthy (selectedVoice render) then selectedVoice render
        else selectedVoice later)
  /\ history (selectHistoryItem entry later) = history later.
Proof.
  intros entry. destruct s, later.
  unfold selectHistoryItem, entry; fields.
  split; [reflexivity|]. split.
  { unfold slice_first. rewrite length_firstn. lia. }
  destruct (truthy (selectedVoice render)); repeat split.
Qed.

(** An entry of the history read from storage that has no voice and no
    rate: selecting it keeps the voice and the rate of the page. *)
Example select_entry_without_voice :
  let item := mkHistoryItem (js "a") (js "neko") (js "cat") Japanese English
                0%Z None None in
  let page := mkComponent
                (mkTranslationState (js "x") (js "y") French Urdu false
                   (Some (js "Network error.")) (js "guide"))
                [item] true (js "ne") 1.5%Q (js "Kore") false true false true
                false (0, 0) false false false false None [] in
  selectHistoryItem item page
  = mkComponent
      (mkTranslationState (js "neko") (js "cat") Japanese English false None [])
      [item] false [] 1.5%Q (js "Kore") false false false false
      false (0, 0) false false false false None [ScrollToTop].
Proof. reflexivity. Qed.


(** *** Facts: translation *)

Lemma filter_isSpeech_requests (s : Component) (sentences : list jsstring) :
  filter isSpeech (sentenceRequests s sentences) = [].
Proof. induction sentences; [reflexivity | exact IHsentences]. Qed.

Lemma filter_isRequest_requests (s : Component) (sentences : list jsstring) :
  filter isRequest (sentenceRequests s sentences) = sentenceRequests s sentences.
Proof.
  induction sentences; [reflexivity|].
  cbn [sentenceRequests map filter isRequest]. f_equal. exact IHsentences.
Qed.

Section TranslationFacts.

Variable toLowerCase : jsstring -> jsstring.
Variable render : Component.
Variable world : World.
Variable total : nat.


(** Whatever the replies and the clicks, the loop leaves the history
    alone, asks for no speech, and its requests are those of the first
    sentences still to do, in their order. *)
Lemma batchLoop_frame (pending : list jsstring) :
  forall (i : nat) (cur : jsstring) (s : Component),
    let s' := snd (batchLoop toLowerCase render world total i pending cur s) in
    history s' = history s
    /\ filter isSpeech (trace s') = filter isSpeech (trace s)
    /\ exists n,
         filter isRequest (trace s')
         = filter isRequest (trace s) ++ sentenceRequests render (firstn n pending).
Proof.
  induction pending as [|sentence pending IH]; intros i cur s; cbv zeta.
  - cbn [batchLoop snd]. repeat split. exists 0. now rewrite app_nil_r.
  - cbn [batchLoop].
    destruct (isBatchCancelledRef s) eqn:Hflag.
    { cbn [snd]. repeat split. exists 0. now rewrite app_nil_r. }
    assert (Hstep : forall s1 : Component,
               history s1 = history s ->
               trace s1 = trace s
                          ++ sentenceRequests render [sentence] ->
               let s' := snd (match replies world i with
                 | Replied text =>
                     batchLoop toLowerCase render world total (i + 1) pending
                       (cur ++ orEmpty text ++ js " ")
                       (progressed total (i + 1) (cur ++ orEmpty text ++ js " ") s1)
                 | Failed err =>
                     (cur,
                      set_state (with_error (Some (failureMessage toLowerCase i err))
                                   (state (emit [ConsoleError "Batch error at sentence"] s1)))
                        (emit [ConsoleError "Batch error at sentence"] s1))
                 end) in
               history s' = history s
               /\ filter isSpeech (trace s') = filter isSpeech (trace s)
               /\ exists n,
                    filter isRequest (trace s')
                    = filter isRequest (trace s)
                      ++ sentenceRequests render (firstn n (sentence :: pending))).
    { intros s1 Hh Ht. cbv zeta. destruct (replies world i) as [text|err].
      - match goal with
        | |- context [batchLoop _ _ _ _ _ _ ?c ?st] =>
            destruct (IH (i + 1) c st) as (H1 & H2 & n & H3)
        end.
        cbv zeta in H1, H2, H3. rewrite H1, H2, H3. clear H1 H2 H3.
        destruct s1; fields. subst.
        rewrite !filter_app. cbn [sentenceRequests map filter isSpeech isRequest].
        rewrite app_nil_r. repeat split.
        exists (S n). cbn [firstn sentenceRequests map].
        now rewrite <- app_assoc.
      - cbn [snd]. destruct s1; fields. subst.
        rewrite !filter_app. cbn [sentenceRequests map filter isSpeech isRequest].
        rewrite !app_nil_r. repeat split.
        exists 1. reflexivity. }
    destruct (cancelDuring world) as [k|]; [destruct (Nat.eqb k i)|];
      apply Hstep; destruct s; reflexivity.
Qed.


Lemma leadingReplied_le (i n : nat) : leadingReplied world i n <= n.
Proof.
  revert i; induction n as [|n IH]; intros i; cbn [leadingReplied]; [lia|].
  destruct (replies world i); [specialize (IH (S i))|]; lia.
Qed.

Lemma leadingReplied_all (i n : nat) :
  (forall j, j < n -> exists text, replies world (i + j) = Replied text) ->
  leadingReplied world i n = n.
Proof.
  revert i; induction n as [|n IH]; intros i Hall; cbn [leadingReplied];
    [reflexivity|].
  destruct (Hall 0 ltac:(lia)) as (text & Hr). rewrite Nat.add_0_r in Hr.
  rewrite Hr. f_equal. apply IH. intros j Hj.
  destruct (Hall (S j) ltac:(lia)) as (text' & Hr').
  exists text'. now rewrite Nat.add_succ_l, <- Nat.add_succ_r.
Qed.

Lemma leadingReplied_first_failure (i n k : nat) (err : ErrorValue) :
  (forall j, j < k -> exists text, replies world (i + j) = Replied text) ->
  replies world (i + k) = Failed err -> k < n ->
  leadingReplied world i n = k.
Proof.
  revert i k; induction n as [|n IH]; intros i k Hall Hfail Hk; [lia|].
  cbn [leadingReplied]. destruct k as [|k].
  - rewrite Nat.add_0_r in Hfail. now rewrite Hfail.
  - destruct (Hall 0 ltac:(lia)) as (text & Hr). rewrite Nat.add_0_r in Hr.
    rewrite Hr. f_equal. apply IH; [| |lia].
    + intros j Hj. destruct (Hall (S j) ltac:(lia)) as (text' & Hr').
      exists text'. now rewrite Nat.add_succ_l, <- Nat.add_succ_r.
    + now rewrite Nat.add_succ_l, <- Nat.add_succ_r.
Qed.

Lemma translations_S (i n : nat) :
  translations world i (S n)
  = replyText (replies world i) :: translations world (S i) n.
Proof. reflexivity. Qed.

(** The loop when nobody clicks Cancel: it goes on to the first request that
    fails. *)
Lemma batchLoop_run (pending : list jsstring) :
  forall (i : nat) (cur : jsstring) (s : Component),
    cancelDuring world = None ->
    isBatchCancelledRef s = false ->
    let m := leadingReplied world i (length pending) in
    let r := batchLoop toLowerCase render world total i pending cur s in
    fst r = cur ++ joinAll (translations world i m)
    /\ isBatchCancelledRef (snd r) = false
    /\ trace (snd r)
       = trace s ++ sentenceRequests render (firstn (S m) pending)
         ++ (if m <? length pending
             then [ConsoleError "Batch error at sentence"] else [])
    /\ (m = length pending -> error (state (snd r)) = error (state s))
    /\ (forall err, replies world (i + m) = Failed err -> m < length pending ->
        error (state (snd r)) = Some (failureMessage toLowerCase (i + m) err))
    /\ (0 < m -> batchProgress (snd r) = (i + m, total)
                 /\ translatedText (state (snd r)) = trim (fst r))
    /\ (m = 0 -> batchProgress (snd r) = batchProgress s
                 /\ translatedText (state (snd r)) = translatedText (state s)).
Proof.
  induction pending as [|sentence pending IH]; intros i cur s Hnone Hflag;
    cbv zeta.
  - cbn [batchLoop length leadingReplied fst snd translations seq map joinAll
         concat firstn sentenceRequests Nat.ltb Nat.leb].
    rewrite !app_nil_r. repeat split; try assumption; try lia.
  - cbn [batchLoop length leadingReplied]. rewrite Hflag, Hnone.
    destruct (replies world i) as [text|err] eqn:Hr.
    + rewrite Nat.add_1_r.
      match goal with
      | |- context [batchLoop _ _ _ _ _ _ ?c ?st] =>
          assert (Hflag1 : isBatchCancelledRef st = false)
            by (destruct s; exact Hflag);
          assert (Htrace1 : trace st
                            = trace s ++ sentenceRequests render [sentence])
            by (destruct s; reflexivity);
          assert (Herr1 : error (state st) = error (state s))
            by (destruct s; reflexivity);
          assert (Hprog1 : batchProgress st = (S i, total))
            by (destruct s; reflexivity);
          assert (Htext1 : translatedText (state st) = trim c)
            by (destruct s; reflexivity);
          destruct (IH (S i) c st Hnone Hflag1)
            as (H1 & H2 & H3 & H4 & H5 & H6 & H7)
      end.
      cbv zeta in H1, H2, H3, H4, H5, H6, H7.
      set (m := leadingReplied world (S i) (length pending)) in *.
      rewrite translations_S, Hr. cbn [replyText joinAll map concat].
      split; [rewrite H1; unfold joinAll; now rewrite <- !app_assoc|].
      split; [exact H2|].
      split.
      { rewrite H3, Htrace1. cbn [firstn sentenceRequests map].
        change (S m <? S (length pending)) with (m <? length pending).
        now rewrite <- app_assoc. }
      split; [intros Hm; rewrite H4, Herr1; [reflexivity | lia]|].
      split.
      { intros err Hfail Hlt. rewrite Nat.add_succ_r, <- Nat.add_succ_l in *.
        apply H5; [exact Hfail | lia]. }
      split; [|intros Hm; lia].
      intros _. rewrite Nat.add_succ_r, <- Nat.add_succ_l.
      destruct (Nat.eq_dec m 0) as [Hm0|Hm0].
      * destruct (H7 Hm0) as (Hp & Ht). rewrite Hp, Ht, Hprog1, Htext1, Hm0.
        rewrite Nat.add_0_r. split; [reflexivity|].
        rewrite H1, Hm0. cbn [translations seq map joinAll concat].
        now rewrite app_nil_r.
      * apply H6. lia.
    + cbn [fst snd translations seq map joinAll concat firstn sentenceRequests].
      change (0 <? S (length pending)) with true. cbv iota.
      rewrite app_nil_r, Nat.add_0_r.
      split; [reflexivity|]. split; [destruct s; exact Hflag|].
      split; [destruct s; fields; now rewrite <- app_assoc|].
      split; [intros Hm; lia|].
      split.
      { intros err' Hfail _. rewrite Hr in Hfail. injection Hfail as <-.
        destruct s; reflexivity. }
      split; [intros Hm; lia|].
      intros _. destruct s; split; reflexivity.
Qed.



End TranslationFacts.

Lemma handleSpeak_frame (render : Component) (textToSpeak : option jsstring)
    (s : Component) :
  let s' := handleSpeak render textToSpeak s in
  history s' = history s
  /\ settings s' = settings s
  /\ translatedText (state s') = translatedText (state s)
  /\ isLoading (state s') = isLoading (state s)
  /\ batchProgress s' = batchProgress s
  /\ isBatchActive s' = isBatchActive s
  /\ filter isRequest (trace s') = filter isRequest (trace s).
Proof.
  cbv zeta. unfold handleSpeak, settings.
  destruct textToSpeak as [[|c t]|]; cbn [truthy negb andb];
    destruct (isSpeaking render); cbn [negb andb];
    try destruct (truthy (translatedText (state render))); cbn [negb];
    destruct s as [st ? ? ? ? ? ? ? ? ? ? ? ? ? ? ? [source|] tr]; destruct st;
    fields; rewrite ?filter_app; cbn [filter isRequest];
    rewrite ?app_nil_r; repeat split.
Qed.

(** Speaking a text that is given and not empty: the request goes out and
    the error message is taken down. *)
Lemma handleSpeak_given (render : Component) (text : jsstring) (s : Component) :
  truthy text = true ->
  let s' := handleSpeak render (Some text) s in
  error (state s') = None
  /\ isSpeaking s' = true
  /\ filter isSpeech (trace s')
     = filter isSpeech (trace s)
       ++ [GenerateSpeech (selectedVoice render)
             (speechPrompt (targetLanguage (state render)) text)].
Proof.
  destruct text as [|c text]; [discriminate|]. intros _.
  cbv zeta. unfold handleSpeak. cbn [truthy negb]. rewrite andb_false_r.
  destruct (isSpeaking render);
    destruct s as [st ? ? ? ? ? ? ? ? ? ? ? ? ? ? ? [source|] tr]; destruct st;
    fields; rewrite ?filter_app; cbn [filter isSpeech];
    rewrite ?app_nil_r; repeat split.
Qed.


(** What the last two lines of [startBatchTranslation] leave as it was. *)
Lemma done_fields (s : Component) :
  let s' := set_state (with_isLoading false (state (set_isBatchActive false s)))
              (set_isBatchActive false s) in
  history s' = history s
  /\ trace s' = trace s
  /\ error (state s') = error (state s)
  /\ translatedText (state s') = translatedText (state s)
  /\ batchProgress s' = batchProgress s
  /\ settings s' = settings s
  /\ isLoading (state s') = false
  /\ isBatchActive s' = false.
Proof. destruct s as [st]; destruct st. repeat split. Qed.

Lemma saveToHistory_fields (render : Component) (world : World)
    (source translated : jsstring) (s : Component) :
  let s' := saveToHistory render world source translated s in
  trace s' = trace s
  /\ state s' = state s
  /\ batchProgress s' = batchProgress s
  /\ settings s' = settings s.
Proof. destruct s as [st]; destruct st. repeat split. Qed.

(** The end of a batch: what is saved, what is spoken, what is shown. *)
Lemma batchEnd_fields (render : Component) (world : World) (cur : jsstring)
    (s : Component) :
  let saved := negb (isBatchCancelledRef s) && noError (state render) in
  let spoken := saved && (isAutoPlayEnabled render && truthy (trim cur)) in
  let s' := batchEnd render world cur s in
  history s'
  = (if saved
     then slice_first 50 (entryOf world render (trim cur) :: history s)
     else history s)
  /\ filter isSpeech (trace s')
     = filter isSpeech (trace s)
       ++ (if spoken
           then [GenerateSpeech (selectedVoice render)
                   (speechPrompt (targetLanguage (state render)) (trim cur))]
           else [])
  /\ filter isRequest (trace s') = filter isRequest (trace s)
  /\ error (state s') = (if spoken then None else error (state s))
  /\ translatedText (state s') = translatedText (state s)
  /\ batchProgress s' = batchProgress s
  /\ settings s' = settings s
  /\ isLoading (state s') = false
  /\ isBatchActive s' = false.
Proof.
  cbv zeta. unfold batchEnd.
  destruct (negb (isBatchCancelledRef s) && noError (state render));
    cbn [andb].
  - destruct (isAutoPlayEnabled render && truthy (trim cur)) eqn:Hspoken.
    + apply andb_true_iff in Hspoken as (_ & Htext).
      match goal with
      | |- context [set_isBatchActive false ?x] =>
          destruct (done_fields x) as (D1 & D2 & D3 & D4 & D5 & D6 & D7 & D8)
      end.
      cbv zeta in D1, D2, D3, D4, D5, D6, D7, D8.
      rewrite D1, D2, D3, D4, D5, D6, D7, D8. clear D1 D2 D3 D4 D5 D6 D7 D8.
      match goal with
      | |- context [handleSpeak render ?t ?x] =>
          destruct (handleSpeak_frame render t x)
            as (F1 & F2 & F3 & F4 & F5 & F6 & F7);
          destruct (handleSpeak_given render (trim cur) x Htext)
            as (G1 & G2 & G3);
          destruct (saveToHistory_fields render world
                      (sourceText (state render)) (trim cur) s)
            as (S1 & S2 & S3 & S4)
      end.
      cbv zeta in F1, F2, F3, F5, F7, G1, G3, S1, S2, S3, S4.
      rewrite F1, F2, F3, F5, F7, G1, G3, S1, S2, S3, S4.
      repeat split.
    + match goal with
      | |- context [set_isBatchActive false ?x] =>
          destruct (done_fields x) as (D1 & D2 & D3 & D4 & D5 & D6 & D7 & D8)
      end.
      cbv zeta in D1, D2, D3, D4, D5, D6, D7, D8.
      rewrite D1, D2, D3, D4, D5, D6, D7, D8. clear D1 D2 D3 D4 D5 D6 D7 D8.
      destruct (saveToHistory_fields render world
                  (sourceText (state render)) (trim cur) s)
        as (S1 & S2 & S3 & S4).
      cbv zeta in S1, S2, S3, S4. rewrite S1, S2, S3, S4, app_nil_r.
      repeat split.
  - destruct (done_fields s) as (D1 & D2 & D3 & D4 & D5 & D6 & D7 & D8).
    cbv zeta in D1, D2, D3, D4, D5, D6, D7, D8.
    rewrite D1, D2, D3, D4, D5, D6, D7, D8, app_nil_r. repeat split.
Qed.

Lemma batchSetup_fields (total : nat) (s : Component) :
  let s' := batchSetup total s in
  isBatchCancelledRef s' = false
  /\ history s' = history s
  /\ trace s' = trace s
  /\ error (state s') = None
  /\ translatedText (state s') = []
  /\ batchProgress s' = (0, total)
  /\ settings s' = settings s.
Proof. destruct s as [st]; destruct st. repeat split. Qed.


Lemma batchLoop_settings (toLowerCase : jsstring -> jsstring)
    (render : Component) (world : World) (total : nat)
    (pending : list jsstring) :
  forall (i : nat) (cur : jsstring) (s : Component),
    settings (snd (batchLoop toLowerCase render world total i pending cur s))
    = settings s.
Proof.
  induction pending as [|sentence pending IH]; intros i cur s;
    [reflexivity|].
  cbn [batchLoop].
  destruct (isBatchCancelledRef s); [reflexivity|].
  destruct (cancelDuring world) as [k|]; [destruct (Nat.eqb k i)|];
    (destruct (replies world i) as [text|err];
     [rewrite IH | cbn [snd]]; destruct s as [st]; destruct st; reflexivity).
Qed.

Lemma failureMessage_truthy (toLowerCase : jsstring -> jsstring) (i : nat)
    (err : ErrorValue) :
  truthy (failureMessage toLowerCase i err) = true.
Proof. reflexivity. Qed.

Lemma parseApiError_truthy (toLowerCase : jsstring -> jsstring)
    (err : ErrorValue) :
  truthy (parseApiError toLowerCase err) = true.
Proof.
  unfold parseApiError. cbv zeta.
  repeat match goal with
         | |- context [if ?b then _ else _] => destruct b
         end; reflexivity.
Qed.



Section Clicks.

Variable toLowerCase : jsstring -> jsstring.

(** A click on Translate in batch mode, the source text not blank: the
    setup, the loop over the sentences, the end. *)
Lemma translateClick_batch (world : World) (s : Component) :
  truthy (trim (sourceText (state s))) = true ->
  isBatchMode s = true ->
  let sentences := sentencesOf (sourceText (state s)) in
  let r := batchLoop toLowerCase s world (length sentences) 0 sentences []
             (batchSetup (length sentences) s) in
  translateClick toLowerCase world s = batchEnd s world (fst r) (snd r).
Proof.
  intros Htext Hbatch. cbv zeta.
  unfold translateClick, handleTranslate. rewrite Htext, Hbatch. cbn [negb].
  unfold startBatchTranslation.
  pose proof (sentencesOf_nonempty (sourceText (state s))) as Hne.
  destruct (sentencesOf (sourceText (state s))) as [|x l] eqn:E;
    [contradiction|].
  cbv zeta. now destruct (batchLoop _ _ _ _ _ _ _ _).
Qed.


(** A batch that nobody cancels, in terms of the number of sentences
    translated before the first failure. *)
Lemma batch_outcome (world : World) (s : Component) :
  truthy (trim (sourceText (state s))) = true ->
  isBatchMode s = true ->
  cancelDuring world = None ->
  let sentences := sentencesOf (sourceText (state s)) in
  let m := leadingReplied world 0 (length sentences) in
  let result := trim (joinAll (translations world 0 m)) in
  let spoken := noError (state s) && (isAutoPlayEnabled s && truthy result) in
  let s' := translateClick toLowerCase world s in
  history s'
  = (if noError (state s)
     then slice_first 50 (entryOf world s result :: history s)
     else history s)
  /\ translatedText (state s') = result
  /\ batchProgress s' = (m, length sentences)
  /\ filter isRequest (trace s')
     = filter isRequest (trace s)
       ++ sentenceRequests s (firstn (S m) sentences)
  /\ filter isSpeech (trace s')
     = filter isSpeech (trace s)
       ++ (if spoken
           then [GenerateSpeech (selectedVoice s)
                   (speechPrompt (targetLanguage (state s)) result)]
           else [])
  /\ (m = length sentences -> error (state s') = None)
  /\ (forall err, replies world m = Failed err -> m < length sentences ->
      error (state s')
      = if spoken then None else Some (failureMessage toLowerCase m err))
  /\ settings s' = settings s
  /\ isLoading (state s') = false
  /\ isBatchActive s' = false.
Proof.
  intros Htext Hbatch Hnone. cbv zeta.
  rewrite (translateClick_batch world s Htext Hbatch). cbv zeta.
  set (sentences := sentencesOf (sourceText (state s))).
  set (n := length sentences).
  destruct (batchSetup_fields n s) as (B1 & B2 & B3 & B4 & B5 & B6 & B7).
  cbv zeta in B1, B2, B3, B4, B5, B6, B7.
  pose proof (batchLoop_run toLowerCase s world n sentences 0 []
                (batchSetup n s) Hnone B1) as R.
  pose proof (batchLoop_frame toLowerCase s world n sentences 0 []
                (batchSetup n s)) as F.
  pose proof (batchLoop_settings toLowerCase s world n sentences 0 []
                (batchSetup n s)) as Hs.
  cbv zeta in R, F. fold n in R.
  set (m := leadingReplied world 0 n) in *.
  set (r := batchLoop toLowerCase s world n 0 sentences [] (batchSetup n s))
    in *.
  destruct R as (R1 & R2 & R3 & R4 & R5 & R6 & R7).
  destruct F as (Fh & Fs & _).
  cbn [app Nat.add] in R1, R5, R6.
  destruct (batchEnd_fields s world (fst r) (snd r))
    as (E1 & E2 & E3 & E4 & E5 & E6 & E7 & E8 & E9).
  cbv zeta in E1, E2, E3, E4, E5, E6, E7, E8, E9.
  rewrite E1, E2, E3, E4, E5, E6, E7, E8, E9, R2, Fh, Fs, Hs, B2, B3, B7.
  clear E1 E2 E3 E4 E5 E6 E7 E8 E9. cbn [negb andb]. rewrite !R1.
  split; [reflexivity|].
  assert (Hshown : translatedText (state (snd r))
                   = trim (joinAll (translations world 0 m))
                   /\ batchProgress (snd r) = (m, n)).
  { destruct (Nat.eq_dec m 0) as [Hm|Hm].
    - destruct (R7 Hm) as (P & T). rewrite P, T, B5, B6, Hm. now split.
    - destruct (R6 ltac:(lia)) as (P & T). rewrite P, T, R1. now split. }
  destruct Hshown as (Ht & Hp).
  split; [exact Ht|]. split; [exact Hp|].
  split.
  { rewrite R3, B3, !filter_app, filter_isRequest_requests.
    destruct (m <? n); cbn [filter isRequest]; now rewrite app_nil_r. }
  split; [reflexivity|].
  split.
  { intros Hm. rewrite (R4 Hm), B4. now destruct (_ && _). }
  split; [|repeat split].
  intros err Hfail Hlt. now rewrite (R5 err Hfail Hlt).
Qed.


(** A batch started while an error message is showing, whatever the
    replies and the clicks. *)
Lemma batch_after_error (world : World) (s : Component) :
  truthy (trim (sourceText (state s))) = true ->
  isBatchMode s = true ->
  noError (state s) = false ->
  let s' := translateClick toLowerCase world s in
  history s' = history s
  /\ filter isSpeech (trace s') = filter isSpeech (trace s).
Proof.
  intros Htext Hbatch Herr. cbv zeta.
  rewrite (translateClick_batch world s Htext Hbatch). cbv zeta.
  set (sentences := sentencesOf (sourceText (state s))).
  set (n := length sentences).
  destruct (batchSetup_fields n s) as (_ & B2 & B3 & _).
  destruct (batchLoop_frame toLowerCase s world n sentences 0 []
              (batchSetup n s)) as (Fh & Fs & _).
  set (r := batchLoop toLowerCase s world n 0 sentences [] (batchSetup n s))
    in *.
  destruct (batchEnd_fields s world (fst r) (snd r)) as (E1 & E2 & _).
  cbv zeta in B2, B3, Fh, Fs, E1, E2.
  rewrite E1, E2, Herr, andb_false_r, Fh, Fs, B2, B3. cbn [andb].
  now rewrite app_nil_r.
Qed.

(** X16. A batch that runs to its end: one request per sentence, in the
    order of the text; the text shown is the replies, each followed by a
    space, trimmed; the progress is all of all; no error shows and the
    page is no longer loading. *)
Theorem batch_complete (world : World) (s : Component) :
  truthy (trim (sourceText (state s))) = true ->
  isBatchMode s = true ->
  cancelDuring world = None ->
  (forall j, j < length (sentencesOf (sourceText (state s))) ->
             exists text, replies world j = Replied text) ->
  let sentences := sentencesOf (sourceText (state s)) in
  let s' := translateClick toLowerCase world s in
  filter isRequest (trace s')
  = filter isRequest (trace s) ++ sentenceRequests s sentences
  /\ translatedText (state s')
     = trim (joinAll (translations world 0 (length sentences)))
  /\ batchProgress s' = (length sentences, length sentences)
  /\ error (state s') = None
  /\ isLoading (state s') = false
  /\ isBatchActive s' = false.
Proof.
  intros Htext Hbatch Hnone Hall. cbv zeta.
  destruct (batch_outcome world s Htext Hbatch Hnone)
    as (_ & O2 & O3 & O4 & _ & O6 & _ & _ & O9 & O10).
  cbv zeta in O2, O3, O4, O6, O9, O10.
  rewrite (leadingReplied_all world 0 _ Hall) in O2, O3, O4, O6.
  rewrite firstn_all2 in O4 by lia.
  repeat split; auto.
Qed.

(** X17. A batch that nobody cancels, started with no error showing, is
    saved to the history whether or not a sentence failed: the entry holds
    the translations of the sentences before the first failure, and that is
    also the text shown and the progress shown. *)
Theorem batch_saves_translated_prefix (world : World) (s : Component) :
  truthy (trim (sourceText (state s))) = true ->
  isBatchMode s = true ->
  cancelDuring world = None ->
  noError (state s) = true ->
  let sentences := sentencesOf (sourceText (state s)) in
  let m := leadingReplied world 0 (length sentences) in
  let result := trim (joinAll (translations world 0 m)) in
  let s' := translateClick toLowerCase world s in
  history s' = slice_first 50 (entryOf world s result :: history s)
  /\ translatedText (state s') = result
  /\ batchProgress s' = (m, length sentences).
Proof.
  intros Htext Hbatch Hnone Herr. cbv zeta.
  destruct (batch_outcome world s Htext Hbatch Hnone) as (O1 & O2 & O3 & _).
  cbv zeta in O1, O2, O3. rewrite Herr in O1. now repeat split.
Qed.

(** X18. A batch in which the request for sentence [k + 1] fails: no request
    follows it, the progress stays at [k], the text shown is what was
    translated before, and the message names the sentence; but when speech
    after translation is on, no error was showing at the click and
    something was translated, the page speaks the part and the message is
    taken down again. *)
Theorem batch_failure_reported (world : World) (s : Component) (k : nat)
    (err : ErrorValue) :
  truthy (trim (sourceText (state s))) = true ->
  isBatchMode s = true ->
  cancelDuring world = None ->
  k < length (sentencesOf (sourceText (state s))) ->
  (forall j, j < k -> exists text, replies world j = Replied text) ->
  replies world k = Failed err ->
  let sentences := sentencesOf (sourceText (state s)) in
  let result := trim (joinAll (translations world 0 k)) in
  let spoken := noError (state s) && (isAutoPlayEnabled s && truthy result) in
  let s' := translateClick toLowerCase world s in
  filter isRequest (trace s')
  = filter isRequest (trace s) ++ sentenceRequests s (firstn (S k) sentences)
  /\ batchProgress s' = (k, length sentences)
  /\ translatedText (state s') = result
  /\ error (state s')
     = (if spoken then None else Some (failureMessage toLowerCase k err))
  /\ filter isSpeech (trace s')
     = filter isSpeech (trace s)
       ++ (if spoken
           then [GenerateSpeech (selectedVoice s)
                   (speechPrompt (targetLanguage (state s)) result)]
           else []).
Proof.
  intros Htext Hbatch Hnone Hk Hall Hfail. cbv zeta.
  destruct (batch_outcome world s Htext Hbatch Hnone)
    as (_ & O2 & O3 & O4 & O5 & _ & O7 & _).
  cbv zeta in O2, O3, O4, O5, O7.
  rewrite (leadingReplied_first_failure world 0 _ k err Hall Hfail Hk)
    in O2, O3, O4, O5, O7.
  specialize (O7 err Hfail Hk). now repeat split.
Qed.

(** X19. A batch started while an error message is showing is not saved to
    the history and is not spoken, whatever the replies: the check after
    the loop reads the error of the page as it was at the click. *)
Theorem batch_with_stale_error_not_saved (world : World) (s : Component) :
  truthy (trim (sourceText (state s))) = true ->
  isBatchMode s = true ->
  noError (state s) = false ->
  let s' := translateClick toLowerCase world s in
  history s' = history s
  /\ filter isSpeech (trace s') = filter isSpeech (trace s).
Proof. exact (batch_after_error world s). Qed.


(** X21. In batch mode, with speech after translation off: a run in which a
    sentence fails is saved to the history with what was translated before,
    and its message stays up; the next run from that page is then not
    saved, whatever its replies, because the message was showing when it
    was started. *)
Theorem batch_retry_not_saved (first retry : World) (s : Component) (k : nat)
    (err : ErrorValue) :
  truthy (trim (sourceText (state s))) = true ->
  isBatchMode s = true ->
  isAutoPlayEnabled s = false ->
  noError (state s) = true ->
  cancelDuring first = None ->
  k < length (sentencesOf (sourceText (state s))) ->
  (forall j, j < k -> exists text, replies first j = Replied text) ->
  replies first k = Failed err ->
  let s1 := translateClick toLowerCase first s in
  let s2 := translateClick toLowerCase retry s1 in
  history s1
  = slice_first 50
      (entryOf first s (trim (joinAll (translations first 0 k))) :: history s)
  /\ error (state s1) = Some (failureMessage toLowerCase k err)
  /\ history s2 = history s1.
Proof.
  intros Htext Hbatch Hauto Herr Hnone Hk Hall Hfail. cbv zeta.
  destruct (batch_outcome first s Htext Hbatch Hnone)
    as (O1 & _ & _ & _ & _ & _ & O7 & O8 & _).
  cbv zeta in O1, O7, O8.
  rewrite (leadingReplied_first_failure first 0 _ k err Hall Hfail Hk)
    in O1, O7.
  specialize (O7 err Hfail Hk).
  rewrite Herr in O1. rewrite Hauto, andb_false_r in O7.
  split; [exact O1|]. split; [exact O7|].
  unfold settings in O8. injection O8 as Hsrc _ _ _ _ _ Hmode.
  apply batch_after_error.
  - now rewrite Hsrc.
  - now rewrite Hmode.
  - unfold noError. now rewrite O7, failureMessage_truthy.
Qed.

(** X22. A click on Translate, whatever the mode, the replies and the
    clicks: the history is as before or has one more entry, made of the
    page as it was at the click, first, over the newest of before, 50 at
    most; the source text, the languages, the voice, the rate and the modes
    are as before; and when the source text is blank nothing happens at
    all. *)
Theorem translate_adds_at_most_one_entry (world : World) (s : Component) :
  let s' := translateClick toLowerCase world s in
  (history s' = history s
   \/ exists translated,
        history s' = slice_first 50 (entryOf world s translated :: history s))
  /\ (length (history s) <= 50 -> length (history s') <= 50)
  /\ settings s' = settings s
  /\ (truthy (trim (sourceText (state s))) = false -> s' = s).
Proof.
  cbv zeta.
  assert (Hcore :
    (history (translateClick toLowerCase world s) = history s
     \/ exists translated,
          history (translateClick toLowerCase world s)
          = slice_first 50 (entryOf world s translated :: history s))
    /\ settings (translateClick toLowerCase world s) = settings s
    /\ (truthy (trim (sourceText (state s))) = false ->
        translateClick toLowerCase world s = s)).
  { destruct (truthy (trim (sourceText (state s)))) eqn:Htext.
    2:{ unfold translateClick, handleTranslate. rewrite Htext. cbn [negb].
        repeat split. now left. }
    split; [|split; [|discriminate]].
    - destruct (isBatchMode s) eqn:Hbatch.
      + rewrite (translateClick_batch world s Htext Hbatch). cbv zeta.
        set (n := length (sentencesOf (sourceText (state s)))).
        destruct (batchSetup_fields n s) as (_ & B2 & _).
        destruct (batchLoop_frame toLowerCase s world n
                    (sentencesOf (sourceText (state s))) 0 [] (batchSetup n s))
          as (Fh & _).
        set (r := batchLoop toLowerCase s world n 0 _ [] (batchSetup n s)) in *.
        destruct (batchEnd_fields s world (fst r) (snd r)) as (E1 & _).
        cbv zeta in B2, Fh, E1. rewrite E1, Fh, B2.
        destruct (_ && _); [right; eexists; reflexivity | now left].
      + unfold translateClick, handleTranslate. rewrite Htext, Hbatch.
        cbn [negb]. destruct (replies world 0) as [text|err].
        * right. exists (orEmpty text).
          destruct (isAutoPlayEnabled s && truthy (orEmpty text)).
          -- match goal with
             | |- context [handleSpeak s ?t ?x] =>
                 destruct (handleSpeak_frame s t x) as (F1 & _)
             end.
             cbv zeta in F1. rewrite F1. destruct s as [st]; now destruct st.
          -- destruct s as [st]; now destruct st.
        * left. destruct s as [st]; now destruct st.
    - destruct (isBatchMode s) eqn:Hbatch.
      + rewrite (translateClick_batch world s Htext Hbatch). cbv zeta.
        set (n := length (sentencesOf (sourceText (state s)))).
        destruct (batchSetup_fields n s) as (_ & _ & _ & _ & _ & _ & B7).
        pose proof (batchLoop_settings toLowerCase s world n
                      (sentencesOf (sourceText (state s))) 0 [] (batchSetup n s))
          as Hs.
        set (r := batchLoop toLowerCase s world n 0 _ [] (batchSetup n s)) in *.
        destruct (batchEnd_fields s world (fst r) (snd r))
          as (_ & _ & _ & _ & _ & _ & E7 & _).
        cbv zeta in B7, E7. now rewrite E7, Hs, B7.
      + unfold translateClick, handleTranslate. rewrite Htext, Hbatch.
        cbn [negb]. destruct (replies world 0) as [text|err].
        * destruct (isAutoPlayEnabled s && truthy (orEmpty text)).
          -- match goal with
             | |- context [handleSpeak s ?t ?x] =>
                 destruct (handleSpeak_frame s t x) as (_ & F2 & _)
             end.
             cbv zeta in F2. rewrite F2. destruct s as [st]; now destruct st.
          -- destruct s as [st]; now destruct st.
        * destruct s as [st]; now destruct st. }
  destruct Hcore as (Hh & Hs & Hblank).
  split; [exact Hh|]. split; [|now split].
  intros Hlen. destruct Hh as [-> | (translated & ->)]; [exact Hlen|].
  unfold slice_first. rewrite length_firstn. lia.
Qed.

(** X23. Outside batch mode, a translation that is answered: one request
    with the whole source text; the reply is shown and saved as the first
    entry of the history; it is spoken, with the voice of the page, exactly
    when speech after translation is on and the reply is not empty; no
    error shows and the page is no longer loading. *)
Theorem translation_shown_and_saved (world : World) (s : Component)
    (text : option jsstring) :
  truthy (trim (sourceText (state s))) = true ->
  isBatchMode s = false ->
  replies world 0 = Replied text ->
  let s' := translateClick toLowerCase world s in
  let spoken := isAutoPlayEnabled s && truthy (orEmpty text) in
  translatedText (state s') = orEmpty text
  /\ history s' = slice_first 50 (entryOf world s (orEmpty text) :: history s)
  /\ filter isRequest (trace s')
     = filter isRequest (trace s)
       ++ [GenerateContent "gemini-3-flash-preview"
             (translatePrompt (sourceLanguage (state s))
                (targetLanguage (state s)) (sourceText (state s)))]
  /\ filter isSpeech (trace s')
     = filter isSpeech (trace s)
       ++ (if spoken
           then [GenerateSpeech (selectedVoice s)
                   (speechPrompt (targetLanguage (state s)) (orEmpty text))]
           else [])
  /\ error (state s') = None
  /\ isLoading (state s') = false.
Proof.
  intros Htext Hbatch Hr. cbv zeta.
  unfold translateClick, handleTranslate. rewrite Htext, Hbatch, Hr.
  cbn [negb].
  destruct (isAutoPlayEnabled s && truthy (orEmpty text)) eqn:Hspoken.
  - apply andb_true_iff in Hspoken as (_ & Ht).
    match goal with
    | |- context [handleSpeak s ?t ?x] =>
        destruct (handleSpeak_frame s t x)
          as (F1 & _ & F3 & F4 & _ & _ & F7);
        destruct (handleSpeak_given s (orEmpty text) x Ht) as (G1 & _ & G3)
    end.
    cbv zeta in F1, F3, F4, F7, G1, G3. rewrite F1, F3, F4, F7, G1, G3.
    destruct s as [st]; destruct st; fields.
    rewrite !filter_app. cbn [filter isRequest isSpeech].
    rewrite ?app_nil_r. repeat split.
  - destruct s as [st]; destruct st; fields.
    rewrite !filter_app. cbn [filter isRequest isSpeech].
    rewrite ?app_nil_r. repeat split.
Qed.

(** X24. Outside batch mode, a translation that fails: the message of
    [parseApiError] shows, and it is never empty; nothing is saved, nothing
    is spoken, the translation shown is empty and the page is no longer
    loading. *)
Theorem translation_failure_shown (world : World) (s : Component)
    (err : ErrorValue) :
  truthy (trim (sourceText (state s))) = true ->
  isBatchMode s = false ->
  replies world 0 = Failed err ->
  let s' := translateClick toLowerCase world s in
  error (state s') = Some (parseApiError toLowerCase err)
  /\ noError (state s') = false
  /\ history s' = history s
  /\ filter isSpeech (trace s') = filter isSpeech (trace s)
  /\ translatedText (state s') = []
  /\ isLoading (state s') = false.
Proof.
  intros Htext Hbatch Hr. cbv zeta.
  unfold translateClick, handleTranslate. rewrite Htext, Hbatch, Hr.
  cbn [negb]. unfold noError.
  destruct s as [st]; destruct st; fields.
  rewrite parseApiError_truthy, !filter_app. cbn [filter isSpeech].
  rewrite !app_nil_r. repeat split.
Qed.

End Clicks.

(** *** The three runs *)

(** The second sentence fails, speech after translation off: the first
    sentence is saved and the message stays; the run after that is
    answered in full, is shown, and is not saved. *)
Example failed_batch_then_retry :
  let s1 := translateClick asciiLower secondFails page in
  let s2 := translateClick asciiLower allReplied s1 in
  sentencesOf (sourceText (state page)) = [js "Hi."; js " Bye."]
  /\ translatedText (state s1) = js "Salut."
  /\ batchProgress s1 = (1, 2)
  /\ error (state s1)
     = Some (js "Batch processing failed at sentence 2: The translation service is currently busy or unavailable. Please try again later.")
  /\ map itemTranslatedText (history s1) = [js "Salut."]
  /\ translatedText (state s2) = js "Salut. Au revoir."
  /\ batchProgress s2 = (2, 2)
  /\ error (state s2) = None
  /\ history s2 = history s1.
Proof. vm_compute. repeat split. Qed.

(** The same failure with speech after translation on: the part is spoken
    and no message is left. *)
Example failed_batch_spoken :
  let s1 := translateClick asciiLower secondFails pageWithAutoPlay in
  error (state s1) = None
  /\ isSpeaking s1 = true
  /\ filter isSpeech (trace s1)
     = [GenerateSpeech (js "Zephyr")
          (js "Please read this French text naturally: Salut.")]
  /\ map itemTranslatedText (history s1) = [js "Salut."].
Proof. vm_compute. repeat split. Qed.

(** The requests of a batch, and of a translation in one request. *)
Example requests_of_a_translation :
  trace (translateClick asciiLower allReplied page)
  = [GenerateContent "gemini-3-flash-preview"
       (js "Translate this single sentence from English to French: "
        ++ [34%N] ++ js "Hi." ++ [34%N]);
     GenerateContent "gemini-3-flash-preview"
       (js "Translate this single sentence from English to French: "
        ++ [34%N] ++ js "Bye." ++ [34%N])]
  /\ trace (translateClick asciiLower allReplied pageOneRequest)
     = [GenerateContent "gemini-3-flash-preview"
          (js "Translate the following English text into French. Output ONLY the translated text."
           ++ [10%N; 10%N] ++ js "Text: Hi. Bye.")].
Proof. vm_compute. repeat split. Qed.

Lemma batch_complete_witness :
  truthy (trim (sourceText (state page))) = true
  /\ isBatchMode page = true
  /\ cancelDuring allReplied = None
  /\ (forall j, j < length (sentencesOf (sourceText (state page))) ->
                exists text, replies allReplied j = Replied text)
  /\ let sentences := sentencesOf (sourceText (state page)) in
     let s' := translateClick asciiLower allReplied page in
     filter isRequest (trace s')
     = filter isRequest (trace page) ++ sentenceRequests page sentences
     /\ translatedText (state s')
        = trim (joinAll (translations allReplied 0 (length sentences)))
     /\ batchProgress s' = (length sentences, length sentences)
     /\ error (state s') = None
     /\ isLoading (state s') = false
     /\ isBatchActive s' = false.
Proof.
  assert (Hall : forall j, j < length (sentencesOf (sourceText (state page))) ->
                           exists text, replies allReplied j = Replied text)
    by (intros j _; eexists; reflexivity).
  split; [reflexivity|]. split; [reflexivity|]. split; [reflexivity|].
  split; [exact Hall|].
  exact (batch_complete asciiLower allReplied page eq_refl eq_refl eq_refl Hall).
Defined.

Lemma batch_saves_translated_prefix_witness :
  truthy (trim (sourceText (state page))) = true
  /\ isBatchMode page = true
  /\ cancelDuring secondFails = None
  /\ noError (state page) = true
  /\ let sentences := sentencesOf (sourceText (state page)) in
     let m := leadingReplied secondFails 0 (length sentences) in
     let result := trim (joinAll (translations secondFails 0 m)) in
     let s' := translateClick asciiLower secondFails page in
     history s' = slice_first 50 (entryOf secondFails page result :: history page)
     /\ translatedText (state s') = result
     /\ batchProgress s' = (m, length sentences).
Proof.
  split; [reflexivity|]. split; [reflexivity|]. split; [reflexivity|].
  split; [reflexivity|].
  exact (batch_saves_translated_prefix asciiLower secondFails page
           eq_refl eq_refl eq_refl eq_refl).
Defined.

Lemma batch_failure_reported_witness :
  truthy (trim (sourceText (state pageWithAutoPlay))) = true
  /\ isBatchMode pageWithAutoPlay = true
  /\ cancelDuring secondFails = None
  /\ 1 < length (sentencesOf (sourceText (state pageWithAutoPlay)))
  /\ (forall j, j < 1 -> exists text, replies secondFails j = Replied text)
  /\ replies secondFails 1 = Failed unavailable
  /\ let sentences := sentencesOf (sourceText (state pageWithAutoPlay)) in
     let result := trim (joinAll (translations secondFails 0 1)) in
     let spoken := noError (state pageWithAutoPlay)
                   && (isAutoPlayEnabled pageWithAutoPlay && truthy result) in
     let s' := translateClick asciiLower secondFails pageWithAutoPlay in
     filter isRequest (trace s')
     = filter isRequest (trace pageWithAutoPlay)
       ++ sentenceRequests pageWithAutoPlay (firstn 2 sentences)
     /\ batchProgress s' = (1, length sentences)
     /\ translatedText (state s') = result
     /\ error (state s')
        = (if spoken then None
           else Some (failureMessage asciiLower 1 unavailable))
     /\ filter isSpeech (trace s')
        = filter isSpeech (trace pageWithAutoPlay)
          ++ (if spoken
              then [GenerateSpeech (selectedVoice pageWithAutoPlay)
                      (speechPrompt (targetLanguage (state pageWithAutoPlay))
                         result)]
              else []).
Proof.
  assert (Hlen : 1 < length (sentencesOf (sourceText (state pageWithAutoPlay))))
    by (vm_compute; lia).
  assert (Hall : forall j, j < 1 ->
                           exists text, replies secondFails j = Replied text).
  { intros j Hj. assert (j = 0) as -> by lia. eexists; reflexivity. }
  split; [reflexivity|]. split; [reflexivity|]. split; [reflexivity|].
  split; [exact Hlen|]. split; [exact Hall|]. split; [reflexivity|].
  exact (batch_failure_reported asciiLower secondFails pageWithAutoPlay 1
           unavailable eq_refl eq_refl eq_refl Hlen Hall eq_refl).
Defined.

Lemma batch_with_stale_error_not_saved_witness :
  let shown := translateClick asciiLower secondFails page in
  truthy (trim (sourceText (state shown))) = true
  /\ isBatchMode shown = true
  /\ noError (state shown) = false
  /\ let s' := translateClick asciiLower cancelledAtOnce shown in
     history s' = history shown
     /\ filter isSpeech (trace s') = filter isSpeech (trace shown).
Proof.
  intros shown.
  split; [reflexivity|]. split; [reflexivity|]. split; [reflexivity|].
  exact (batch_with_stale_error_not_saved asciiLower cancelledAtOnce shown
           eq_refl eq_refl eq_refl).
Defined.


Lemma batch_retry_not_saved_witness :
  truthy (trim (sourceText (state page))) = true
  /\ isBatchMode page = true
  /\ isAutoPlayEnabled page = false
  /\ noError (state page) = true
  /\ cancelDuring secondFails = None
  /\ 1 < length (sentencesOf (sourceText (state page)))
  /\ (forall j, j < 1 -> exists text, replies secondFails j = Replied text)
  /\ replies secondFails 1 = Failed unavailable
  /\ let s1 := translateClick asciiLower secondFails page in
     let s2 := translateClick asciiLower allReplied s1 in
     history s1
     = slice_first 50
         (entryOf secondFails page
            (trim (joinAll (translations secondFails 0 1))) :: history page)
     /\ error (state s1) = Some (failureMessage asciiLower 1 unavailable)
     /\ history s2 = history s1.
Proof.
  assert (Hlen : 1 < length (sentencesOf (sourceText (state page))))
    by (vm_compute; lia).
  assert (Hall : forall j, j < 1 ->
                           exists text, replies secondFails j = Replied text).
  { intros j Hj. assert (j = 0) as -> by lia. eexists; reflexivity. }
  split; [reflexivity|]. split; [reflexivity|]. split; [reflexivity|].
  split; [reflexivity|]. split; [reflexivity|].
  split; [exact Hlen|]. split; [exact Hall|]. split; [reflexivity|].
  exact (batch_retry_not_saved asciiLower secondFails allReplied page 1
           unavailable eq_refl eq_refl eq_refl eq_refl eq_refl Hlen Hall
           eq_refl).
Defined.

Lemma translation_shown_and_saved_witness :
  truthy (trim (sourceText (state pageOneRequest))) = true
  /\ isBatchMode pageOneRequest = false
  /\ replies allReplied 0 = Replied (Some (js "Salut."))
  /\ let s' := translateClick asciiLower allReplied pageOneRequest in
     let spoken := isAutoPlayEnabled pageOneRequest
                   && truthy (orEmpty (Some (js "Salut."))) in
     translatedText (state s') = orEmpty (Some (js "Salut."))
     /\ history s'
        = slice_first 50
            (entryOf allReplied pageOneRequest (orEmpty (Some (js "Salut.")))
             :: history pageOneRequest)
     /\ filter isRequest (trace s')
        = filter isRequest (trace pageOneRequest)
          ++ [GenerateContent "gemini-3-flash-preview"
                (translatePrompt (sourceLanguage (state pageOneRequest))
                   (targetLanguage (state pageOneRequest))
                   (sourceText (state pageOneRequest)))]
     /\ filter isSpeech (trace s')
        = filter isSpeech (trace pageOneRequest)
          ++ (if spoken
              then [GenerateSpeech (selectedVoice pageOneRequest)
                      (speechPrompt (targetLanguage (state pageOneRequest))
                         (orEmpty (Some (js "Salut."))))]
              else [])
     /\ error (state s') = None
     /\ isLoading (state s') = false.
Proof.
  split; [reflexivity|]. split; [reflexivity|]. split; [reflexivity|].
  exact (translation_shown_and_saved asciiLower allReplied pageOneRequest
           (Some (js "Salut.")) eq_refl eq_refl eq_refl).
Defined.

Lemma translation_failure_shown_witness :
  truthy (trim (sourceText (state pageOneRequest))) = true
  /\ isBatchMode pageOneRequest = false
  /\ replies allFail 0 = Failed unavailable
  /\ let s' := translateClick asciiLower allFail pageOneRequest in
     error (state s') = Some (parseApiError asciiLower unavailable)
     /\ noError (state s') = false
     /\ history s' = history pageOneRequest
     /\ filter isSpeech (trace s') = filter isSpeech (trace pageOneRequest)
     /\ translatedText (state s') = []
     /\ isLoading (state s') = false.
Proof.
  split; [reflexivity|]. split; [reflexivity|]. split; [reflexivity|].
  exact (translation_failure_shown asciiLower allFail pageOneRequest
           unavailable eq_refl eq_refl eq_refl).
Defined.


(** *** Facts: speech, pause, the history panel *)

(** X25. The speaker button: while the page is speaking it stops the speech
    node, if there is one, starts nothing and changes nothing else; while
    the page is silent it asks for the translation shown to be spoken, in
    the voice of the page, and takes the error message down, unless there
    is no translation, and then it does nothing. *)
Theorem speaker_button (s : Component) :
  let s' := handleSpeak s None s in
  (isSpeaking s = true ->
   isSpeaking s' = false /\ ttsSourceRef s' = None /\ state s' = state s
   /\ trace s'
      = trace s ++ match ttsSourceRef s with
                   | Some source => [SourceStop source]
                   | None => []
                   end)
  /\ (isSpeaking s = false -> truthy (translatedText (state s)) = true ->
      isSpeaking s' = true /\ error (state s') = None
      /\ ttsSourceRef s' = ttsSourceRef s
      /\ trace s'
         = trace s
           ++ [GenerateSpeech (selectedVoice s)
                 (speechPrompt (targetLanguage (state s))
                    (translatedText (state s)))])
  /\ (isSpeaking s = false -> truthy (translatedText (state s)) = false ->
      s' = s).
Proof.
  cbv zeta. unfold handleSpeak.
  destruct s as [st ? ? ? ? ? ? ? speaking ? ? ? ? ? ? ? [source|] tr];
    destruct st as [? translated ? ? ? ? ?]; fields;
    destruct speaking; cbn [negb andb]; fields;
    (split; [|split]); intros; try discriminate;
    try match goal with
        | H : truthy ?t = _ |- _ => rewrite H
        end;
    cbn [negb]; fields; rewrite ?app_nil_r; repeat split.
Qed.

(** X26. The pause button and its flag: after the setup of a batch, a click
    on Pause or a click on Cancel, the flag the page shows and the flag the
    loop reads agree; two clicks on Pause from such a page give it back;
    and Cancel leaves the page not paused, not active and not loading. *)
Theorem pause_flags_agree (total : nat) (s : Component) :
  isBatchPaused (batchSetup total s) = isBatchPausedRef (batchSetup total s)
  /\ isBatchPaused (togglePauseBatch s) = isBatchPausedRef (togglePauseBatch s)
  /\ isBatchPaused (togglePauseBatch s) = negb (isBatchPaused s)
  /\ isBatchPaused (cancelBatch s) = isBatchPausedRef (cancelBatch s)
  /\ (isBatchPaused s = isBatchPausedRef s ->
      togglePauseBatch (togglePauseBatch s) = s)
  /\ isBatchPaused (cancelBatch s) = false
  /\ isBatchActive (cancelBatch s) = false
  /\ isLoading (state (cancelBatch s)) = false
  /\ isBatchCancelledRef (cancelBatch s) = true.
Proof.
  destruct s as [st ? ? ? ? ? ? ? ? ? ? ? ? paused ? pausedRef ? ?];
    destruct st.
  unfold togglePauseBatch; fields.
  repeat split. intros <-. now rewrite negb_involutive.
Qed.

(** X27. The history panel of the text translator: deleting an entry and
    searching commute; a query that is empty or all white space shows the
    whole history; what is shown is always part of the history; deleting
    removes the entries with that id and no other; and clearing, when it is
    not confirmed, changes nothing. *)
Theorem text_search_after_delete (toLowerCase : jsstring -> jsstring)
    (id0 : jsstring) (s : Component) :
  filteredHistory toLowerCase (deleteHistoryItem id0 s)
  = filter (fun item => negb (VoiceHistory.str_eqb (id item) id0))
      (filteredHistory toLowerCase s)
  /\ (trim (historySearchQuery s) = [] ->
      filteredHistory toLowerCase s = history s)
  /\ (forall item, In item (filteredHistory toLowerCase s) ->
                   In item (history s))
  /\ (forall item, In item (history (deleteHistoryItem id0 s))
                   <-> In item (history s) /\ id item <> id0)
  /\ clearHistory false s = s
  /\ history (clearHistory true s) = [].
Proof.
  unfold filteredHistory, deleteHistoryItem, clearHistory.
  destruct s as [st hist ? query ? ? ? ? ? ? ? ? ? ? ? ? ? ?]; fields.
  split; [|split; [|split; [|split; [|split]]]]; try reflexivity.
  - destruct (truthy (trim query)); [|reflexivity].
    induction hist as [|x l IH]; [reflexivity|].
    cbn [filter].
    destruct (VoiceHistory.str_eqb (id x) id0) eqn:E1;
      destruct (includes (toLowerCase (itemSourceText x)) (toLowerCase query)
                || includes (toLowerCase (itemTranslatedText x))
                     (toLowerCase query)) eqn:E2;
      cbn [negb filter]; rewrite ?E1, ?E2; cbn [negb]; now rewrite IH.
  - now intros ->.
  - intros item. destruct (truthy (trim query)); [|trivial].
    rewrite filter_In. tauto.
  - intros item. rewrite filter_In, negb_true_iff.
    split; intros [Hin Hne]; (split; [exact Hin|]).
    + intros E. apply VoiceHistory.str_eqb_eq in E. congruence.
    + destruct (VoiceHistory.str_eqb (id item) id0) eqn:E; [|reflexivity].
      apply VoiceHistory.str_eqb_eq in E. contradiction.
Qed.

End TextTranslator.
